(** * Crypto-Wallet-Backend: credential and key-custody core

    A shallow embedding of [src/utils/encryption.js], [src/models/User.js],
    [src/controllers/userController.js], the Solana transfer controller, the
    address-book controller and the two handlers of
    [src/controllers/walletController.js] that create and authenticate
    users, with the properties of the natural-language specification stated
    and settled against it.

    Layout: Part I holds every definition (JavaScript values, the Node
    primitives the code calls, the cipher, the documents of the schema, the
    request handlers, and the concrete data used by the closed lemmas);
    Part II holds the lemmas and the theorems about them; Part III holds
    what is proved of the rest of the code. *)

From Stdlib Require Import Ascii String DecimalString.
From Stdlib Require Import ZArith List Bool Lia Btauto.
Import ListNotations.
Local Open Scope Z_scope.

(* ====================================================================== *)
(** * Part I: definitions                                                   *)
(* ====================================================================== *)

(** ** JavaScript strings and Node buffers

    A JavaScript string is a sequence of UTF-16 code units and a [Buffer] a
    sequence of octets; both are lists of [Z], with the ranges below. *)

Definition jsstring := list Z.
Definition bytes := list Z.

Definition is_byte (b : Z) : Prop := 0 <= b < 256.
Definition is_unit (u : Z) : Prop := 0 <= u < 65536.

Definition byteb (b : Z) : bool := (0 <=? b) && (b <? 256).

(** String literals of the source, as code units. *)
Definition lit (s : string) : jsstring :=
  map (fun c => Z.of_N (N_of_ascii c)) (list_ascii_of_string s).

(** [a === b] on strings. *)
Fixpoint str_eqb (a b : jsstring) : bool :=
  match a, b with
  | [], [] => true
  | x :: a', y :: b' => (x =? y) && str_eqb a' b'
  | _, _ => false
  end.

(** A string is truthy when it is not empty ([if (s)], [s || d], [!s]). *)
Definition truthy (s : jsstring) : bool :=
  match s with [] => false | _ => true end.

(** [s.split(sep)] for a one-unit separator: always at least one part. *)
Fixpoint split (sep : Z) (s : jsstring) : list jsstring :=
  match s with
  | [] => [[]]
  | c :: r =>
      if c =? sep then [] :: split sep r
      else match split sep r with
           | p :: ps => (c :: p) :: ps
           | [] => [[c]]
           end
  end.

(** [s.toLowerCase()], on the units that can matter to the comparisons of
    the source: the only receivers are chain identifiers compared with the
    ASCII literals "ethereum" and "solana", and no unit outside A-Z is mapped
    by ECMAScript to a letter of these two words. *)
Definition lower_unit (u : Z) : Z :=
  if (65 <=? u) && (u <=? 90) then u + 32 else u.
Definition toLowerCase (s : jsstring) : jsstring := map lower_unit s.

Definition colon : Z := 58.
Definition comma : Z := 44.
Definition replacement : Z := 0xFFFD.

(** Every octet, for the checks that run through all of them. *)
Definition all_bytes : list Z := map Z.of_nat (seq 0 256).

(** ** Entropy

    [crypto.randomBytes] and the key generators of the libraries read the
    operating system's random source.  A source is an unbounded stream of
    integers; drawing [n] octets reads the next [n] entries and advances the
    stream, so two draws in one request never read the same entries. *)

Definition entropy := nat -> Z.

Definition randomBytes (n : nat) (g : entropy) : bytes * entropy :=
  (map (fun i => g i mod 256) (seq 0 n), fun i => g (n + i)%nat).

(** ** Exceptions

    What the Node primitives throw on the paths of the source. *)

Inductive error : Type :=
| InvalidKeyLength          (* createCipheriv / createDecipheriv *)
| InvalidIV                 (* createDecipheriv: IV is not 16 octets *)
| InvalidArgType            (* decipher.update(undefined, ...) *)
| InvalidArgValue           (* decipher.update(s, 'hex'): s of odd length *)
| WrongFinalBlockLength     (* decipher.final: input not whole blocks *)
| BadDecrypt                (* decipher.final: padding check failed *)
| BadSecretKeySize          (* Keypair.fromSecretKey: not 64 octets *)
| InvalidSecretKey          (* Keypair.fromSecretKey: halves disagree *)
| InvalidPrivateKey         (* new ethers.Wallet(garbage) *)
| NotDefined                (* ReferenceError: nacl is not defined *)
| NotAFunction              (* TypeError: user.wallets.find is not a function *)
| UndefinedRead             (* TypeError: Cannot read properties of undefined *)
| IllegalArguments          (* bcrypt.compare(password, undefined) *)
| ValidationFailed          (* Mongoose: the document fails its schema *)
| DuplicateKey              (* MongoDB E11000: a unique index is violated *).

Inductive result (A : Type) : Type :=
| Ok (a : A)
| Throw (e : error).
Arguments Ok {A} a.
Arguments Throw {A} e.

Definition is_ok {A} (r : result A) : bool :=
  match r with Ok _ => true | Throw _ => false end.

(** Computations that may throw and that draw from the entropy source. *)
Definition M (A : Type) : Type := entropy -> result (A * entropy).

Definition ret {A} (a : A) : M A := fun g => Ok (a, g).
Definition throw {A} (e : error) : M A := fun _ => Throw e.
Definition bind {A B} (m : M A) (k : A -> M B) : M B :=
  fun g => match m g with
           | Ok (a, g') => k a g'
           | Throw e => Throw e
           end.
Definition lift {A} (r : result A) : M A :=
  fun g => match r with Ok a => Ok (a, g) | Throw e => Throw e end.
Definition draw (n : nat) : M bytes := fun g => Ok (randomBytes n g).

Notation "x <- m ;; k" := (bind m (fun x => k))
  (at level 61, m at next level, right associativity).

(** ** Hexadecimal ([buf.toString('hex')], [Buffer.from(s, 'hex')]) *)

Module Hex.

Definition digit (n : Z) : Z := if n <? 10 then 48 + n else 87 + n.

Definition ofByte (b : Z) : jsstring := [digit (b / 16); digit (b mod 16)].

Definition encode (bs : bytes) : jsstring := flat_map ofByte bs.

(** The digit an octet stands for. *)
Definition unhex (b : Z) : option Z :=
  if (48 <=? b) && (b <=? 57) then Some (b - 48)
  else if (97 <=? b) && (b <=? 102) then Some (b - 87)
  else if (65 <=? b) && (b <=? 70) then Some (b - 55)
  else None.

(** Node's decoder narrows each code unit to an octet before it looks the
    digit up, so of a unit above U+00FF only the low octet is read: U+0130
    counts as the digit 0. *)
Definition value (c : Z) : option Z := unhex (c mod 256).

(** [Buffer.from(s, 'hex')]: pairs of digits are decoded up to the first
    pair that is not two hexadecimal digits; a trailing single unit is
    dropped. *)
Fixpoint decode (s : jsstring) : bytes :=
  match s with
  | c1 :: c2 :: rest =>
      match value c1, value c2 with
      | Some h, Some l => (16 * h + l) :: decode rest
      | _, _ => []
      end
  | _ => []
  end.

End Hex.

(** ** UTF-8 ([cipher.update(s, 'utf8', ...)], [buf.toString()]) *)

Module Utf8.

Definition is_high (u : Z) : bool := (0xD800 <=? u) && (u <=? 0xDBFF).
Definition is_low (u : Z) : bool := (0xDC00 <=? u) && (u <=? 0xDFFF).

Definition replacement_bytes : bytes := [0xEF; 0xBF; 0xBD].

Definition encode3 (u : Z) : bytes :=
  [0xE0 + u / 4096; 0x80 + (u / 64) mod 64; 0x80 + u mod 64].

Definition encode4 (cp : Z) : bytes :=
  [0xF0 + cp / 262144; 0x80 + (cp / 4096) mod 64;
   0x80 + (cp / 64) mod 64; 0x80 + cp mod 64].

(** Encoding a string: a surrogate pair is one code point of four octets; a
    surrogate without its partner is written as U+FFFD. *)
Fixpoint encode (s : jsstring) : bytes :=
  match s with
  | [] => []
  | u :: rest =>
      if u <? 0x80 then u :: encode rest
      else if u <? 0x800 then (0xC0 + u / 64) :: (0x80 + u mod 64) :: encode rest
      else if is_high u then
        match rest with
        | v :: rest' =>
            if is_low v
            then encode4 (0x10000 + (u - 0xD800) * 1024 + (v - 0xDC00))
                   ++ encode rest'
            else replacement_bytes ++ encode rest
        | [] => replacement_bytes
        end
      else if is_low u then replacement_bytes ++ encode rest
      else encode3 u ++ encode rest
  end.

(** Decoding, as the WHATWG decoder that Node follows: an octet that cannot
    continue the sequence in progress ends it with U+FFFD and is then read
    again as the start of a new sequence. *)
Inductive state : Type :=
| Idle
| Pending (left : nat) (cp lower upper : Z).

Definition units_of_cp (cp : Z) : jsstring :=
  if cp <? 0x10000 then [cp]
  else [0xD800 + (cp - 0x10000) / 1024; 0xDC00 + (cp - 0x10000) mod 1024].

Definition lead (b : Z) : jsstring * state :=
  if b <=? 0x7F then ([b], Idle)
  else if (0xC2 <=? b) && (b <=? 0xDF)
       then ([], Pending 1 (b - 0xC0) 0x80 0xBF)
  else if (0xE0 <=? b) && (b <=? 0xEF)
       then ([], Pending 2 (b - 0xE0)
                   (if b =? 0xE0 then 0xA0 else 0x80)
                   (if b =? 0xED then 0x9F else 0xBF))
  else if (0xF0 <=? b) && (b <=? 0xF4)
       then ([], Pending 3 (b - 0xF0)
                   (if b =? 0xF0 then 0x90 else 0x80)
                   (if b =? 0xF4 then 0x8F else 0xBF))
  else ([replacement], Idle).

Definition step (st : state) (b : Z) : jsstring * state :=
  match st with
  | Idle => lead b
  | Pending n cp lo hi =>
      if (lo <=? b) && (b <=? hi) then
        let cp' := cp * 64 + (b - 0x80) in
        match n with
        | S (S n') => ([], Pending (S n') cp' 0x80 0xBF)
        | _ => (units_of_cp cp', Idle)
        end
      else let (out, st') := lead b in (replacement :: out, st')
  end.

Fixpoint decode_from (st : state) (bs : bytes) : jsstring :=
  match bs with
  | [] => match st with Idle => [] | Pending _ _ _ _ => [replacement] end
  | b :: r => let (out, st') := step st b in out ++ decode_from st' r
  end.

Definition decode (bs : bytes) : jsstring := decode_from Idle bs.

(** Well-formed strings: 16-bit units, every surrogate paired. *)
Fixpoint well_formed (s : jsstring) : bool :=
  match s with
  | [] => true
  | u :: rest =>
      (0 <=? u) && (u <? 65536) &&
      (if is_high u then
         match rest with
         | v :: rest' => is_low v && well_formed rest'
         | [] => false
         end
       else negb (is_low u) && well_formed rest)
  end.

(** One more unit is owed while a sequence is in progress. *)
Definition pending (st : state) : nat :=
  match st with Idle => 0 | Pending _ _ _ _ => 1 end.

(** What the decoder may hold between two octets: a code point in the
    making that can only end as a scalar value of its length. *)
Definition ok1 (cp : Z) : Prop :=
  2 <= cp <= 0x43FF /\ ~ (0x360 <= cp <= 0x37F).

Definition state_ok (st : state) : Prop :=
  match st with
  | Idle => True
  | Pending n cp lo hi =>
      0x80 <= lo /\ hi <= 0xBF /\
      match n with
      | 1%nat => ok1 cp
      | 2%nat => forall b, lo <= b <= hi -> ok1 (cp * 64 + (b - 0x80))
      | 3%nat => forall b, lo <= b <= hi -> forall b', 0x80 <= b' <= 0xBF ->
                 ok1 ((cp * 64 + (b - 0x80)) * 64 + (b' - 0x80))
      | _ => False
      end
  end.

(** A run of units that is well formed on its own, and holds no comma
    unless it is the octet read. *)
Definition emitted (b : Z) (out : jsstring) : Prop :=
  (forall rest, well_formed (out ++ rest) = well_formed rest) /\
  (forall u, In u out -> u = b \/ 0x80 <= u).

End Utf8.

(** ** AES-256 (FIPS 197), the block cipher behind ['aes-256-cbc']

    Octets are integers below 256; a block is sixteen octets in the order of
    the input, so octet [r + 4c] is row [r] of column [c] of the state. *)

Module AES.

Definition xtime (b : Z) : Z :=
  let d := Z.land (Z.shiftl b 1) 255 in
  if Z.testbit b 7 then Z.lxor d 0x1b else d.

(** Multiplication in GF(2^8) modulo x^8 + x^4 + x^3 + x + 1. *)
Fixpoint gmul_loop (n : nat) (a b acc : Z) : Z :=
  match n with
  | O => acc
  | S n' =>
      gmul_loop n' (xtime a) (Z.shiftr b 1)
                (if Z.odd b then Z.lxor acc a else acc)
  end.
Definition gmul (a b : Z) : Z := gmul_loop 8 a b 0.

Definition sbox_table : list Z :=
  [
    0x63; 0x7c; 0x77; 0x7b; 0xf2; 0x6b; 0x6f; 0xc5; 0x30; 0x01; 0x67; 0x2b; 0xfe; 0xd7; 0xab; 0x76;
    0xca; 0x82; 0xc9; 0x7d; 0xfa; 0x59; 0x47; 0xf0; 0xad; 0xd4; 0xa2; 0xaf; 0x9c; 0xa4; 0x72; 0xc0;
    0xb7; 0xfd; 0x93; 0x26; 0x36; 0x3f; 0xf7; 0xcc; 0x34; 0xa5; 0xe5; 0xf1; 0x71; 0xd8; 0x31; 0x15;
    0x04; 0xc7; 0x23; 0xc3; 0x18; 0x96; 0x05; 0x9a; 0x07; 0x12; 0x80; 0xe2; 0xeb; 0x27; 0xb2; 0x75;
    0x09; 0x83; 0x2c; 0x1a; 0x1b; 0x6e; 0x5a; 0xa0; 0x52; 0x3b; 0xd6; 0xb3; 0x29; 0xe3; 0x2f; 0x84;
    0x53; 0xd1; 0x00; 0xed; 0x20; 0xfc; 0xb1; 0x5b; 0x6a; 0xcb; 0xbe; 0x39; 0x4a; 0x4c; 0x58; 0xcf;
    0xd0; 0xef; 0xaa; 0xfb; 0x43; 0x4d; 0x33; 0x85; 0x45; 0xf9; 0x02; 0x7f; 0x50; 0x3c; 0x9f; 0xa8;
    0x51; 0xa3; 0x40; 0x8f; 0x92; 0x9d; 0x38; 0xf5; 0xbc; 0xb6; 0xda; 0x21; 0x10; 0xff; 0xf3; 0xd2;
    0xcd; 0x0c; 0x13; 0xec; 0x5f; 0x97; 0x44; 0x17; 0xc4; 0xa7; 0x7e; 0x3d; 0x64; 0x5d; 0x19; 0x73;
    0x60; 0x81; 0x4f; 0xdc; 0x22; 0x2a; 0x90; 0x88; 0x46; 0xee; 0xb8; 0x14; 0xde; 0x5e; 0x0b; 0xdb;
    0xe0; 0x32; 0x3a; 0x0a; 0x49; 0x06; 0x24; 0x5c; 0xc2; 0xd3; 0xac; 0x62; 0x91; 0x95; 0xe4; 0x79;
    0xe7; 0xc8; 0x37; 0x6d; 0x8d; 0xd5; 0x4e; 0xa9; 0x6c; 0x56; 0xf4; 0xea; 0x65; 0x7a; 0xae; 0x08;
    0xba; 0x78; 0x25; 0x2e; 0x1c; 0xa6; 0xb4; 0xc6; 0xe8; 0xdd; 0x74; 0x1f; 0x4b; 0xbd; 0x8b; 0x8a;
    0x70; 0x3e; 0xb5; 0x66; 0x48; 0x03; 0xf6; 0x0e; 0x61; 0x35; 0x57; 0xb9; 0x86; 0xc1; 0x1d; 0x9e;
    0xe1; 0xf8; 0x98; 0x11; 0x69; 0xd9; 0x8e; 0x94; 0x9b; 0x1e; 0x87; 0xe9; 0xce; 0x55; 0x28; 0xdf;
    0x8c; 0xa1; 0x89; 0x0d; 0xbf; 0xe6; 0x42; 0x68; 0x41; 0x99; 0x2d; 0x0f; 0xb0; 0x54; 0xbb; 0x16
  ].

Definition inv_sbox_table : list Z :=
  [
    0x52; 0x09; 0x6a; 0xd5; 0x30; 0x36; 0xa5; 0x38; 0xbf; 0x40; 0xa3; 0x9e; 0x81; 0xf3; 0xd7; 0xfb;
    0x7c; 0xe3; 0x39; 0x82; 0x9b; 0x2f; 0xff; 0x87; 0x34; 0x8e; 0x43; 0x44; 0xc4; 0xde; 0xe9; 0xcb;
    0x54; 0x7b; 0x94; 0x32; 0xa6; 0xc2; 0x23; 0x3d; 0xee; 0x4c; 0x95; 0x0b; 0x42; 0xfa; 0xc3; 0x4e;
    0x08; 0x2e; 0xa1; 0x66; 0x28; 0xd9; 0x24; 0xb2; 0x76; 0x5b; 0xa2; 0x49; 0x6d; 0x8b; 0xd1; 0x25;
    0x72; 0xf8; 0xf6; 0x64; 0x86; 0x68; 0x98; 0x16; 0xd4; 0xa4; 0x5c; 0xcc; 0x5d; 0x65; 0xb6; 0x92;
    0x6c; 0x70; 0x48; 0x50; 0xfd; 0xed; 0xb9; 0xda; 0x5e; 0x15; 0x46; 0x57; 0xa7; 0x8d; 0x9d; 0x84;
    0x90; 0xd8; 0xab; 0x00; 0x8c; 0xbc; 0xd3; 0x0a; 0xf7; 0xe4; 0x58; 0x05; 0xb8; 0xb3; 0x45; 0x06;
    0xd0; 0x2c; 0x1e; 0x8f; 0xca; 0x3f; 0x0f; 0x02; 0xc1; 0xaf; 0xbd; 0x03; 0x01; 0x13; 0x8a; 0x6b;
    0x3a; 0x91; 0x11; 0x41; 0x4f; 0x67; 0xdc; 0xea; 0x97; 0xf2; 0xcf; 0xce; 0xf0; 0xb4; 0xe6; 0x73;
    0x96; 0xac; 0x74; 0x22; 0xe7; 0xad; 0x35; 0x85; 0xe2; 0xf9; 0x37; 0xe8; 0x1c; 0x75; 0xdf; 0x6e;
    0x47; 0xf1; 0x1a; 0x71; 0x1d; 0x29; 0xc5; 0x89; 0x6f; 0xb7; 0x62; 0x0e; 0xaa; 0x18; 0xbe; 0x1b;
    0xfc; 0x56; 0x3e; 0x4b; 0xc6; 0xd2; 0x79; 0x20; 0x9a; 0xdb; 0xc0; 0xfe; 0x78; 0xcd; 0x5a; 0xf4;
    0x1f; 0xdd; 0xa8; 0x33; 0x88; 0x07; 0xc7; 0x31; 0xb1; 0x12; 0x10; 0x59; 0x27; 0x80; 0xec; 0x5f;
    0x60; 0x51; 0x7f; 0xa9; 0x19; 0xb5; 0x4a; 0x0d; 0x2d; 0xe5; 0x7a; 0x9f; 0x93; 0xc9; 0x9c; 0xef;
    0xa0; 0xe0; 0x3b; 0x4d; 0xae; 0x2a; 0xf5; 0xb0; 0xc8; 0xeb; 0xbb; 0x3c; 0x83; 0x53; 0x99; 0x61;
    0x17; 0x2b; 0x04; 0x7e; 0xba; 0x77; 0xd6; 0x26; 0xe1; 0x69; 0x14; 0x63; 0x55; 0x21; 0x0c; 0x7d
  ].

Definition sbox (b : Z) : Z := nth (Z.to_nat b) sbox_table 0.
Definition inv_sbox (b : Z) : Z := nth (Z.to_nat b) inv_sbox_table 0.

Fixpoint xor_bytes (a b : bytes) : bytes :=
  match a, b with
  | x :: a', y :: b' => Z.lxor x y :: xor_bytes a' b'
  | _, _ => []
  end.

Definition add_round_key (st rk : bytes) : bytes := xor_bytes st rk.

Definition sub_bytes (st : bytes) : bytes := map sbox st.
Definition inv_sub_bytes (st : bytes) : bytes := map inv_sbox st.

Definition pick (st : bytes) (idx : list nat) : bytes :=
  map (fun i => nth i st 0) idx.

Definition shift_rows (st : bytes) : bytes :=
  pick st [0; 5; 10; 15; 4; 9; 14; 3; 8; 13; 2; 7; 12; 1; 6; 11]%nat.
Definition inv_shift_rows (st : bytes) : bytes :=
  pick st [0; 13; 10; 7; 4; 1; 14; 11; 8; 5; 2; 15; 12; 9; 6; 3]%nat.

Definition mix_column (a b c d : Z) : bytes :=
  [Z.lxor (Z.lxor (gmul a 2) (gmul b 3)) (Z.lxor c d);
   Z.lxor (Z.lxor a (gmul b 2)) (Z.lxor (gmul c 3) d);
   Z.lxor (Z.lxor a b) (Z.lxor (gmul c 2) (gmul d 3));
   Z.lxor (Z.lxor (gmul a 3) b) (Z.lxor c (gmul d 2))].

Definition inv_mix_column (a b c d : Z) : bytes :=
  [Z.lxor (Z.lxor (gmul a 14) (gmul b 11)) (Z.lxor (gmul c 13) (gmul d 9));
   Z.lxor (Z.lxor (gmul a 9) (gmul b 14)) (Z.lxor (gmul c 11) (gmul d 13));
   Z.lxor (Z.lxor (gmul a 13) (gmul b 9)) (Z.lxor (gmul c 14) (gmul d 11));
   Z.lxor (Z.lxor (gmul a 11) (gmul b 13)) (Z.lxor (gmul c 9) (gmul d 14))].

Fixpoint mix_columns (st : bytes) : bytes :=
  match st with
  | a :: b :: c :: d :: rest => mix_column a b c d ++ mix_columns rest
  | _ => []
  end.

Fixpoint inv_mix_columns (st : bytes) : bytes :=
  match st with
  | a :: b :: c :: d :: rest => inv_mix_column a b c d ++ inv_mix_columns rest
  | _ => []
  end.

(** Key expansion for Nk = 8: sixty words of four octets.  The words made so
    far are kept most recent first. *)
Definition rot_word (w : bytes) : bytes :=
  match w with
  | a :: r => r ++ [a]
  | [] => []
  end.
Definition sub_word (w : bytes) : bytes := map sbox w.
Definition rcon (i : nat) : bytes :=
  [nth i [0; 1; 2; 4; 8; 16; 32; 64] 0; 0; 0; 0].

Fixpoint words (n : nat) (bs : bytes) : list bytes :=
  match n with
  | O => []
  | S n' => firstn 4 bs :: words n' (skipn 4 bs)
  end.

Fixpoint expand (fuel i : nat) (ws : list bytes) : list bytes :=
  match fuel with
  | O => ws
  | S fuel' =>
      let prev := nth 0 ws [] in
      let temp :=
        if (i mod 8 =? 0)%nat
        then xor_bytes (sub_word (rot_word prev)) (rcon (i / 8))
        else if (i mod 8 =? 4)%nat then sub_word prev
        else prev in
      expand fuel' (S i) (xor_bytes (nth 7 ws []) temp :: ws)
  end.

Definition key_expansion (key : bytes) : list bytes :=
  rev (expand 52 8 (rev (words 8 key))).

Fixpoint group_keys (n : nat) (ws : list bytes) : list bytes :=
  match n with
  | O => []
  | S n' => concat (firstn 4 ws) :: group_keys n' (skipn 4 ws)
  end.

(** The fifteen round keys of a 32-octet key. *)
Definition round_keys (key : bytes) : list bytes :=
  group_keys 15 (key_expansion key).

(** Rounds 1..Nr, driven by the round keys that remain. *)
Fixpoint rounds (rks : list bytes) (st : bytes) : bytes :=
  match rks with
  | [] => st
  | [k] => add_round_key (shift_rows (sub_bytes st)) k
  | k :: more =>
      rounds more (add_round_key (mix_columns (shift_rows (sub_bytes st))) k)
  end.

Definition cipher (rks : list bytes) (block : bytes) : bytes :=
  match rks with
  | [] => block
  | k0 :: more => rounds more (add_round_key block k0)
  end.

(** The inverse cipher undoes the rounds from the last to the first. *)
Fixpoint inv_rounds (rks : list bytes) (st : bytes) : bytes :=
  match rks with
  | [] => st
  | [k] => inv_sub_bytes (inv_shift_rows (add_round_key st k))
  | k :: more =>
      inv_sub_bytes
        (inv_shift_rows
           (inv_mix_columns (add_round_key (inv_rounds more st) k)))
  end.

Definition inv_cipher (rks : list bytes) (block : bytes) : bytes :=
  match rks with
  | [] => block
  | k0 :: more => add_round_key (inv_rounds more block) k0
  end.

Definition encrypt_block (key block : bytes) : bytes :=
  cipher (round_keys key) block.
Definition decrypt_block (key block : bytes) : bytes :=
  inv_cipher (round_keys key) block.

(** The shapes the cipher works on. *)
Definition block (st : bytes) : Prop :=
  length st = 16%nat /\ Forall is_byte st.

Definition word (w : bytes) : Prop := length w = 4%nat /\ Forall is_byte w.

Definition valid_key (key : bytes) : Prop :=
  length key = 32%nat /\ Forall is_byte key.

(** The sum of four field elements. *)
Definition q (w x y z : Z) : Z := Z.lxor (Z.lxor w x) (Z.lxor y z).

End AES.

(** ** The ['aes-256-cbc'] cipher objects of Node

    PKCS#7 padding, cipher-block chaining, and the two checks that
    [decipher.final] performs. *)

Module Cbc.

Definition pad (bs : bytes) : bytes :=
  let n := (16 - length bs mod 16)%nat in bs ++ repeat (Z.of_nat n) n.

Definition unpad (bs : bytes) : option bytes :=
  let n := last bs 0 in
  let keep := (length bs - Z.to_nat n)%nat in
  if (1 <=? n) && (n <=? 16) && forallb (Z.eqb n) (skipn keep bs)
  then Some (firstn keep bs)
  else None.

Fixpoint blocks (n : nat) (bs : bytes) : list bytes :=
  match n with
  | O => []
  | S n' => firstn 16 bs :: blocks n' (skipn 16 bs)
  end.

Definition chunks (bs : bytes) : list bytes := blocks (length bs / 16) bs.

Fixpoint encrypt (E : bytes -> bytes) (prev : bytes) (ps : list bytes)
  : list bytes :=
  match ps with
  | [] => []
  | p :: r => let c := E (AES.xor_bytes p prev) in c :: encrypt E c r
  end.

Fixpoint decrypt (D : bytes -> bytes) (prev : bytes) (cs : list bytes)
  : list bytes :=
  match cs with
  | [] => []
  | c :: r => AES.xor_bytes (D c) prev :: decrypt D c r
  end.

(** [cipher.update(data) + cipher.final()] on octets. *)
Definition seal (key iv data : bytes) : bytes :=
  concat (encrypt (AES.encrypt_block key) iv (chunks (pad data))).

(** [decipher.update(data) + decipher.final()] on octets. *)
Definition open (key iv data : bytes) : result bytes :=
  if (length data =? 0)%nat || negb (length data mod 16 =? 0)%nat
  then Throw WrongFinalBlockLength
  else match unpad (concat (decrypt (AES.decrypt_block key) iv (chunks data))) with
       | Some bs => Ok bs
       | None => Throw BadDecrypt
       end.

End Cbc.

(** ** [src/utils/encryption.js] *)

(** [encryptPrivateKey(privateKey, encryptionKey)]. *)
Definition encryptPrivateKey (privateKey encryptionKey : jsstring) : M jsstring :=
  iv <- draw 16 ;;
  let key := Hex.decode encryptionKey in
  if negb (length key =? 32)%nat then throw InvalidKeyLength
  else
    let encrypted := Hex.encode (Cbc.seal key iv (Utf8.encode privateKey)) in
    ret (Hex.encode iv ++ colon :: encrypted).

(** [decryptPrivateKey(encryptedData, encryptionKey)]. *)
Definition decryptPrivateKey (encryptedData encryptionKey : jsstring)
  : result jsstring :=
  let parts := split colon encryptedData in
  let iv := Hex.decode (nth 0 parts []) in
  let key := Hex.decode encryptionKey in
  if negb (length iv =? 16)%nat then Throw InvalidIV
  else if negb (length key =? 32)%nat then Throw InvalidKeyLength
  else match nth_error parts 1 with
       | None => Throw InvalidArgType
       | Some encrypted =>
           if Nat.odd (length encrypted) then Throw InvalidArgValue
           else match Cbc.open key iv (Hex.decode encrypted) with
                | Ok bs => Ok (Utf8.decode bs)
                | Throw e => Throw e
                end
       end.

(** The key a hex string stands for is usable when it has 32 octets. *)
Definition key_ok (encryptionKey : jsstring) : Prop :=
  length (Hex.decode encryptionKey) = 32%nat.

(** The blob [encryptPrivateKey] makes from the IV it drew. *)
Definition blob_of (iv ct : bytes) : jsstring :=
  Hex.encode iv ++ colon :: Hex.encode ct.


(** ** JavaScript helpers of the schema and the handlers *)

(** A property read that may give [undefined], compared with a string:
    [o === s]. *)
Definition equals (o : option jsstring) (s : jsstring) : bool :=
  match o with Some x => str_eqb x s | None => false end.

(** The white space and the line terminators that [String.prototype.trim]
    removes. *)
Definition is_space (u : Z) : bool :=
  ((9 <=? u) && (u <=? 13)) || (u =? 32) || (u =? 0xA0) || (u =? 0x1680)
  || ((0x2000 <=? u) && (u <=? 0x200A)) || (u =? 0x2028) || (u =? 0x2029)
  || (u =? 0x202F) || (u =? 0x205F) || (u =? 0x3000) || (u =? 0xFEFF).

Fixpoint trimStart (s : jsstring) : jsstring :=
  match s with
  | u :: r => if is_space u then trimStart r else s
  | [] => []
  end.

Definition trim (s : jsstring) : jsstring := rev (trimStart (rev (trimStart s))).

(** [a || b] on strings. *)
Definition or_else (a b : jsstring) : jsstring := if truthy a then a else b.

Definition ethereum : jsstring := lit "ethereum".
Definition solana : jsstring := lit "solana".

(** The decimal numeral of a template literal. *)
Definition show_nat (n : nat) : jsstring :=
  lit (NilEmpty.string_of_uint (Nat.to_uint n)).

(** [array.findIndex(p)], with [None] for -1. *)
Fixpoint findIndex {A} (p : A -> bool) (l : list A) : option nat :=
  match l with
  | [] => None
  | x :: r => if p x then Some O else option_map S (findIndex p r)
  end.

(** [array[i] = f(array[i])] for an index within the array. *)
Fixpoint update_nth {A} (i : nat) (f : A -> A) (l : list A) : list A :=
  match l, i with
  | [], _ => []
  | x :: r, O => f x :: r
  | x :: r, S j => x :: update_nth j f r
  end.

(** [array.splice(i, 1)] *)
Definition splice1 {A} (i : nat) (l : list A) : list A :=
  firstn i l ++ skipn (S i) l.

(** ** The documents: [src/models/User.js]

    [userController.js], the transfer controller and the address-book
    controller all [require("../models/User")], and this is the schema that
    module declares.  A path of type String that carries no default is
    [undefined] until it is set: an [option].  The schema is strict, so a
    document has the paths below and no others: there is no [salt] and no
    [recoveryPhrase], [wallets] is not an array but a nested path with one
    array per chain, and an address-book entry has a [name] and a [network]
    where the controllers write a [label] and a [blockchain]. *)

Module Wallet.
Record t : Type := {
  _id : jsstring;
  address : option jsstring;               (* required, unique *)
  encryptedPrivateKey : option jsstring;   (* required *)
  name : jsstring;                         (* default 'My Wallet' *)
  createdAt : Z
}.
End Wallet.

Module Wallets.
Record t : Type := {
  ethereum : list Wallet.t;
  solana : list Wallet.t
}.
End Wallets.

Module Entry.
Record t : Type := {
  _id : jsstring;
  name : option jsstring;      (* required *)
  address : option jsstring;   (* required *)
  network : option jsstring;   (* required, 'ethereum' or 'solana' *)
  notes : option jsstring;
  createdAt : Z
}.
(** [entry.blockchain] and [entry.label]: no such paths, the reads give
    [undefined]. *)
Definition blockchain (e : t) : option jsstring := None.
Definition label (e : t) : option jsstring := None.
Definition with_notes (n : option jsstring) (e : t) : t :=
  {| _id := _id e; name := name e; address := address e;
     network := network e; notes := n; createdAt := createdAt e |}.
End Entry.

Module Preferences.
Record t : Type := {
  currency : jsstring;
  theme : jsstring;
  transactions : bool;
  priceAlerts : bool
}.
Definition defaults : t :=
  {| currency := lit "USD"; theme := lit "system";
     transactions := true; priceAlerts := false |}.
End Preferences.

Module User.
Record t : Type := {
  _id : Z;
  email : option jsstring;      (* required, unique, lowercase, trim *)
  password : option jsstring;   (* required, minlength 8 *)
  username : option jsstring;   (* required, unique, trim *)
  wallets : Wallets.t;
  addressBook : list Entry.t;
  preferences : Preferences.t;
  createdAt : Z;
  lastLogin : option Z
}.
(** [user.salt] and [user.recoveryPhrase]: no such paths, the reads give
    [undefined]. *)
Definition salt (u : t) : option jsstring := None.
Definition recoveryPhrase (u : t) : option jsstring := None.
Definition with_password (p : option jsstring) (u : t) : t :=
  {| _id := _id u; email := email u; password := p; username := username u;
     wallets := wallets u; addressBook := addressBook u;
     preferences := preferences u; createdAt := createdAt u;
     lastLogin := lastLogin u |}.
Definition with_addressBook (es : list Entry.t) (u : t) : t :=
  {| _id := _id u; email := email u; password := password u;
     username := username u; wallets := wallets u; addressBook := es;
     preferences := preferences u; createdAt := createdAt u;
     lastLogin := lastLogin u |}.
Definition with_lastLogin (t0 : option Z) (u : t) : t :=
  {| _id := _id u; email := email u; password := password u;
     username := username u; wallets := wallets u;
     addressBook := addressBook u; preferences := preferences u;
     createdAt := createdAt u; lastLogin := t0 |}.
End User.

(** *** Validation: what [doc.save()] checks before it writes *)

(** [required: true] on a String path: set, and not the empty string. *)
Definition required (o : option jsstring) : bool :=
  match o with Some s => truthy s | None => false end.

(** [enum: [...]] *)
Definition among (s : jsstring) (values : list jsstring) : bool :=
  existsb (str_eqb s) values.

Definition walletValid (w : Wallet.t) : bool :=
  required (Wallet.address w) && required (Wallet.encryptedPrivateKey w).

Definition entryValid (e : Entry.t) : bool :=
  required (Entry.name e) && required (Entry.address e)
  && match Entry.network e with
     | Some n => truthy n && among n [ethereum; solana]
     | None => false
     end.

Definition preferencesValid (p : Preferences.t) : bool :=
  among (Preferences.currency p)
        [lit "USD"; lit "EUR"; lit "GBP"; lit "JPY"; lit "CNY"]
  && among (Preferences.theme p) [lit "light"; lit "dark"; lit "system"].

Definition valid (u : User.t) : bool :=
  required (User.email u)
  && match User.password u with
     | Some p => truthy p && (8 <=? length p)%nat
     | None => false
     end
  && required (User.username u)
  && forallb walletValid (Wallets.ethereum (User.wallets u))
  && forallb walletValid (Wallets.solana (User.wallets u))
  && forallb entryValid (User.addressBook u)
  && preferencesValid (User.preferences u).

Definition validate (u : User.t) : result User.t :=
  if valid u then Ok u else Throw ValidationFailed.

(** *** The collection *)

(** The documents in insertion order. *)
Definition db := list User.t.

Definition findById (id : Z) (d : db) : option User.t :=
  find (fun u => User._id u =? id) d.

(** [User.findOne({ username })]: the setter of the path ([trim]) is applied
    to the value asked for, as it is to the value stored. *)
Definition findOne (username : jsstring) (d : db) : option User.t :=
  find (fun u => equals (User.username u) (trim username)) d.

Definition fresh_id (d : db) : Z :=
  1 + fold_right (fun u m => Z.max (User._id u) m) 0 d.

(** The write itself: the stored document with this [_id] is replaced; a
    new document is inserted. *)
Definition store (u : User.t) (d : db) : db :=
  if existsb (fun v => User._id v =? User._id u) d
  then map (fun v => if User._id v =? User._id u then u else v) d
  else d ++ [u].

(** ** Collaborators

    Library functions the handlers call whose results the model does not
    compute: each is a function of its arguments (and of the entropy it is
    handed), nothing more is assumed unless a theorem says so. *)

Record Collaborators : Type := {
  (** [crypto.pbkdf2(password, salt, 100000, 32, 'sha512')] *)
  pbkdf2 : jsstring -> jsstring -> bytes;
  (** [bcrypt.hash(password, 10)] and the [genSalt(10)] and [hash] of the
      schema's hook, with the 16 octets of the salt *)
  bcrypt_hash : jsstring -> bytes -> jsstring;
  (** [bcrypt.compare(password, hash)] *)
  bcrypt_compare : jsstring -> jsstring -> bool;
  (** [jwt.sign({ id, username }, secret, { expiresIn: "8h" })] *)
  jwt_sign : Z -> option jsstring -> jsstring;
  (** [jwt.sign({ userId }, JWT_SECRET, { expiresIn: '7d' })], which puts
      the time of the call in the token *)
  jwt_sign_userId : Z -> Z -> jsstring;
  (** [ethers.Wallet.createRandom().mnemonic.phrase], from its 16 octets *)
  mnemonic_of : bytes -> jsstring;
  (** [ethers.Wallet.fromPhrase(m).address] and [.privateKey] *)
  eth_address : jsstring -> jsstring;
  eth_privateKey : jsstring -> jsstring;
  (** [signer.signMessage(message)] of [new ethers.Wallet(privateKey)] *)
  eth_sign : jsstring -> jsstring -> result jsstring;
  (** the Ed25519 public key of a 32-octet seed *)
  ed25519_public : bytes -> bytes;
  (** [publicKey.toString()]: base 58 *)
  base58 : bytes -> jsstring;
  (** [ethers.isAddress(address)] *)
  isAddress : jsstring -> bool;
  (** [new PublicKey(address)] does not throw *)
  isPublicKey : jsstring -> bool;
  (** the element [Uint8Array.from] stores for [Number(s)] *)
  numberToUint8 : jsstring -> Z;
  (** [String.prototype.toLowerCase], the setter of [email] *)
  lowercase : jsstring -> jsstring;
  (** MongoDB's answer to an insert: do the unique indexes the schema
      declares (on [email], on [username], on the addresses of the wallets)
      accept the document next to the ones stored? *)
  index_accepts : db -> User.t -> bool
}.

(** What the theorems may assume of them. *)
Definition kdf_yields_key (C : Collaborators) : Prop :=
  forall password salt,
    length (pbkdf2 C password salt) = 32%nat /\
    Forall is_byte (pbkdf2 C password salt).

Definition public_key_is_32 (C : Collaborators) : Prop :=
  forall seed,
    length (ed25519_public C seed) = 32%nat /\
    Forall is_byte (ed25519_public C seed).

Definition number_of_empty_is_zero (C : Collaborators) : Prop :=
  numberToUint8 C [] = 0.

Definition base58_injective (C : Collaborators) : Prop :=
  forall a b, Forall is_byte a -> Forall is_byte b ->
              base58 C a = base58 C b -> a = b.

(** A bcrypt hash has sixty characters, whatever was hashed. *)
Definition hash_is_long (C : Collaborators) : Prop :=
  forall password saltBytes,
    (8 <= length (bcrypt_hash C password saltBytes))%nat.

(** [User.findOne({ email })]: the setters of the path ([lowercase],
    [trim]) are applied to the value asked for. *)
Definition findOneByEmail (C : Collaborators) (email : jsstring) (d : db)
  : option User.t :=
  find (fun u => equals (User.email u) (lowercase C (trim email))) d.

(** ** Responses *)

Record BatchEntry : Type := {
  be_label : jsstring;
  be_address : jsstring;
  be_blockchain : jsstring;
  be_notes : jsstring
}.

Inductive payload : Type :=
| NoData
| ErrorData (e : error)
| RegisterData (mnemonic ethereum solana : jsstring)
| LoginData (token : jsstring) (username ethereum solana : option jsstring)
            (walletCount : option nat) (addressBookCount : nat)
| WalletData (blockchain address label : jsstring)
| EntryData (label address blockchain notes : jsstring)
| EntryDoc (entry : Entry.t)
| BatchData (added failed : nat) (invalidEntries : list (BatchEntry * jsstring))
| SignatureData (signature originalMessage : jsstring)
| RecoveryData (recoveryPhrase : jsstring)
| AccountData (token : jsstring) (id : Z) (username email : option jsstring).

Record response : Type := {
  status : Z;
  message : jsstring;
  data : payload
}.

(** What a request did: its reply, and the documents it saved, in order. *)
Record outcome : Type := {
  reply : response;
  saves : list User.t
}.

Definition respond (st : Z) (msg : jsstring) (p : payload) : outcome :=
  {| reply := {| status := st; message := msg; data := p |}; saves := [] |}.

Definition respond_saving (u : User.t) (st : Z) (msg : jsstring) (p : payload)
  : outcome :=
  {| reply := {| status := st; message := msg; data := p |}; saves := [u] |}.

(** The [try { ... } catch (error) { res.status(500)... }] of every handler,
    for a body that draws from the entropy source and for one that does
    not. *)
Definition handle (msg : jsstring) (body : M outcome) (g : entropy) : outcome :=
  match body g with
  | Ok (o, _) => o
  | Throw e => respond 500 msg (ErrorData e)
  end.

Definition attempt (msg : jsstring) (body : result outcome) : outcome :=
  match body with
  | Ok o => o
  | Throw e => respond 500 msg (ErrorData e)
  end.

Definition bindR {A B} (r : result A) (k : A -> result B) : result B :=
  match r with
  | Ok a => k a
  | Throw e => Throw e
  end.

Notation "x <~ r ;; k" := (bindR r (fun x => k))
  (at level 61, r at next level, right associativity).

Definition commit (d : db) (o : outcome) : db :=
  fold_left (fun acc u => store u acc) (saves o) d.

(** ** The objects the controllers build and expect

    The object literals of [userController.js] and of the address-book
    controller, and the wallet the handlers expect to find in
    [user.wallets]. *)

Module WalletObject.
Record t : Type := {
  blockchain : jsstring;
  address : jsstring;
  privateKey : jsstring;
  isDefault : bool;
  label : jsstring;
  createdAt : option Z
}.
Definition with_isDefault (b : bool) (w : t) : t :=
  {| blockchain := blockchain w; address := address w;
     privateKey := privateKey w; isDefault := b; label := label w;
     createdAt := createdAt w |}.
Definition with_privateKey (k : jsstring) (w : t) : t :=
  {| blockchain := blockchain w; address := address w;
     privateKey := k; isDefault := isDefault w; label := label w;
     createdAt := createdAt w |}.
End WalletObject.

Module EntryObject.
Record t : Type := {
  label : jsstring;
  address : jsstring;
  blockchain : jsstring;
  notes : jsstring;
  createdAt : Z
}.
End EntryObject.

(** The argument of [new User] in [registerUser]; its [addressBook] is the
    empty array. *)
Module UserObject.
Record t : Type := {
  username : jsstring;
  password : jsstring;
  salt : jsstring;
  recoveryPhrase : jsstring;
  wallets : list WalletObject.t
}.
End UserObject.

(** [new User(o)] for the object [registerUser] builds.  Of its properties
    the schema knows [username], [password] and [addressBook]; [salt] and
    [recoveryPhrase] are no paths and are dropped; the array given for
    [wallets] is not an object with an [ethereum] and a [solana], nothing of
    it is taken, and both wallet arrays stay empty.  There is no [email]. *)
Definition User_new (o : UserObject.t) (id now : Z) : User.t :=
  {| User._id := id;
     User.email := None;
     User.password := Some (UserObject.password o);
     User.username := Some (trim (UserObject.username o));
     User.wallets := {| Wallets.ethereum := []; Wallets.solana := [] |};
     User.addressBook := [];
     User.preferences := Preferences.defaults;
     User.createdAt := now;
     User.lastLogin := None |}.

(** [user.addressBook.push(o)]: the object is cast to the entry schema,
    which keeps [address], [notes] and [createdAt], drops [label] and
    [blockchain], and finds no [name] and no [network]. *)
Definition castEntry (oid : jsstring) (o : EntryObject.t) : Entry.t :=
  {| Entry._id := oid;
     Entry.name := None;
     Entry.address := Some (EntryObject.address o);
     Entry.network := None;
     Entry.notes := Some (EntryObject.notes o);
     Entry.createdAt := EntryObject.createdAt o |}.

(** [user.wallets] is the nested path of the schema, an object with the
    properties [ethereum] and [solana].  It has no [find], [findIndex],
    [filter], [forEach], [map] or [push]: a call of one of them is a call of
    [undefined] and throws a TypeError; an index of it reads as
    [undefined]. *)
Definition wallets_find (user : User.t) (p : WalletObject.t -> bool)
  : result (option WalletObject.t) := Throw NotAFunction.
Definition wallets_findIndex (user : User.t) (p : WalletObject.t -> bool)
  : result (option nat) := Throw NotAFunction.
Definition wallets_filter (user : User.t) (p : WalletObject.t -> bool)
  : result (list WalletObject.t) := Throw NotAFunction.
Definition wallets_forEach (user : User.t) (f : WalletObject.t -> WalletObject.t)
  : result unit := Throw NotAFunction.
Definition wallets_map {A} (user : User.t) (f : WalletObject.t -> M A)
  : M (list A) := throw NotAFunction.
Definition wallets_push (user : User.t) (w : WalletObject.t)
  : result unit := Throw NotAFunction.
Definition wallets_at (user : User.t) (i : nat)
  : result WalletObject.t := Throw UndefinedRead.

(** [user.wallets.find(w => w.blockchain === chain && w.isDefault)] *)
Definition isDefaultOn (chain : jsstring) (w : WalletObject.t) : bool :=
  str_eqb (WalletObject.blockchain w) chain && WalletObject.isDefault w.

(** [w?.address || null] *)
Definition address_or_null (w : option WalletObject.t) : option jsstring :=
  match w with
  | Some w => if truthy (WalletObject.address w)
              then Some (WalletObject.address w) else None
  | None => None
  end.

(** [w => w.address === a && w.blockchain === chain] *)
Definition matches (a chain : jsstring) (w : WalletObject.t) : bool :=
  str_eqb (WalletObject.address w) a && str_eqb (WalletObject.blockchain w) chain.

(** The body of the [forEach] of [setDefaultWallet]. *)
Definition clearDefault (blockchain : jsstring) (w : WalletObject.t)
  : WalletObject.t :=
  if str_eqb (WalletObject.blockchain w) blockchain
  then WalletObject.with_isDefault false w else w.

(** ** The handlers *)

Record Keypair : Type := {
  publicKey : bytes;
  secretKey : bytes
}.

Inductive transfer : Type :=
| Replied (o : outcome)
| Broadcasts (from : Keypair).   (* goes on to the RPC node *)

(** [transferERC20Token], up to the decryption of the key: what follows is
    the provider, [new ethers.Wallet(privateKey, provider)] and the network. *)
Inductive tokenTransfer : Type :=
| TokenReplied (o : outcome)
| Signs (privateKey : jsstring).   (* goes on with this key *)

Section Handlers.

Variable C : Collaborators.

(** The key [crypto.pbkdf2] derives, as hex. *)
Definition derivedKey (password salt : jsstring) : jsstring :=
  Hex.encode (pbkdf2 C password salt).

(** [generateEncryptionKey(password, salt)]: [crypto.pbkdf2] throws when the
    salt is [undefined], and the promise is rejected. *)
Definition generateEncryptionKey (password : jsstring) (salt : option jsstring)
  : result jsstring :=
  match salt with
  | Some s => Ok (derivedKey password s)
  | None => Throw InvalidArgType
  end.

(** [bcrypt.compare(password, user.password)] *)
Definition compareStored (password : jsstring) (hash : option jsstring)
  : result bool :=
  match hash with
  | Some h => Ok (bcrypt_compare C password h)
  | None => Throw IllegalArguments
  end.

(** [decryptPrivateKey(blob, key)] for a blob read from a document. *)
Definition decryptStored (blob : option jsstring) (encryptionKey : jsstring)
  : result jsstring :=
  match blob with
  | Some b => decryptPrivateKey b encryptionKey
  | None => Throw UndefinedRead
  end.

(** [doc.save()] of a document made by [new User]: validation, then the
    hook of the schema, which replaces the password that was set by its
    bcrypt hash, then the insert. *)
Definition save_new (d : db) (u : User.t) : M User.t :=
  v <- lift (validate u) ;;
  bsalt <- draw 16 ;;
  let hashed :=
    User.with_password
      (option_map (fun p => bcrypt_hash C p bsalt) (User.password v)) v in
  if index_accepts C d hashed then ret hashed else throw DuplicateKey.

(** [doc.save()] of a document that was found and whose [password] was not
    assigned: validation, and no hashing. *)
Definition save_found (u : User.t) : result User.t := validate u.

(** [doc.save()] of a document that was found and whose [password] was
    assigned: the hook hashes what was assigned. *)
Definition save_rehashed (u : User.t) : M User.t :=
  v <- lift (validate u) ;;
  bsalt <- draw 16 ;;
  ret (User.with_password
         (option_map (fun p => bcrypt_hash C p bsalt) (User.password v)) v).

(** [Keypair.generate()] *)
Definition Keypair_generate : M Keypair :=
  seed <- draw 32 ;;
  let pub := ed25519_public C seed in
  ret {| publicKey := pub; secretKey := seed ++ pub |}.

(** [Keypair.fromSecretKey(bytes)] *)
Definition Keypair_fromSecretKey (sk : bytes) : result Keypair :=
  if negb (length sk =? 64)%nat then Throw BadSecretKeySize
  else if negb (str_eqb (ed25519_public C (firstn 32 sk)) (skipn 32 sk))
  then Throw InvalidSecretKey
  else Ok {| publicKey := skipn 32 sk; secretKey := sk |}.

(** [Buffer.from(wallet.secretKey).toString()]: what the code encrypts for
    a Solana wallet. *)
Definition solanaPlaintext (sk : bytes) : jsstring := Utf8.decode sk.

(** [Uint8Array.from(privateKey.split(",").map(Number))]: what the code
    reads back. *)
Definition secretKeyOfString (s : jsstring) : bytes :=
  map (numberToUint8 C) (split comma s).

(** The key pair [transferSOL], [transferSPLToken] and [signMessage] rebuild
    from the decrypted string. *)
Definition rebuildKeypair (privateKeyString : jsstring) : result Keypair :=
  Keypair_fromSecretKey (secretKeyOfString privateKeyString).

(** [ethers.Wallet.createRandom()]: phrase, address, private key. *)
Definition createRandom : M (jsstring * jsstring * jsstring) :=
  e <- draw 16 ;;
  let m := mnemonic_of C e in
  ret (m, eth_address C m, eth_privateKey C m).

(** *** [userController.js] *)

(** Lines 75 to 118 of [registerUser]: the salt, the hash, the key, the
    phrase, the two wallets, and the object handed to [new User]; with it
    the phrase and the two addresses of the reply. *)
Definition registration (username password : jsstring)
  : M (UserObject.t * (jsstring * jsstring * jsstring)) :=
  saltBytes <- draw 16 ;;
  let salt := Hex.encode saltBytes in
  bsalt <- draw 16 ;;
  let hashedPassword := bcrypt_hash C password bsalt in
  encryptionKey <- lift (generateEncryptionKey password (Some salt)) ;;
  r <- createRandom ;;
  let mnemonic := fst (fst r) in
  let ethAddress := eth_address C mnemonic in
  encryptedEthPrivateKey <-
    encryptPrivateKey (eth_privateKey C mnemonic) encryptionKey ;;
  solWallet <- Keypair_generate ;;
  encryptedSolPrivateKey <-
    encryptPrivateKey (solanaPlaintext (secretKey solWallet)) encryptionKey ;;
  let solAddress := base58 C (publicKey solWallet) in
  phrase <- encryptPrivateKey mnemonic encryptionKey ;;
  ret ({| UserObject.username := username;
          UserObject.password := hashedPassword;
          UserObject.salt := salt;
          UserObject.recoveryPhrase := phrase;
          UserObject.wallets :=
            [ {| WalletObject.blockchain := ethereum;
                 WalletObject.address := ethAddress;
                 WalletObject.privateKey := encryptedEthPrivateKey;
                 WalletObject.isDefault := true;
                 WalletObject.label := lit "Default ETH Wallet";
                 WalletObject.createdAt := None |};
              {| WalletObject.blockchain := solana;
                 WalletObject.address := solAddress;
                 WalletObject.privateKey := encryptedSolPrivateKey;
                 WalletObject.isDefault := true;
                 WalletObject.label := lit "Default SOL Wallet";
                 WalletObject.createdAt := None |} ] |},
       (mnemonic, ethAddress, solAddress)).

Definition registerUser (d : db) (username password : jsstring) (now : Z)
  : entropy -> outcome :=
  handle (lit "Server error")
    (match findOne username d with
     | Some _ => ret (respond 400 (lit "Username already exists") NoData)
     | None =>
         r <- registration username password ;;
         let newUser := User_new (fst r) (fresh_id d) now in
         saved <- save_new d newUser ;;
         let '(mnemonic, ethAddress, solAddress) := snd r in
         ret (respond_saving saved 201 (lit "User registered successfully")
                (RegisterData mnemonic ethAddress solAddress))
     end).

Definition loginUser (d : db) (username password : jsstring) : outcome :=
  attempt (lit "Server error")
    (match findOne username d with
     | None => Ok (respond 404 (lit "User not found") NoData)
     | Some user =>
         isMatch <~ compareStored password (User.password user) ;;
         if negb isMatch
         then Ok (respond 400 (lit "Invalid credentials") NoData)
         else
           let token := jwt_sign C (User._id user) (User.username user) in
           defaultEthWallet <~ wallets_find user (isDefaultOn ethereum) ;;
           defaultSolWallet <~ wallets_find user (isDefaultOn solana) ;;
           Ok (respond 200 (lit "Login successful")
                 (LoginData token (User.username user)
                    (address_or_null defaultEthWallet)
                    (address_or_null defaultSolWallet)
                    None (length (User.addressBook user))))
     end).

Definition createAdditionalWallet (d : db) (userId : Z)
    (blockchain label password : jsstring) (now : Z) : entropy -> outcome :=
  handle (lit "Server error")
    (match findById userId d with
     | None => ret (respond 404 (lit "User not found") NoData)
     | Some user =>
         encryptionKey <-
           lift (generateEncryptionKey password (User.salt user)) ;;
         let finish (newWallet : WalletObject.t) : M outcome :=
           _ <- lift (wallets_push user newWallet) ;;
           saved <- lift (save_found user) ;;
           ret (respond_saving saved 201 (lit "Wallet created successfully")
                  (WalletData (WalletObject.blockchain newWallet)
                              (WalletObject.address newWallet)
                              (WalletObject.label newWallet))) in
         let numbered (prefix chain : jsstring) : M jsstring :=
           if truthy label then ret label
           else
             ws <- lift (wallets_filter user
                           (fun w => str_eqb (WalletObject.blockchain w) chain)) ;;
             ret (prefix ++ show_nat (length ws + 1)) in
         if str_eqb (toLowerCase blockchain) ethereum then
           r <- createRandom ;;
           k <- encryptPrivateKey (snd r) encryptionKey ;;
           l <- numbered (lit "ETH Wallet ") ethereum ;;
           finish {| WalletObject.blockchain := ethereum;
                     WalletObject.address := snd (fst r);
                     WalletObject.privateKey := k;
                     WalletObject.isDefault := false;
                     WalletObject.label := l;
                     WalletObject.createdAt := Some now |}
         else if str_eqb (toLowerCase blockchain) solana then
           wallet <- Keypair_generate ;;
           k <- encryptPrivateKey (solanaPlaintext (secretKey wallet))
                  encryptionKey ;;
           l <- numbered (lit "SOL Wallet ") solana ;;
           finish {| WalletObject.blockchain := solana;
                     WalletObject.address := base58 C (publicKey wallet);
                     WalletObject.privateKey := k;
                     WalletObject.isDefault := false;
                     WalletObject.label := l;
                     WalletObject.createdAt := Some now |}
         else ret (respond 400 (lit "Unsupported blockchain") NoData)
     end).

Definition setDefaultWallet (d : db) (userId : Z)
    (walletAddress blockchain : jsstring) : outcome :=
  attempt (lit "Server error")
    (match findById userId d with
     | None => Ok (respond 404 (lit "User not found") NoData)
     | Some user =>
         walletIndex <~
           wallets_findIndex user (matches walletAddress blockchain) ;;
         match walletIndex with
         | None => Ok (respond 404 (lit "Wallet not found") NoData)
         | Some i =>
             _ <~ wallets_forEach user (clearDefault blockchain) ;;
             w <~ wallets_at user i ;;
             saved <~ save_found user ;;
             Ok (respond_saving saved
                   200 (lit "Default wallet updated successfully")
                   (WalletData blockchain walletAddress (WalletObject.label w)))
         end
     end).

Definition transferERC20Token (d : db) (userId : Z)
    (walletAddress password : jsstring) : tokenTransfer :=
  let failed e :=
    TokenReplied (respond 500 (lit "Token transfer failed") (ErrorData e)) in
  match findById userId d with
  | None => TokenReplied (respond 404 (lit "User not found") NoData)
  | Some user =>
      match wallets_find user (matches walletAddress ethereum) with
      | Throw e => failed e
      | Ok None => TokenReplied (respond 404 (lit "Wallet not found") NoData)
      | Ok (Some wallet) =>
          match
            encryptionKey <~ generateEncryptionKey password (User.salt user) ;;
            decryptPrivateKey (WalletObject.privateKey wallet) encryptionKey
          with
          | Throw e => failed e
          | Ok privateKey => Signs privateKey
          end
      end
  end.

(** The validation both address-book handlers inline: [chain] is the
    identifier as the handler compares it. *)
Definition validAddress (address chain : jsstring) : bool :=
  if str_eqb chain ethereum then isAddress C address
  else if str_eqb chain solana then isPublicKey C address
  else false.

(** [entry => entry.address === address && entry.blockchain === blockchain]
    on an entry of the stored book. *)
Definition sameEntry (address blockchain : jsstring) (e : Entry.t) : bool :=
  equals (Entry.address e) address && equals (Entry.blockchain e) blockchain.

Definition invalidFormat (blockchain : jsstring) : jsstring :=
  lit "Invalid " ++ blockchain ++ lit " address format".

Definition addAddressBookEntry (d : db) (userId : Z)
    (label address blockchain notes : jsstring) (now : Z) (oid : jsstring)
  : outcome :=
  attempt (lit "Server error")
    (match findById userId d with
     | None => Ok (respond 404 (lit "User not found") NoData)
     | Some user =>
         if negb (validAddress address blockchain)
         then Ok (respond 400 (invalidFormat blockchain) NoData)
         else if existsb (sameEntry address blockchain) (User.addressBook user)
         then Ok (respond 400 (lit "Address already exists in address book")
                    NoData)
         else
           let entry :=
             {| EntryObject.label := label; EntryObject.address := address;
                EntryObject.blockchain := blockchain;
                EntryObject.notes := or_else notes [];
                EntryObject.createdAt := now |} in
           saved <~
             save_found
               (User.with_addressBook
                  (User.addressBook user ++ [castEntry oid entry]) user) ;;
           Ok (respond_saving saved 201 (lit "Address added to address book")
                 (EntryData label address blockchain (or_else notes [])))
     end).

Definition signMessage (d : db) (userId : Z)
    (walletAddress blockchain message password : jsstring) : outcome :=
  attempt (lit "Signing failed")
    (match findById userId d with
     | None => Ok (respond 404 (lit "User not found") NoData)
     | Some user =>
         wallet <~ wallets_find user (matches walletAddress blockchain) ;;
         match wallet with
         | None => Ok (respond 404 (lit "Wallet not found") NoData)
         | Some wallet =>
             encryptionKey <~
               generateEncryptionKey password (User.salt user) ;;
             privateKey <~
               decryptPrivateKey (WalletObject.privateKey wallet) encryptionKey ;;
             if str_eqb blockchain ethereum then
               signature <~ eth_sign C privateKey message ;;
               Ok (respond 200 (lit "Message signed successfully")
                     (SignatureData signature message))
             else if str_eqb blockchain solana then
               _ <~ rebuildKeypair privateKey ;;
               Throw NotDefined
             else Ok (respond 400 (lit "Unsupported blockchain for signing")
                        NoData)
         end
     end).

(** The re-encryption of one wallet in [recoverWalletFromPhrase]. *)
Definition reencrypt (encryptionKey newEncryptionKey : jsstring)
    (w : WalletObject.t) : M WalletObject.t :=
  decryptedKey <-
    lift (decryptPrivateKey (WalletObject.privateKey w) encryptionKey) ;;
  reEncryptedKey <- encryptPrivateKey decryptedKey newEncryptionKey ;;
  ret (WalletObject.with_privateKey reEncryptedKey w).

Definition recoverWalletFromPhrase (d : db)
    (username password newPassword : jsstring) : entropy -> outcome :=
  handle (lit "Recovery failed")
    (match findOne username d with
     | None => ret (respond 404 (lit "User not found") NoData)
     | Some user =>
         isMatch <- lift (compareStored password (User.password user)) ;;
         if negb isMatch
         then ret (respond 401 (lit "Invalid credentials") NoData)
         else
           encryptionKey <-
             lift (generateEncryptionKey password (User.salt user)) ;;
           mnemonic <-
             lift (decryptStored (User.recoveryPhrase user) encryptionKey) ;;
           if truthy newPassword then
             saltBytes <- draw 16 ;;
             let newSalt := Hex.encode saltBytes in
             bsalt <- draw 16 ;;
             let newHashedPassword := bcrypt_hash C newPassword bsalt in
             newEncryptionKey <-
               lift (generateEncryptionKey newPassword (Some newSalt)) ;;
             newEncryptedMnemonic <- encryptPrivateKey mnemonic newEncryptionKey ;;
             updatedWallets <-
               wallets_map user (reencrypt encryptionKey newEncryptionKey) ;;
             (* user.salt, user.recoveryPhrase and user.wallets are assigned
                next: none of them is a path that takes the value. *)
             saved <-
               save_rehashed (User.with_password (Some newHashedPassword) user) ;;
             ret (respond_saving saved 200
                    (lit "Wallet recovered and password updated successfully")
                    (RecoveryData mnemonic))
           else
             ret (respond 200 (lit "Recovery phrase retrieved successfully")
                    (RecoveryData mnemonic))
     end).

(** *** The Solana transfer controller *)

(** [transferSOL], up to the point where it turns to the network. *)
Definition transferSOL (d : db) (userId : Z)
    (walletAddress password : jsstring) : transfer :=
  let failed e :=
    Replied (respond 500 (lit "SOL transfer failed") (ErrorData e)) in
  match findById userId d with
  | None => Replied (respond 404 (lit "User not found") NoData)
  | Some user =>
      match wallets_find user (matches walletAddress solana) with
      | Throw e => failed e
      | Ok None => Replied (respond 404 (lit "Wallet not found") NoData)
      | Ok (Some wallet) =>
          match
            encryptionKey <~ generateEncryptionKey password (User.salt user) ;;
            privateKeyString <~
              decryptPrivateKey (WalletObject.privateKey wallet) encryptionKey ;;
            rebuildKeypair privateKeyString
          with
          | Throw e => failed e
          | Ok fromKeypair =>
              if negb (str_eqb (base58 C (publicKey fromKeypair)) walletAddress)
              then Replied (respond 400 (lit "Invalid wallet key pair") NoData)
              else Broadcasts fromKeypair
          end
      end
  end.

(** [transferSPLToken], up to the point where it turns to the network: it
    rebuilds the key pair as [transferSOL] does, and goes on with it. *)
Definition transferSPLToken (d : db) (userId : Z)
    (walletAddress password : jsstring) : transfer :=
  let failed e :=
    Replied (respond 500 (lit "SPL token transfer failed") (ErrorData e)) in
  match findById userId d with
  | None => Replied (respond 404 (lit "User not found") NoData)
  | Some user =>
      match wallets_find user (matches walletAddress solana) with
      | Throw e => failed e
      | Ok None => Replied (respond 404 (lit "Wallet not found") NoData)
      | Ok (Some wallet) =>
          match
            encryptionKey <~ generateEncryptionKey password (User.salt user) ;;
            privateKeyString <~
              decryptPrivateKey (WalletObject.privateKey wallet) encryptionKey ;;
            rebuildKeypair privateKeyString
          with
          | Throw e => failed e
          | Ok fromKeypair => Broadcasts fromKeypair
          end
      end
  end.

(** *** The address-book controller *)

(** [if (label) entry.label = label]: [label] is no path of the entry, the
    assignment leaves the document as it is.
    [if (notes !== undefined) entry.notes = notes]. *)
Definition revise (label : jsstring) (notes : option jsstring) (e : Entry.t)
  : Entry.t :=
  match notes with
  | Some n => Entry.with_notes (Some n) e
  | None => e
  end.

Definition updateAddressBookEntry (d : db) (userId : Z)
    (entryId label : jsstring) (notes : option jsstring) : outcome :=
  attempt (lit "Server error")
    (match findById userId d with
     | None => Ok (respond 404 (lit "User not found") NoData)
     | Some user =>
         match findIndex (fun e => str_eqb (Entry._id e) entryId)
                 (User.addressBook user) with
         | None => Ok (respond 404 (lit "Address book entry not found") NoData)
         | Some entryIndex =>
             let book := update_nth entryIndex (revise label notes)
                           (User.addressBook user) in
             saved <~ save_found (User.with_addressBook book user) ;;
             Ok (respond_saving saved
                   200 (lit "Address book entry updated successfully")
                   (match nth_error book entryIndex with
                    | Some e => EntryDoc e
                    | None => NoData
                    end))
         end
     end).

Definition deleteAddressBookEntry (d : db) (userId : Z) (entryId : jsstring)
  : outcome :=
  attempt (lit "Server error")
    (match findById userId d with
     | None => Ok (respond 404 (lit "User not found") NoData)
     | Some user =>
         match findIndex (fun e => str_eqb (Entry._id e) entryId)
                 (User.addressBook user) with
         | None => Ok (respond 404 (lit "Address book entry not found") NoData)
         | Some entryIndex =>
             saved <~
               save_found
                 (User.with_addressBook
                    (splice1 entryIndex (User.addressBook user)) user) ;;
             Ok (respond_saving saved
                   200 (lit "Address book entry deleted successfully") NoData)
         end
     end).

(** [e => e.address === address && e.blockchain === blockchain] on an object
    of [validEntries]. *)
Definition sameObject (address blockchain : jsstring) (o : EntryObject.t)
  : bool :=
  str_eqb (EntryObject.address o) address
  && str_eqb (EntryObject.blockchain o) blockchain.

(** One turn of the loop of [addBatchAddressBookEntries]: the entry goes to
    the valid or to the invalid list. *)
Definition batchStep (book : list Entry.t) (now : Z)
    (acc : list EntryObject.t * list (BatchEntry * jsstring))
    (entry : BatchEntry)
  : list EntryObject.t * list (BatchEntry * jsstring) :=
  let '(validEntries, invalidEntries) := acc in
  let reject reason := (validEntries, invalidEntries ++ [(entry, reason)]) in
  let address := be_address entry in
  let blockchain := be_blockchain entry in
  if negb (truthy (be_label entry)) || negb (truthy address)
     || negb (truthy blockchain)
  then reject (lit "Missing required fields")
  else if negb (str_eqb (toLowerCase blockchain) ethereum
                || str_eqb (toLowerCase blockchain) solana)
  then reject (lit "Invalid blockchain")
  else if negb (validAddress address (toLowerCase blockchain))
  then reject (invalidFormat blockchain)
  else if existsb (sameEntry address blockchain) book
  then reject (lit "Address already exists in address book")
  else if existsb (sameObject address blockchain) validEntries
  then reject (lit "Duplicate address in batch")
  else (validEntries ++
          [ {| EntryObject.label := be_label entry;
               EntryObject.address := address;
               EntryObject.blockchain := toLowerCase blockchain;
               EntryObject.notes := or_else (be_notes entry) [];
               EntryObject.createdAt := now |} ],
        invalidEntries).

Definition batchLoop (book : list Entry.t) (now : Z) (entries : list BatchEntry)
  : list EntryObject.t * list (BatchEntry * jsstring) :=
  fold_left (batchStep book now) entries ([], []).

(** [user.addressBook.push(...validEntries)]: each object is cast to an
    entry, with the identifier Mongoose gives it. *)
Definition pushed (oid : nat -> jsstring) (objects : list EntryObject.t)
  : list Entry.t :=
  map (fun p => castEntry (oid (fst p)) (snd p))
      (combine (seq 0 (length objects)) objects).

Definition addBatchAddressBookEntries (d : db) (userId : Z)
    (entries : list BatchEntry) (now : Z) (oid : nat -> jsstring) : outcome :=
  match entries with
  | [] => respond 400 (lit "Invalid entries format") NoData
  | _ =>
      attempt (lit "Server error")
        (match findById userId d with
         | None => Ok (respond 404 (lit "User not found") NoData)
         | Some user =>
             let '(validEntries, invalidEntries) :=
               batchLoop (User.addressBook user) now entries in
             let p := BatchData (length validEntries) (length invalidEntries)
                                invalidEntries in
             match validEntries with
             | [] => Ok (respond 200 (lit "Batch processing completed") p)
             | _ =>
                 saved <~
                   save_found
                     (User.with_addressBook
                        (User.addressBook user ++ pushed oid validEntries)
                        user) ;;
                 Ok (respond_saving saved
                       200 (lit "Batch processing completed") p)
             end
         end)
  end.

(** *** [walletController.js]: the handlers that make and authenticate
    users *)

(** [new User({ username, email, password })], after the setters of the
    schema. *)
Definition User_account (username email password : jsstring) (id now : Z)
  : User.t :=
  {| User._id := id;
     User.email := Some (lowercase C (trim email));
     User.password := Some password;
     User.username := Some (trim username);
     User.wallets := {| Wallets.ethereum := []; Wallets.solana := [] |};
     User.addressBook := [];
     User.preferences := Preferences.defaults;
     User.createdAt := now;
     User.lastLogin := None |}.

(** [exports.register] *)
Definition register (d : db) (username email password : jsstring) (now : Z)
  : entropy -> outcome :=
  handle (lit "Server error")
    (match findOneByEmail C email d with
     | Some _ => ret (respond 400 (lit "User already exists") NoData)
     | None =>
         let user := User_account username email password (fresh_id d) now in
         saved <- save_new d user ;;
         let token := jwt_sign_userId C (User._id saved) now in
         ret (respond_saving saved 201 (lit "User registered successfully")
                (AccountData token (User._id saved) (User.username saved)
                   (User.email saved)))
     end).

(** [exports.login]; [user.comparePassword] is the method of the schema. *)
Definition login (d : db) (email password : jsstring) (now : Z) : outcome :=
  attempt (lit "Server error")
    (match findOneByEmail C email d with
     | None => Ok (respond 400 (lit "Invalid credentials") NoData)
     | Some user =>
         isMatch <~ compareStored password (User.password user) ;;
         if negb isMatch
         then Ok (respond 400 (lit "Invalid credentials") NoData)
         else
           Ok (respond 200 (lit "Login successful")
                 (AccountData (jwt_sign_userId C (User._id user) now)
                    (User._id user) (User.username user) (User.email user)))
     end).

End Handlers.

(** ** The rest of [src/utils/encryption.js] *)

(** [generateRandomKey(length = 32)] *)
Definition generateRandomKey (length : option nat) : M jsstring :=
  bs <- draw (match length with Some n => n | None => 32%nat end) ;;
  ret (Hex.encode bs).

(** SHA-256 (FIPS 180-4), behind [crypto.createHash('sha256')]: words are
    integers below 2^32, the message and the digest are octets. *)

Module SHA256.

Definition mask : Z := 0xFFFFFFFF.

Definition add (x y : Z) : Z := (x + y) mod 4294967296.

Definition rotr (n x : Z) : Z :=
  Z.lor (Z.shiftr x n) (Z.land (Z.shiftl x (32 - n)) mask).

Definition Ch (x y z : Z) : Z :=
  Z.lxor (Z.land x y) (Z.land (Z.lxor x mask) z).
Definition Maj (x y z : Z) : Z :=
  Z.lxor (Z.lxor (Z.land x y) (Z.land x z)) (Z.land y z).
Definition Sigma0 (x : Z) : Z :=
  Z.lxor (Z.lxor (rotr 2 x) (rotr 13 x)) (rotr 22 x).
Definition Sigma1 (x : Z) : Z :=
  Z.lxor (Z.lxor (rotr 6 x) (rotr 11 x)) (rotr 25 x).
Definition sigma0 (x : Z) : Z :=
  Z.lxor (Z.lxor (rotr 7 x) (rotr 18 x)) (Z.shiftr x 3).
Definition sigma1 (x : Z) : Z :=
  Z.lxor (Z.lxor (rotr 17 x) (rotr 19 x)) (Z.shiftr x 10).

(** The constants: the first 32 bits of the fractional parts of the cube
    roots of the first 64 primes, and of the square roots of the first 8. *)
Definition is_prime (n : nat) : bool :=
  forallb (fun d => negb (n mod d =? 0)%nat) (seq 2 (n - 2)).

Definition primes_upto (bound : nat) : list Z :=
  map Z.of_nat (filter is_prime (seq 2 (bound - 1))).

(** The largest [r] below [2 ^ bits] whose cube is at most [n]. *)
Fixpoint cube_root (bits : nat) (n r : Z) : Z :=
  match bits with
  | O => r
  | S b =>
      let r' := r + 2 ^ Z.of_nat b in
      cube_root b n (if r' * r' * r' <=? n then r' else r)
  end.

Definition K : list Z :=
  Eval vm_compute in
    map (fun p => cube_root 36 (p * 2 ^ 96) 0 mod 2 ^ 32) (primes_upto 311).

Definition H0 : list Z :=
  Eval vm_compute in
    map (fun p => Z.sqrt (p * 2 ^ 64) mod 2 ^ 32) (primes_upto 19).

(** Big-endian words. *)
Definition be32 (x : Z) : bytes :=
  [(x / 16777216) mod 256; (x / 65536) mod 256; (x / 256) mod 256; x mod 256].

Definition be64 (x : Z) : bytes := be32 (x / 4294967296) ++ be32 (x mod 4294967296).

Fixpoint words (n : nat) (bs : bytes) : list Z :=
  match n with
  | O => []
  | S n' =>
      (nth 0 bs 0 * 16777216 + nth 1 bs 0 * 65536 + nth 2 bs 0 * 256 + nth 3 bs 0)
      :: words n' (skipn 4 bs)
  end.

(** The message, a one bit, zeros up to 56 modulo 64, and the length in
    bits on eight octets. *)
Definition pad (m : bytes) : bytes :=
  let l := length m in
  m ++ 0x80 :: repeat 0 ((64 - (l + 9) mod 64) mod 64)%nat
    ++ be64 (8 * Z.of_nat l).

Fixpoint blocks (n : nat) (bs : bytes) : list bytes :=
  match n with
  | O => []
  | S n' => firstn 64 bs :: blocks n' (skipn 64 bs)
  end.

(** The message schedule: [w] holds the words made so far. *)
Fixpoint schedule (n : nat) (w : list Z) : list Z :=
  match n with
  | O => w
  | S n' =>
      let t := length w in
      schedule n'
        (w ++ [add (add (sigma1 (nth (t - 2) w 0)) (nth (t - 7) w 0))
                   (add (sigma0 (nth (t - 15) w 0)) (nth (t - 16) w 0))])
  end.

Definition round (s : list Z) (kw : Z * Z) : list Z :=
  match s with
  | [a; b; c; d; e; f; g; h] =>
      let t1 := add (add (add (add h (Sigma1 e)) (Ch e f g)) (fst kw)) (snd kw) in
      let t2 := add (Sigma0 a) (Maj a b c) in
      [add t1 t2; a; b; c; add d t1; e; f; g]
  | _ => s
  end.

Fixpoint add_all (h s : list Z) : list Z :=
  match h, s with
  | x :: h', y :: s' => add x y :: add_all h' s'
  | _, _ => []
  end.

Definition compress (h : list Z) (block : bytes) : list Z :=
  add_all h (fold_left round (combine K (schedule 48 (words 16 block))) h).

Definition digest (m : bytes) : bytes :=
  let p := pad m in
  flat_map be32 (fold_left compress (blocks (length p / 64) p) H0).

End SHA256.

(** [hashData(data, salt)] *)
Definition hashData (data salt : jsstring) : jsstring :=
  Hex.encode (SHA256.digest (Utf8.encode (data ++ salt))).

(** A lower-case hexadecimal digit. *)
Definition hex_digit (u : Z) : bool :=
  ((48 <=? u) && (u <=? 57)) || ((97 <=? u) && (u <=? 102)).

(** ** [src/middleware/authMiddleware.js] and the token check of
    [userController.js]

    [jwt.verify(token, secret)] is a collaborator: it is handed what the code
    hands it, the token or [undefined], and returns the decoded payload or
    throws with a message. *)

Module Decoded.
Record t : Type := {
  id : Z;
  username : jsstring
}.
End Decoded.

(** A refusal of a middleware: [res.status(s).json({ message, error })]. *)
Record refusal : Type := {
  code : Z;
  reason : jsstring;
  detail : option jsstring
}.

(** What a middleware did: the calls of [res.json], in order, and the
    payload it put in [req.user] when it called [next()].  The client gets
    the first answer; a later one finds the headers sent. *)
Record passage : Type := {
  refusals : list refusal;
  next : option Decoded.t
}.

Definition space : Z := 32.

(** [s.startsWith(prefix)] *)
Fixpoint startsWith (s prefix : jsstring) : bool :=
  match prefix, s with
  | [], _ => true
  | p :: ps, c :: cs => (c =? p) && startsWith cs ps
  | _ :: _, [] => false
  end.

(** [!token] for a token that may be [undefined]. *)
Definition missing (token : option jsstring) : bool :=
  match token with Some t => negb (truthy t) | None => true end.

Section Middleware.

Variable jwt_verify : option jsstring -> Decoded.t + jsstring.

(** [protect(req, res, next)] of [authMiddleware.js]; [authorization] is
    [req.headers.authorization]. *)
Definition protect (d : db) (authorization : option jsstring) : passage :=
  let bearer :=
    match authorization with
    | Some h => if startsWith h (lit "Bearer") then Some h else None
    | None => None
    end in
  let token :=
    match bearer with
    | Some h => nth_error (split space h) 1
    | None => None
    end in
  let no_token :=
    if missing token
    then [ {| code := 401; reason := lit "Not authorized, no token provided";
              detail := None |} ]
    else [] in
  match bearer with
  | None => {| refusals := no_token; next := None |}
  | Some _ =>
      match jwt_verify token with
      | inr message =>
          {| refusals :=
               {| code := 401; reason := lit "Not authorized, token failed";
                  detail := Some message |} :: no_token;
             next := None |}
      | inl decoded =>
          match findById (Decoded.id decoded) d with
          | None =>
              {| refusals :=
                   [ {| code := 401;
                        reason := lit "Not authorized, user not found";
                        detail := None |} ];
                 next := None |}
          | Some _ => {| refusals := no_token; next := Some decoded |}
          end
      end
  end.

(** [verifyToken(req, res, next)] of [userController.js]. *)
Definition verifyToken (authorization : option jsstring) : passage :=
  let token :=
    match authorization with
    | Some h => nth_error (split space h) 1
    | None => None
    end in
  if missing token
  then {| refusals := [ {| code := 401; reason := lit "No token provided";
                           detail := None |} ];
          next := None |}
  else match jwt_verify token with
       | inl decoded => {| refusals := []; next := Some decoded |}
       | inr _ =>
           {| refusals := [ {| code := 401; reason := lit "Invalid token";
                               detail := None |} ];
              next := None |}
       end.

End Middleware.


(** ** The requests that write, and the collections they reach *)

Inductive request : Type :=
| CreateAdditionalWallet (blockchain label password : jsstring) (now : Z)
    (g : entropy)
| SetDefaultWallet (walletAddress blockchain : jsstring)
| AddAddressBookEntry (label address blockchain notes : jsstring) (now : Z)
    (oid : jsstring)
| AddBatchAddressBookEntries (entries : list BatchEntry) (now : Z)
    (oid : nat -> jsstring)
| UpdateAddressBookEntry (entryId label : jsstring) (notes : option jsstring)
| DeleteAddressBookEntry (entryId : jsstring).

Definition serve (C : Collaborators) (d : db) (userId : Z) (r : request)
  : outcome :=
  match r with
  | CreateAdditionalWallet blockchain label password now g =>
      createAdditionalWallet C d userId blockchain label password now g
  | SetDefaultWallet walletAddress blockchain =>
      setDefaultWallet d userId walletAddress blockchain
  | AddAddressBookEntry label address blockchain notes now oid =>
      addAddressBookEntry C d userId label address blockchain notes now oid
  | AddBatchAddressBookEntries entries now oid =>
      addBatchAddressBookEntries C d userId entries now oid
  | UpdateAddressBookEntry entryId label notes =>
      updateAddressBookEntry d userId entryId label notes
  | DeleteAddressBookEntry entryId =>
      deleteAddressBookEntry d userId entryId
  end.

(** The collections the handlers can reach: from the empty one by the two
    registrations, by the requests above and by recoveries, each committing
    what it saved, and by the authentication middleware of
    [src/unnamed/part_000], which writes the time into the [lastLogin] of
    the user its token names. *)
Inductive attainable (C : Collaborators) : db -> Prop :=
| attain_empty : attainable C []
| attain_account d username email password now g :
    attainable C d ->
    attainable C (commit d (register C d username email password now g))
| attain_register d username password now g :
    attainable C d ->
    attainable C (commit d (registerUser C d username password now g))
| attain_serve d userId r :
    attainable C d ->
    attainable C (commit d (serve C d userId r))
| attain_recover d username password newPassword g :
    attainable C d ->
    attainable C
      (commit d (recoverWalletFromPhrase C d username password newPassword g))
| attain_authenticate d userId user now :
    attainable C d -> findById userId d = Some user ->
    attainable C (store (User.with_lastLogin (Some now) user) d).

(** What every document of the collection is to be: one that passes the
    schema, with a bcrypt hash for a password. *)
Definition kept (C : Collaborators) (u : User.t) : Prop :=
  valid u = true /\
  exists password saltBytes,
    User.password u = Some (bcrypt_hash C password saltBytes).

(** [jwt.verify] throws when it is handed no token. *)
Definition verify_refuses_missing
    (jwt_verify : option jsstring -> Decoded.t + jsstring) : Prop :=
  forall token, missing token = true -> exists m, jwt_verify token = inr m.

(** ** [getEthereumTransactions]

    The explorer, [ethers.formatEther] and the date arithmetic are
    collaborators: each returns a value or throws with a message. *)

Module Etherscan.
Record tx : Type := {
  hash : jsstring;
  from : jsstring;
  to : jsstring;
  value : jsstring;
  timeStamp : jsstring;
  gasUsed : jsstring;
  isError : jsstring
}.
Record reply : Type := {
  status : jsstring;
  message : jsstring;
  result : list tx
}.
End Etherscan.

Module Listed.
Record t : Type := {
  hash : jsstring;
  from : jsstring;
  to : jsstring;
  value : jsstring;
  timestamp : jsstring;
  gasUsed : jsstring;
  isError : bool
}.
End Listed.




Section History.

Variable fetch : jsstring -> Etherscan.reply + jsstring.
Variable formatEther : jsstring -> jsstring + jsstring.
Variable toISOString : jsstring -> jsstring + jsstring.




End History.


(** ** Sample collaborators and data

    Small total functions that stand in for the libraries when a theorem is
    instantiated on concrete data.  They share with the real ones only the
    shapes the hypotheses of the theorems state, and no theorem is stated
    about them; the cipher, the encodings, the schema and the handlers are
    the ones above. *)

Module Sample.

(** 32 octets from the password and the salt. *)
Definition kdf (password salt : jsstring) : bytes :=
  let src := password ++ salt in
  map (fun i => (nth (i mod length src)%nat src 0 * 31 + 7 * Z.of_nat i) mod 256)
      (seq 0 32).

Definition hash (password : jsstring) (saltBytes : bytes) : jsstring :=
  lit "$2b$10$" ++ Hex.encode (map (fun b => b mod 256) saltBytes)
    ++ lit "$" ++ password.

Definition compare (password hashed : jsstring) : bool :=
  match split 36 (skipn 7 hashed) with
  | _ :: rest => str_eqb (concat (firstn 1 rest)
                           ++ flat_map (fun p => 36 :: p) (skipn 1 rest))
                         password
  | [] => false
  end.

Definition phrase (e : bytes) : jsstring :=
  lit "seed " ++ Hex.encode (map (fun b => b mod 256) e).

Definition public (seed : bytes) : bytes :=
  map (fun i => (nth i seed 0 * 3 + 1) mod 256) (seq 0 32).

Definition hex_lower (u : Z) : bool :=
  ((48 <=? u) && (u <=? 57)) || ((97 <=? u) && (u <=? 102)).
Definition hex_upper (u : Z) : bool :=
  ((48 <=? u) && (u <=? 57)) || ((65 <=? u) && (u <=? 70)).

(** "0x" and forty hexadecimal digits whose letters are all of one case:
    the addresses [ethers.isAddress] accepts without looking at a checksum. *)
Definition address_ok (a : jsstring) : bool :=
  match a with
  | 48 :: 120 :: r =>
      (length r =? 40)%nat && (forallb hex_lower r || forallb hex_upper r)
  | _ => false
  end.

Definition alnum (u : Z) : bool :=
  ((49 <=? u) && (u <=? 57)) || ((65 <=? u) && (u <=? 90))
  || ((97 <=? u) && (u <=? 122)).

Definition pubkey_ok (a : jsstring) : bool :=
  (32 <=? length a)%nat && (length a <=? 44)%nat && forallb alnum a.

(** Decimal numerals, and 0 for everything else. *)
Definition number (s : jsstring) : Z :=
  if forallb (fun u => (48 <=? u) && (u <=? 57)) s
  then fold_left (fun acc u => acc * 10 + (u - 48)) s 0 mod 256
  else 0.

(** No two documents with one [email] or one [username]. *)
Definition accepts (d : db) (u : User.t) : bool :=
  negb (existsb (fun v =>
                   match User.email v, User.email u with
                   | Some a, Some b => str_eqb a b
                   | _, _ => false
                   end
                   || match User.username v, User.username u with
                      | Some a, Some b => str_eqb a b
                      | _, _ => false
                      end) d).

Definition C : Collaborators := {|
  pbkdf2 := kdf;
  bcrypt_hash := hash;
  bcrypt_compare := compare;
  jwt_sign := fun _ name =>
    lit "token." ++ match name with Some n => n | None => [] end;
  jwt_sign_userId := fun id now =>
    lit "token." ++ show_nat (Z.to_nat id) ++ lit "." ++ show_nat (Z.to_nat now);
  mnemonic_of := phrase;
  eth_address := fun m => lit "0x" ++ Hex.encode (firstn 20 (kdf m (lit "address")));
  eth_privateKey := fun m => lit "0x" ++ Hex.encode (kdf m (lit "key"));
  eth_sign := fun _ _ => Ok (lit "0xsigned");
  ed25519_public := public;
  base58 := Hex.encode;
  isAddress := address_ok;
  isPublicKey := pubkey_ok;
  numberToUint8 := number;
  lowercase := toLowerCase;
  index_accepts := accepts
|}.

(** Entropy sources. *)
Definition g0 : entropy := fun i => Z.of_nat i.
Definition g1 : entropy := fun i => 7 * Z.of_nat i + 3.
Definition g2 : entropy := fun i => 11 * Z.of_nat i + 5.

(** Two keys, as hex strings. *)
Definition K1 : jsstring :=
  lit "000102030405060708090a0b0c0d0e0f101112131415161718191a1b1c1d1e1f".
Definition K2 : jsstring :=
  lit "000102030405060708090a0b0c0d0e0f101112131415161718191a1b1c1d00f4".

(** The blob an encryption returns, or the empty string if it threw. *)
Definition blob (m : M jsstring) (g : entropy) : jsstring :=
  match m g with Ok (b, _) => b | Throw _ => [] end.

(** The collection after one account was made through [exports.register],
    the only handler under [src/] whose user document the schema accepts. *)
Definition alice : jsstring := lit "alice".
Definition mail : jsstring := lit "alice@example.org".
Definition old : jsstring := lit "old-72-pass".
Definition new : jsstring := lit "new password".
Definition guess : jsstring := lit "guess-40".

Definition blank : User.t :=
  {| User._id := 0; User.email := None; User.password := None;
     User.username := None;
     User.wallets := {| Wallets.ethereum := []; Wallets.solana := [] |};
     User.addressBook := []; User.preferences := Preferences.defaults;
     User.createdAt := 0; User.lastLogin := None |}.

Definition account : outcome := register C [] alice mail old 0 g0.

Definition d1 : db := commit [] account.
Definition u1 : User.t := hd blank d1.

(** An address [ethers.isAddress] accepts. *)
Definition lower : jsstring := lit "0xabcdefabcdefabcdefabcdefabcdefabcdefabcd".

(** Identifiers for new entries. *)
Definition oid (k : nat) : jsstring := lit "65f0c0ffee0000000000000" ++ show_nat k.

End Sample.

Module Scenario.

(** A token for the sample user, and a verifier that accepts this token
    only. *)
Definition token : jsstring :=
  jwt_sign Sample.C (User._id Sample.u1) (User.username Sample.u1).

Definition verify (t : option jsstring) : Decoded.t + jsstring :=
  match t with
  | Some s =>
      if str_eqb s token
      then inl {| Decoded.id := User._id Sample.u1;
                  Decoded.username := lit "alice" |}
      else inr (lit "invalid signature")
  | None => inr (lit "jwt must be provided")
  end.

Definition header : jsstring := lit "Bearer " ++ token.

End Scenario.

(* ====================================================================== *)
(** * Part II: lemmas and theorems                                          *)
(* ====================================================================== *)

(** ** Known answers

    The cipher of Part I on published vectors: FIPS 197, appendix C.3, for
    the block cipher; SP 800-38A, F.2.5 and F.2.6, for the chaining, with
    the padding block OpenSSL appends; and one blob of [encryptPrivateKey]. *)

Example aes256_fips197_c3 :
  AES.encrypt_block
    (Hex.decode (lit "000102030405060708090a0b0c0d0e0f101112131415161718191a1b1c1d1e1f"))
    (Hex.decode (lit "00112233445566778899aabbccddeeff"))
  = Hex.decode (lit "8ea2b7ca516745bfeafc49904b496089").
Proof. vm_compute. reflexivity. Qed.

Example aes256_cbc_sp800_38a :
  Hex.encode
    (Cbc.seal
       (Hex.decode (lit "603deb1015ca71be2b73aef0857d77811f352c073b6108d72d9810a30914dff4"))
       (Hex.decode (lit "000102030405060708090a0b0c0d0e0f"))
       (Hex.decode (lit "6bc1bee22e409f96e93d7e117393172aae2d8a571e03ac9c9eb76fac45af8e51")))
  = lit ("f58c4c04d6e5f1ba779eabfb5f7bfbd69cfc4e967edb808d679f777bc6702c7d"
         ++ "3a3aa5e0213db1a9901f9036cf5102d2").
Proof. vm_compute. reflexivity. Qed.

Example aes256_cbc_open_sp800_38a :
  Cbc.open
    (Hex.decode (lit "603deb1015ca71be2b73aef0857d77811f352c073b6108d72d9810a30914dff4"))
    (Hex.decode (lit "000102030405060708090a0b0c0d0e0f"))
    (Hex.decode (lit ("f58c4c04d6e5f1ba779eabfb5f7bfbd69cfc4e967edb808d679f777bc6702c7d"
                      ++ "3a3aa5e0213db1a9901f9036cf5102d2")))
  = Ok (Hex.decode (lit "6bc1bee22e409f96e93d7e117393172aae2d8a571e03ac9c9eb76fac45af8e51")).
Proof. vm_compute. reflexivity. Qed.

Example encryptPrivateKey_known_answer :
  Sample.blob (encryptPrivateKey (lit "secret") Sample.K1) Sample.g0
  = lit "000102030405060708090a0b0c0d0e0f:e87e46f89e7d4d940c7659091f5f1e93".
Proof. vm_compute. reflexivity. Qed.

(** ** Octets: exhaustive checks *)


Lemma in_all_bytes b : is_byte b -> In b all_bytes.
Proof.
  intros [H0 H1]. unfold all_bytes.
  replace b with (Z.of_nat (Z.to_nat b)) by lia.
  apply in_map, in_seq. lia.
Qed.

Lemma bytes_ind (P : Z -> bool) :
  forallb P all_bytes = true -> forall b, is_byte b -> P b = true.
Proof.
  intros H b Hb. rewrite forallb_forall in H. apply H, in_all_bytes, Hb.
Qed.

Lemma bytes_ind2 (P : Z -> Z -> bool) :
  forallb (fun a => forallb (P a) all_bytes) all_bytes = true ->
  forall a b, is_byte a -> is_byte b -> P a b = true.
Proof.
  intros H a b Ha Hb.
  apply (bytes_ind (P a)); [|exact Hb].
  apply (bytes_ind (fun a => forallb (P a) all_bytes)); assumption.
Qed.

Lemma byteb_spec b : byteb b = true <-> is_byte b.
Proof. unfold byteb, is_byte. rewrite andb_true_iff. lia. Qed.

Ltac by_bytes :=
  match goal with
  | |- forall a, is_byte a -> @eq Z _ _ =>
      let a := fresh in let H := fresh in
      intros a H; apply Z.eqb_eq; revert a H;
      apply bytes_ind; vm_compute; reflexivity
  | |- forall a, is_byte a -> is_byte _ =>
      let a := fresh in let H := fresh in
      intros a H; apply byteb_spec; revert a H;
      apply bytes_ind; vm_compute; reflexivity
  | |- forall a b, is_byte a -> is_byte b -> @eq Z _ _ =>
      let a := fresh in let b := fresh in
      let H := fresh in let H' := fresh in
      intros a b H H'; apply Z.eqb_eq; revert a b H H';
      apply bytes_ind2; vm_compute; reflexivity
  | |- forall a b, is_byte a -> is_byte b -> is_byte _ =>
      let a := fresh in let b := fresh in
      let H := fresh in let H' := fresh in
      intros a b H H'; apply byteb_spec; revert a b H H';
      apply bytes_ind2; vm_compute; reflexivity
  end.

Module AESFacts.
Import AES.

Lemma sbox_byte : forall b, is_byte b -> is_byte (sbox b).
Proof. by_bytes. Qed.

Lemma inv_sbox_sbox : forall b, is_byte b -> inv_sbox (sbox b) = b.
Proof. by_bytes. Qed.

Lemma lxor_byte : forall a b, is_byte a -> is_byte b -> is_byte (Z.lxor a b).
Proof. by_bytes. Qed.

Lemma xtime_byte : forall a, is_byte a -> is_byte (xtime a).
Proof. by_bytes. Qed.

Lemma xtime_lxor : forall a b, is_byte a -> is_byte b ->
  xtime (Z.lxor a b) = Z.lxor (xtime a) (xtime b).
Proof. by_bytes. Qed.

Lemma lxor_swap a b c d :
  Z.lxor (Z.lxor a b) (Z.lxor c d) = Z.lxor (Z.lxor a c) (Z.lxor b d).
Proof.
  rewrite !Z.lxor_assoc. f_equal.
  rewrite <- !Z.lxor_assoc. f_equal. apply Z.lxor_comm.
Qed.

Lemma gmul_loop_byte n : forall a b acc,
  is_byte a -> is_byte acc -> is_byte (gmul_loop n a b acc).
Proof.
  induction n as [|n IH]; simpl; intros a b acc Ha Hacc; [exact Hacc|].
  apply IH; [apply xtime_byte, Ha|].
  destruct (Z.odd b); [apply lxor_byte|]; assumption.
Qed.

Lemma gmul_byte a c : is_byte a -> is_byte (gmul a c).
Proof. intros Ha. apply gmul_loop_byte; [exact Ha|unfold is_byte; lia]. Qed.

Lemma gmul_loop_lxor n : forall a a' b acc acc',
  is_byte a -> is_byte a' ->
  gmul_loop n (Z.lxor a a') b (Z.lxor acc acc')
  = Z.lxor (gmul_loop n a b acc) (gmul_loop n a' b acc').
Proof.
  induction n as [|n IH]; simpl; intros a a' b acc acc' Ha Ha'; [reflexivity|].
  rewrite xtime_lxor by assumption.
  destruct (Z.odd b).
  - rewrite lxor_swap. apply IH; apply xtime_byte; assumption.
  - apply IH; apply xtime_byte; assumption.
Qed.

Lemma gmul_lxor a b c : is_byte a -> is_byte b ->
  gmul (Z.lxor a b) c = Z.lxor (gmul a c) (gmul b c).
Proof.
  intros Ha Hb. unfold gmul.
  rewrite <- (gmul_loop_lxor 8 a b c 0 0 Ha Hb). reflexivity.
Qed.

(** *** MixColumns and its inverse *)


Lemma q_byte w x y z :
  is_byte w -> is_byte x -> is_byte y -> is_byte z -> is_byte (q w x y z).
Proof. intros. unfold q. repeat apply lxor_byte; assumption. Qed.

Lemma gmul_q w x y z c :
  is_byte w -> is_byte x -> is_byte y -> is_byte z ->
  gmul (q w x y z) c = q (gmul w c) (gmul x c) (gmul y c) (gmul z c).
Proof.
  intros. unfold q.
  rewrite !gmul_lxor by (try apply lxor_byte; assumption). reflexivity.
Qed.

Lemma q_transpose a1 a2 a3 a4 b1 b2 b3 b4 c1 c2 c3 c4 d1 d2 d3 d4 :
  q (q a1 a2 a3 a4) (q b1 b2 b3 b4) (q c1 c2 c3 c4) (q d1 d2 d3 d4)
  = q (q a1 b1 c1 d1) (q a2 b2 c2 d2) (q a3 b3 c3 d3) (q a4 b4 c4 d4).
Proof.
  unfold q.
  set (a12 := Z.lxor a1 a2). set (a34 := Z.lxor a3 a4).
  set (b12 := Z.lxor b1 b2). set (b34 := Z.lxor b3 b4).
  set (c12 := Z.lxor c1 c2). set (c34 := Z.lxor c3 c4).
  set (d12 := Z.lxor d1 d2). set (d34 := Z.lxor d3 d4).
  rewrite (lxor_swap a12 a34 b12 b34), (lxor_swap c12 c34 d12 d34).
  rewrite (lxor_swap (Z.lxor a12 b12) (Z.lxor a34 b34)
                     (Z.lxor c12 d12) (Z.lxor c34 d34)).
  subst a12 a34 b12 b34 c12 c34 d12 d34.
  rewrite (lxor_swap a1 a2 b1 b2), (lxor_swap c1 c2 d1 d2).
  rewrite (lxor_swap a3 a4 b3 b4), (lxor_swap c3 c4 d3 d4).
  rewrite (lxor_swap (Z.lxor a1 b1) (Z.lxor a2 b2)
                     (Z.lxor c1 d1) (Z.lxor c2 d2)).
  rewrite (lxor_swap (Z.lxor a3 b3) (Z.lxor a4 b4)
                     (Z.lxor c3 d3) (Z.lxor c4 d4)).
  reflexivity.
Qed.

(** The column identity, over six maps that stand for the multiplications
    by 2, 3, 9, 11, 13 and 14. *)
Section Column.
Variables m2 m3 m9 mb md me : Z -> Z.
Hypothesis closed : forall x, is_byte x ->
  is_byte (m2 x) /\ is_byte (m3 x).
Hypothesis linear : forall w x y z,
  is_byte w -> is_byte x -> is_byte y -> is_byte z ->
  m9 (q w x y z) = q (m9 w) (m9 x) (m9 y) (m9 z) /\
  mb (q w x y z) = q (mb w) (mb x) (mb y) (mb z) /\
  md (q w x y z) = q (md w) (md x) (md y) (md z) /\
  me (q w x y z) = q (me w) (me x) (me y) (me z).
Hypothesis diag : forall x, is_byte x ->
  q (me (m2 x)) (mb x) (md x) (m9 (m3 x)) = x /\
  q (m9 (m3 x)) (me (m2 x)) (mb x) (md x) = x /\
  q (md x) (m9 (m3 x)) (me (m2 x)) (mb x) = x /\
  q (mb x) (md x) (m9 (m3 x)) (me (m2 x)) = x.
Hypothesis off : forall x, is_byte x ->
  q (me (m3 x)) (mb (m2 x)) (md x) (m9 x) = 0 /\
  q (me x) (mb (m3 x)) (md (m2 x)) (m9 x) = 0 /\
  q (me x) (mb x) (md (m3 x)) (m9 (m2 x)) = 0 /\
  q (m9 (m2 x)) (me x) (mb x) (md (m3 x)) = 0 /\
  q (m9 x) (me (m3 x)) (mb (m2 x)) (md x) = 0 /\
  q (m9 x) (me x) (mb (m3 x)) (md (m2 x)) = 0 /\
  q (md (m2 x)) (m9 x) (me x) (mb (m3 x)) = 0 /\
  q (md (m3 x)) (m9 (m2 x)) (me x) (mb x) = 0 /\
  q (md x) (m9 x) (me (m3 x)) (mb (m2 x)) = 0 /\
  q (mb (m2 x)) (md x) (m9 x) (me (m3 x)) = 0 /\
  q (mb (m3 x)) (md (m2 x)) (m9 x) (me x) = 0 /\
  q (mb x) (md (m3 x)) (m9 (m2 x)) (me x) = 0.

Lemma column_identity a b c d :
  is_byte a -> is_byte b -> is_byte c -> is_byte d ->
  let x0 := q (m2 a) (m3 b) c d in
  let x1 := q a (m2 b) (m3 c) d in
  let x2 := q a b (m2 c) (m3 d) in
  let x3 := q (m3 a) b c (m2 d) in
  q (me x0) (mb x1) (md x2) (m9 x3) = a /\
  q (m9 x0) (me x1) (mb x2) (md x3) = b /\
  q (md x0) (m9 x1) (me x2) (mb x3) = c /\
  q (mb x0) (md x1) (m9 x2) (me x3) = d.
Proof.
  intros Ha Hb Hc Hd.
  destruct (closed a Ha) as [A2 A3]. destruct (closed b Hb) as [B2 B3].
  destruct (closed c Hc) as [C2 C3]. destruct (closed d Hd) as [D2 D3].
  destruct (linear (m2 a) (m3 b) c d A2 B3 Hc Hd) as (L09 & L0b & L0d & L0e).
  destruct (linear a (m2 b) (m3 c) d Ha B2 C3 Hd) as (L19 & L1b & L1d & L1e).
  destruct (linear a b (m2 c) (m3 d) Ha Hb C2 D3) as (L29 & L2b & L2d & L2e).
  destruct (linear (m3 a) b c (m2 d) A3 Hb Hc D2) as (L39 & L3b & L3d & L3e).
  destruct (diag a Ha) as (Da0 & _ & _ & _).
  destruct (diag b Hb) as (_ & Db1 & _ & _).
  destruct (diag c Hc) as (_ & _ & Dc2 & _).
  destruct (diag d Hd) as (_ & _ & _ & Dd3).
  destruct (off a Ha) as (_ & _ & _ & Oa1 & _ & _ & Oa2 & _ & _ & Oa3 & _ & _).
  destruct (off b Hb) as (Ob0 & _ & _ & _ & _ & _ & _ & Ob2 & _ & _ & Ob3 & _).
  destruct (off c Hc) as (_ & Oc0 & _ & _ & Oc1 & _ & _ & _ & _ & _ & _ & Oc3).
  destruct (off d Hd) as (_ & _ & Od0 & _ & _ & Od1 & _ & _ & Od2 & _ & _ & _).
  cbv zeta.
  rewrite L09, L0b, L0d, L0e, L19, L1b, L1d, L1e,
          L29, L2b, L2d, L2e, L39, L3b, L3d, L3e.
  repeat split; rewrite q_transpose.
  - rewrite Da0, Ob0, Oc0, Od0. unfold q; rewrite ?Z.lxor_0_l, ?Z.lxor_0_r; reflexivity.
  - rewrite Oa1, Db1, Oc1, Od1. unfold q; rewrite ?Z.lxor_0_l, ?Z.lxor_0_r; reflexivity.
  - rewrite Oa2, Ob2, Dc2, Od2. unfold q; rewrite ?Z.lxor_0_l, ?Z.lxor_0_r; reflexivity.
  - rewrite Oa3, Ob3, Oc3, Dd3. unfold q; rewrite ?Z.lxor_0_l, ?Z.lxor_0_r; reflexivity.
Qed.
End Column.

Lemma inv_mix_mix_column a b c d :
  is_byte a -> is_byte b -> is_byte c -> is_byte d ->
  inv_mix_columns (mix_column a b c d) = [a; b; c; d].
Proof.
  intros Ha Hb Hc Hd.
  pose proof (column_identity
                (fun x => gmul x 2) (fun x => gmul x 3) (fun x => gmul x 9)
                (fun x => gmul x 11) (fun x => gmul x 13) (fun x => gmul x 14))
    as H.
  cbv beta in H.
  destruct (H
    ltac:(intros; split; apply gmul_byte; assumption)
    ltac:(intros; repeat split; apply gmul_q; assumption)
    ltac:(intros x Hx; repeat split; revert x Hx; by_bytes)
    ltac:(intros x Hx; repeat split; revert x Hx; by_bytes)
    a b c d Ha Hb Hc Hd) as (E0 & E1 & E2 & E3).
  unfold mix_column. cbn [inv_mix_columns app]. unfold inv_mix_column.
  unfold q in E0, E1, E2, E3.
  rewrite app_nil_r.
  f_equal; [exact E0|]. f_equal; [exact E1|]. f_equal; [exact E2|].
  f_equal; exact E3.
Qed.

Lemma inv_mix_column_app a b c d rest :
  inv_mix_columns (mix_column a b c d ++ rest)
  = inv_mix_columns (mix_column a b c d) ++ inv_mix_columns rest.
Proof.
  unfold mix_column. cbn [inv_mix_columns app].
  rewrite app_nil_r. reflexivity.
Qed.

Lemma mix_column_bytes a b c d :
  is_byte a -> is_byte b -> is_byte c -> is_byte d ->
  Forall is_byte (mix_column a b c d).
Proof.
  intros. unfold mix_column.
  repeat apply Forall_cons; try apply Forall_nil;
    apply lxor_byte; apply lxor_byte;
    first [assumption | apply gmul_byte; assumption].
Qed.

Lemma mix_columns_shape n : forall st,
  length st = (4 * n)%nat -> Forall is_byte st ->
  length (mix_columns st) = (4 * n)%nat /\
  Forall is_byte (mix_columns st) /\
  inv_mix_columns (mix_columns st) = st.
Proof.
  induction n as [|n IH]; intros st Hlen Hst.
  - destruct st; [|discriminate]. repeat split; constructor.
  - destruct st as [|a [|b [|c [|d rest]]]]; try (simpl in Hlen; lia).
    inversion Hst as [|? ? Ha H1]; subst.
    inversion H1 as [|? ? Hb H2]; subst.
    inversion H2 as [|? ? Hc H3]; subst.
    inversion H3 as [|? ? Hd Hrest]; subst.
    destruct (IH rest) as (L & B & I); [simpl in Hlen; lia|assumption|].
    change (mix_columns (a :: b :: c :: d :: rest))
      with (mix_column a b c d ++ mix_columns rest).
    repeat split.
    + rewrite length_app, L. unfold mix_column. simpl. lia.
    + apply Forall_app. split; [apply mix_column_bytes; assumption|exact B].
    + rewrite inv_mix_column_app, inv_mix_mix_column, I by assumption.
      reflexivity.
Qed.

(** *** Blocks *)


Lemma xor_bytes_length a : forall b,
  length a = length b -> length (xor_bytes a b) = length a.
Proof.
  induction a as [|x a IH]; intros [|y b] H; simpl in *; try discriminate;
    [reflexivity|]. f_equal. apply IH. lia.
Qed.

Lemma xor_bytes_bytes a : forall b,
  Forall is_byte a -> Forall is_byte b -> Forall is_byte (xor_bytes a b).
Proof.
  induction a as [|x a IH]; intros [|y b] Ha Hb; simpl; try constructor.
  - inversion Ha; inversion Hb; subst. apply lxor_byte; assumption.
  - inversion Ha; inversion Hb; subst. apply IH; assumption.
Qed.

Lemma xor_bytes_cancel a : forall b,
  length a = length b -> xor_bytes (xor_bytes a b) b = a.
Proof.
  induction a as [|x a IH]; intros [|y b] H; simpl in *; try discriminate;
    [reflexivity|].
  rewrite Z.lxor_assoc, Z.lxor_nilpotent, Z.lxor_0_r. f_equal.
  apply IH. lia.
Qed.

Lemma add_round_key_block st k : block st -> block k ->
  block (add_round_key st k).
Proof.
  intros [L B] [L' B']. split.
  - unfold add_round_key. rewrite xor_bytes_length; congruence.
  - apply xor_bytes_bytes; assumption.
Qed.

Lemma add_round_key_cancel st k : block st -> block k ->
  add_round_key (add_round_key st k) k = st.
Proof. intros [L _] [L' _]. apply xor_bytes_cancel. congruence. Qed.

Lemma sub_bytes_block st : block st -> block (sub_bytes st).
Proof.
  intros [L B]. split.
  - unfold sub_bytes. rewrite length_map. exact L.
  - unfold sub_bytes. apply Forall_map.
    eapply Forall_impl; [|exact B]. apply sbox_byte.
Qed.

Lemma inv_sub_bytes_sub_bytes st : Forall is_byte st ->
  inv_sub_bytes (sub_bytes st) = st.
Proof.
  intros B. unfold inv_sub_bytes, sub_bytes. rewrite map_map.
  induction B as [|x st Hx _ IH]; simpl; [reflexivity|].
  rewrite inv_sbox_sbox, IH by assumption. reflexivity.
Qed.

Ltac sixteen st L :=
  do 16 (destruct st as [|? st]; [discriminate L|]);
  destruct st; [clear L|discriminate L].

Lemma shift_rows_block st : block st -> block (shift_rows st).
Proof.
  intros [L B]. split; [reflexivity|].
  unfold shift_rows, pick. apply Forall_map, Forall_forall.
  intros i Hi. rewrite Forall_forall in B. apply B, nth_In.
  rewrite L. simpl in Hi. lia.
Qed.

Lemma inv_shift_rows_shift_rows st : length st = 16%nat ->
  inv_shift_rows (shift_rows st) = st.
Proof. intros L. sixteen st L. reflexivity. Qed.

Lemma mix_columns_block st : block st -> block (mix_columns st).
Proof.
  intros [L B]. destruct (mix_columns_shape 4 st L B) as (L' & B' & _).
  split; assumption.
Qed.

Lemma inv_mix_columns_mix_columns st : block st ->
  inv_mix_columns (mix_columns st) = st.
Proof. intros [L B]. apply (mix_columns_shape 4 st L B). Qed.

(** *** The rounds *)

Lemma rounds_spec rks : Forall block rks -> forall st, block st ->
  block (rounds rks st) /\ inv_rounds rks (rounds rks st) = st.
Proof.
  induction 1 as [|k more Hk Hmore IH]; intros st Hst; [split; [exact Hst|reflexivity]|].
  destruct more as [|k' more'].
  - cbn [rounds inv_rounds].
    assert (B1 := sub_bytes_block _ Hst).
    assert (B2 := shift_rows_block _ B1).
    split; [apply add_round_key_block; assumption|].
    rewrite add_round_key_cancel by assumption.
    rewrite inv_shift_rows_shift_rows by apply B1.
    apply inv_sub_bytes_sub_bytes, Hst.
  - assert (B1 := sub_bytes_block _ Hst).
    assert (B2 := shift_rows_block _ B1).
    assert (B3 := mix_columns_block _ B2).
    assert (B4 := add_round_key_block _ _ B3 Hk).
    destruct (IH _ B4) as [B5 I5].
    change (rounds (k :: k' :: more') st)
      with (rounds (k' :: more')
              (add_round_key (mix_columns (shift_rows (sub_bytes st))) k)).
    change (inv_rounds (k :: k' :: more') ?x)
      with (inv_sub_bytes (inv_shift_rows (inv_mix_columns
              (add_round_key (inv_rounds (k' :: more') x) k)))).
    split; [exact B5|].
    rewrite I5, add_round_key_cancel, inv_mix_columns_mix_columns by assumption.
    rewrite inv_shift_rows_shift_rows by apply B1.
    apply inv_sub_bytes_sub_bytes, Hst.
Qed.

Lemma inv_cipher_cipher rks st : Forall block rks -> block st ->
  inv_cipher rks (cipher rks st) = st /\ block (cipher rks st).
Proof.
  intros Hr Hst. destruct rks as [|k0 more]; [split; [reflexivity|exact Hst]|].
  inversion Hr as [|? ? Hk Hmore]; subst.
  assert (B := add_round_key_block _ _ Hst Hk).
  destruct (rounds_spec more Hmore _ B) as [B' I].
  cbn [cipher inv_cipher]. rewrite I. split; [|exact B'].
  apply add_round_key_cancel; assumption.
Qed.


(** *** The key schedule *)


Lemma Forall_firstn {A} (P : A -> Prop) n l : Forall P l -> Forall P (firstn n l).
Proof.
  intros H. rewrite Forall_forall in *. intros x Hx.
  apply H. rewrite <- (firstn_skipn n l). apply in_or_app. left. exact Hx.
Qed.

Lemma Forall_skipn {A} (P : A -> Prop) n l : Forall P l -> Forall P (skipn n l).
Proof.
  intros H. rewrite Forall_forall in *. intros x Hx.
  apply H. rewrite <- (firstn_skipn n l). apply in_or_app. right. exact Hx.
Qed.

Lemma words_spec n : forall bs,
  length bs = (4 * n)%nat -> Forall is_byte bs ->
  Forall word (words n bs) /\ length (words n bs) = n.
Proof.
  induction n as [|n IH]; intros bs L B; cbn [words];
    [split; [constructor|reflexivity]|].
  destruct (IH (skipn 4 bs)) as [W Ln].
  - rewrite length_skipn. lia.
  - apply Forall_skipn, B.
  - split; [|cbn [length]; rewrite Ln; reflexivity]. constructor; [|exact W]. split.
    + rewrite length_firstn. lia.
    + apply Forall_firstn, B.
Qed.

Lemma word_xor a b : word a -> word b -> word (xor_bytes a b).
Proof.
  intros [La Ba] [Lb Bb]. split.
  - rewrite xor_bytes_length; congruence.
  - apply xor_bytes_bytes; assumption.
Qed.

Lemma word_sub w : word w -> word (sub_word w).
Proof.
  intros [L B]. split; unfold sub_word.
  - rewrite length_map. exact L.
  - apply Forall_map. eapply Forall_impl; [|exact B]. apply sbox_byte.
Qed.

Lemma word_rot w : word w -> word (rot_word w).
Proof.
  intros [L B]. destruct w as [|a r]; [discriminate|]. simpl. split.
  - rewrite length_app. simpl in *. lia.
  - inversion B; subst. apply Forall_app. split; [assumption|].
    constructor; [assumption|constructor].
Qed.

Lemma word_rcon i : word (rcon i).
Proof.
  split; [reflexivity|]. unfold rcon.
  repeat apply Forall_cons; try apply Forall_nil; try (unfold is_byte; lia).
  do 8 (destruct i as [|i]; [simpl; unfold is_byte; lia|]).
  simpl. destruct i; unfold is_byte; lia.
Qed.

Lemma word_nth i ws : Forall word ws -> (i < length ws)%nat -> word (nth i ws []).
Proof. intros H Hi. rewrite Forall_forall in H. apply H, nth_In, Hi. Qed.

Lemma expand_spec fuel : forall i ws,
  Forall word ws -> (8 <= length ws)%nat ->
  Forall word (expand fuel i ws) /\
  length (expand fuel i ws) = (fuel + length ws)%nat.
Proof.
  induction fuel as [|fuel IH]; intros i ws W L; [split; [exact W|reflexivity]|].
  cbn [expand].
  assert (P := word_nth 0 ws W ltac:(lia)).
  assert (Q := word_nth 7 ws W ltac:(lia)).
  match goal with
  | |- context [expand fuel (S i) (?w :: ws)] =>
      destruct (IH (S i) (w :: ws)) as [W' L']
  end.
  - constructor; [|exact W]. apply word_xor; [exact Q|].
    destruct (i mod 8 =? 0)%nat.
    + apply word_xor; [apply word_sub, word_rot, P|apply word_rcon].
    + destruct (i mod 8 =? 4)%nat; [apply word_sub, P|exact P].
  - simpl. lia.
  - split; [exact W'|]. rewrite L'. simpl. lia.
Qed.

Lemma group_keys_spec n : forall ws,
  Forall word ws -> length ws = (4 * n)%nat -> Forall block (group_keys n ws).
Proof.
  induction n as [|n IH]; intros ws W L; simpl; [constructor|].
  destruct ws as [|w1 [|w2 [|w3 [|w4 rest]]]]; try (simpl in L; lia).
  inversion W as [|? ? [L1 B1] W1]; subst.
  inversion W1 as [|? ? [L2 B2] W2]; subst.
  inversion W2 as [|? ? [L3 B3] W3]; subst.
  inversion W3 as [|? ? [L4 B4] W4]; subst.
  constructor.
  - split.
    + simpl. rewrite !length_app, L1, L2, L3, L4. reflexivity.
    + simpl. rewrite app_nil_r. repeat (apply Forall_app; split); assumption.
  - apply IH; [exact W4|]. simpl in L. lia.
Qed.


Lemma round_keys_blocks key : valid_key key -> Forall block (round_keys key).
Proof.
  intros [L B]. unfold round_keys, key_expansion.
  destruct (words_spec 8 key L B) as [W Lw].
  destruct (expand_spec 52 8 (rev (words 8 key))) as [W' L'].
  - apply Forall_rev, W.
  - rewrite length_rev. lia.
  - apply group_keys_spec.
    + apply Forall_rev, W'.
    + rewrite length_rev, L', length_rev, Lw. reflexivity.
Qed.

Theorem decrypt_encrypt_block key st : valid_key key -> block st ->
  decrypt_block key (encrypt_block key st) = st.
Proof.
  intros K B. apply inv_cipher_cipher; [apply round_keys_blocks, K|exact B].
Qed.

Lemma encrypt_block_block key st : valid_key key -> block st ->
  block (encrypt_block key st).
Proof.
  intros K B. apply inv_cipher_cipher; [apply round_keys_blocks, K|exact B].
Qed.

End AESFacts.

Ltac zsolve := Z.div_mod_to_equations; lia.

Ltac zbool :=
  repeat match goal with
  | |- context [?a <=? ?b] =>
      first [ rewrite (proj2 (Z.leb_le a b)) by zsolve
            | rewrite (proj2 (Z.leb_gt a b)) by zsolve ]
  | |- context [?a <? ?b] =>
      first [ rewrite (proj2 (Z.ltb_lt a b)) by zsolve
            | rewrite (proj2 (Z.ltb_ge a b)) by zsolve ]
  | |- context [?a =? ?b] =>
      first [ rewrite (proj2 (Z.eqb_eq a b)) by zsolve
            | rewrite (proj2 (Z.eqb_neq a b)) by zsolve ]
  end; cbn [andb orb negb].

(** ** Strings *)

Lemma str_eqb_eq a : forall b, str_eqb a b = true <-> a = b.
Proof.
  induction a as [|x a IH]; intros [|y b]; simpl; split; try congruence.
  - rewrite andb_true_iff, Z.eqb_eq, IH. intros [-> ->]. reflexivity.
  - intros H. inversion H; subst. rewrite Z.eqb_refl. apply IH. reflexivity.
Qed.

Lemma str_eqb_refl a : str_eqb a a = true.
Proof. apply str_eqb_eq. reflexivity. Qed.

Lemma str_eqb_neq a b : str_eqb a b = false <-> a <> b.
Proof.
  rewrite <- str_eqb_eq. destruct (str_eqb a b); split; congruence.
Qed.

Lemma split_nonempty sep s : split sep s <> [].
Proof.
  induction s as [|c r IH]; simpl; [discriminate|].
  destruct (c =? sep); [discriminate|]. destruct (split sep r); discriminate.
Qed.

Lemma split_none sep a : ~ In sep a -> split sep a = [a].
Proof.
  induction a as [|c r IH]; intros H; simpl; [reflexivity|].
  destruct (Z.eqb_spec c sep) as [->|_]; [exfalso; apply H; left; reflexivity|].
  rewrite IH; [reflexivity|]. intros Hin. apply H. right. exact Hin.
Qed.

Lemma split_app sep a b : ~ In sep a ->
  split sep (a ++ sep :: b) = a :: split sep b.
Proof.
  induction a as [|c r IH]; intros H; simpl.
  - rewrite Z.eqb_refl. reflexivity.
  - destruct (Z.eqb_spec c sep) as [->|_]; [exfalso; apply H; left; reflexivity|].
    rewrite IH; [reflexivity|]. intros Hin. apply H. right. exact Hin.
Qed.

(** ** Hexadecimal *)

Module HexFacts.
Import Hex.

Lemma unhex_digit n : 0 <= n < 16 -> unhex (digit n) = Some n.
Proof.
  intros H. unfold unhex, digit. destruct (Z.ltb_spec n 10).
  - zbool. f_equal. lia.
  - zbool. f_equal. lia.
Qed.

Lemma digit_octet n : 0 <= n < 16 -> digit n mod 256 = digit n.
Proof.
  intros H. apply Z.mod_small. unfold digit. destruct (Z.ltb_spec n 10); lia.
Qed.

Lemma value_digit n : 0 <= n < 16 -> value (digit n) = Some n.
Proof.
  intros H. unfold value. rewrite digit_octet by exact H.
  apply unhex_digit, H.
Qed.

(** A unit and the octet it is narrowed to stand for the same digit. *)
Lemma value_low_octet c k : value (c + 256 * k) = value c.
Proof.
  unfold value. f_equal.
  rewrite Z.mul_comm, Z.mod_add by lia. reflexivity.
Qed.

Lemma unhex_range b v : unhex b = Some v -> 0 <= v < 16.
Proof.
  unfold unhex.
  destruct (Z.leb_spec 48 b); destruct (Z.leb_spec b 57); cbn [andb];
    try (intros [= <-]; lia);
  destruct (Z.leb_spec 97 b); destruct (Z.leb_spec b 102); cbn [andb];
    try (intros [= <-]; lia);
  destruct (Z.leb_spec 65 b); destruct (Z.leb_spec b 70); cbn [andb];
    try (intros [= <-]; lia); discriminate.
Qed.

Lemma digit_not_colon n : 0 <= n < 16 -> digit n <> colon.
Proof. intros H. unfold digit, colon. destruct (Z.ltb_spec n 10); lia. Qed.

Lemma hex_decode_encode bs : Forall is_byte bs -> decode (encode bs) = bs.
Proof.
  induction 1 as [|b bs Hb _ IH]; [reflexivity|].
  unfold is_byte in Hb. unfold encode in *. cbn [flat_map ofByte app decode].
  rewrite !value_digit by zsolve. rewrite IH. f_equal. zsolve.
Qed.

Lemma encode_no_colon bs : Forall is_byte bs -> ~ In colon (encode bs).
Proof.
  induction 1 as [|b bs Hb _ IH]; [intros []|].
  unfold is_byte in Hb. unfold encode in *. cbn [flat_map ofByte app].
  intros [H|[H|H]]; [| |exact (IH H)];
    revert H; apply digit_not_colon; zsolve.
Qed.

Lemma encode_length bs : length (encode bs) = (2 * length bs)%nat.
Proof.
  induction bs as [|b bs IH]; [reflexivity|].
  unfold encode in *. cbn [flat_map ofByte app length]. rewrite IH. lia.
Qed.

Lemma encode_even bs : Nat.odd (length (encode bs)) = false.
Proof.
  rewrite encode_length, <- Nat.negb_even, Nat.even_mul. reflexivity.
Qed.

End HexFacts.

(** ** Padding and chaining *)

Module CbcFacts.
Import AES Cbc AESFacts.

Lemma pad_length bs :
  (length (pad bs) mod 16 = 0)%nat /\ (16 <= length (pad bs))%nat.
Proof.
  unfold pad. rewrite length_app, repeat_length.
  pose proof (Nat.mod_upper_bound (length bs) 16 ltac:(lia)) as U.
  pose proof (Nat.div_mod_eq (length bs) 16) as E.
  split; [|lia].
  replace (length bs + (16 - length bs mod 16))%nat
    with ((1 + length bs / 16) * 16)%nat by lia.
  apply Nat.Div0.mod_mul.
Qed.

Lemma pad_bytes bs : Forall is_byte bs -> Forall is_byte (pad bs).
Proof.
  intros B. unfold pad. apply Forall_app. split; [exact B|].
  pose proof (Nat.mod_upper_bound (length bs) 16 ltac:(lia)) as U.
  apply Forall_forall. intros x Hx. apply repeat_spec in Hx. subst.
  unfold is_byte. lia.
Qed.

Lemma last_app_repeat {A} (bs : list A) x n d :
  (0 < n)%nat -> last (bs ++ repeat x n) d = x.
Proof.
  intros Hn. destruct n as [|n]; [lia|].
  replace (repeat x (S n)) with (repeat x n ++ [x]).
  - rewrite app_assoc. apply last_last.
  - clear. induction n as [|n IH]; [reflexivity|].
    simpl in *. rewrite IH. reflexivity.
Qed.

Lemma unpad_pad bs : unpad (pad bs) = Some bs.
Proof.
  unfold unpad, pad.
  pose proof (Nat.mod_upper_bound (length bs) 16 ltac:(lia)) as U.
  set (n := (16 - length bs mod 16)%nat) in *.
  assert (Hn : (0 < n <= 16)%nat) by (subst n; lia).
  rewrite last_app_repeat by lia.
  rewrite length_app, repeat_length, Nat2Z.id.
  replace (length bs + n - n)%nat with (length bs) by lia.
  rewrite skipn_app, firstn_app, Nat.sub_diag, skipn_all, firstn_all.
  cbn [skipn firstn app]. rewrite app_nil_r.
  replace (forallb (Z.eqb (Z.of_nat n)) (repeat (Z.of_nat n) n)) with true.
  - zbool. reflexivity.
  - symmetry. apply forallb_forall. intros x Hx.
    apply repeat_spec in Hx. subst. apply Z.eqb_refl.
Qed.

Lemma blocks_spec n : forall bs,
  length bs = (16 * n)%nat -> Forall is_byte bs ->
  Forall block (blocks n bs) /\ concat (blocks n bs) = bs.
Proof.
  induction n as [|n IH]; intros bs L B; cbn [blocks].
  - destruct bs; [split; [constructor|reflexivity]|discriminate].
  - destruct (IH (skipn 16 bs)) as [F E].
    + rewrite length_skipn. lia.
    + apply Forall_skipn, B.
    + split.
      * constructor; [|exact F]. split.
        -- rewrite length_firstn. lia.
        -- apply Forall_firstn, B.
      * cbn [concat]. rewrite E. apply firstn_skipn.
Qed.

Lemma blocks_concat bl : Forall block bl ->
  blocks (length bl) (concat bl) = bl /\
  length (concat bl) = (16 * length bl)%nat /\
  Forall is_byte (concat bl).
Proof.
  induction 1 as [|b bl [L B] _ (IH1 & IH2 & IH3)];
    [repeat split; constructor|].
  cbn [concat length blocks]. repeat split.
  - rewrite firstn_app, skipn_app, L, Nat.sub_diag, firstn_all2, skipn_all2
      by lia.
    cbn [firstn skipn app]. rewrite app_nil_r, IH1. reflexivity.
  - rewrite length_app, L, IH2. lia.
  - apply Forall_app. split; assumption.
Qed.

Lemma chunks_spec bs :
  (length bs mod 16 = 0)%nat -> Forall is_byte bs ->
  Forall block (chunks bs) /\ concat (chunks bs) = bs.
Proof.
  intros L B. unfold chunks. apply blocks_spec; [|exact B].
  pose proof (Nat.div_mod_eq (length bs) 16). lia.
Qed.

Lemma chunks_concat bl : Forall block bl -> chunks (concat bl) = bl.
Proof.
  intros F. destruct (blocks_concat bl F) as (E & L & _).
  unfold chunks. rewrite L.
  replace (16 * length bl / 16)%nat with (length bl); [exact E|].
  rewrite Nat.mul_comm, Nat.div_mul; lia.
Qed.

Section Chaining.
Variables E D : bytes -> bytes.
Hypothesis E_block : forall b, block b -> block (E b).
Hypothesis D_E : forall b, block b -> D (E b) = b.

Lemma xor_block a b : block a -> block b -> block (AES.xor_bytes a b).
Proof. apply add_round_key_block. Qed.

Lemma encrypt_blocks ps : forall prev,
  Forall block ps -> block prev -> Forall block (encrypt E prev ps).
Proof.
  induction ps as [|p r IH]; intros prev F P; [constructor|].
  inversion F; subst. cbn [encrypt].
  assert (B : block (E (AES.xor_bytes p prev)))
    by (apply E_block, xor_block; assumption).
  constructor; [exact B|]. apply IH; assumption.
Qed.

Lemma cbc_decrypt_encrypt ps : forall prev,
  Forall block ps -> block prev ->
  decrypt D prev (encrypt E prev ps) = ps.
Proof.
  induction ps as [|p r IH]; intros prev F P; [reflexivity|].
  inversion F; subst. cbn [encrypt decrypt].
  assert (X : block (AES.xor_bytes p prev)) by (apply xor_block; assumption).
  rewrite D_E by exact X.
  change (AES.xor_bytes (AES.xor_bytes p prev) prev)
    with (AES.add_round_key (AES.add_round_key p prev) prev).
  rewrite (add_round_key_cancel p prev) by assumption.
  rewrite IH; [reflexivity|assumption|apply E_block, X].
Qed.

Lemma encrypt_length ps : forall prev,
  length (encrypt E prev ps) = length ps.
Proof. induction ps; intros; simpl; [reflexivity|]. f_equal. auto. Qed.
End Chaining.

Lemma seal_shape key iv data :
  valid_key key -> block iv -> Forall is_byte data ->
  Forall is_byte (seal key iv data) /\
  (length (seal key iv data) mod 16 = 0)%nat /\
  (16 <= length (seal key iv data))%nat.
Proof.
  intros K I B. unfold seal.
  destruct (pad_length data) as [M G].
  destruct (chunks_spec (pad data) M (pad_bytes _ B)) as [F C].
  pose proof (encrypt_blocks (AES.encrypt_block key)
                (fun b => encrypt_block_block key b K) _ iv F I) as F'.
  destruct (blocks_concat _ F') as (_ & L & B').
  rewrite encrypt_length in L.
  assert (Lc : length (pad data) = (16 * length (chunks (pad data)))%nat).
  { rewrite <- C at 1. apply (blocks_concat _ F). }
  repeat split; [exact B'| |lia].
  rewrite L, Nat.mul_comm. apply Nat.Div0.mod_mul.
Qed.

Theorem open_seal key iv data :
  valid_key key -> block iv -> Forall is_byte data ->
  open key iv (seal key iv data) = Ok data.
Proof.
  intros K I B.
  destruct (seal_shape key iv data K I B) as (_ & M & G).
  unfold open.
  replace (length (seal key iv data) =? 0)%nat with false
    by (symmetry; apply Nat.eqb_neq; lia).
  rewrite M. cbn [Nat.eqb negb orb].
  unfold seal.
  destruct (pad_length data) as [M' G'].
  destruct (chunks_spec (pad data) M' (pad_bytes _ B)) as [F C].
  rewrite chunks_concat
    by (apply encrypt_blocks;
        [intros; apply encrypt_block_block; assumption|assumption|assumption]).
  rewrite cbc_decrypt_encrypt; try assumption.
  - rewrite C, unpad_pad. reflexivity.
  - intros; apply encrypt_block_block; assumption.
  - intros; apply decrypt_encrypt_block; assumption.
Qed.

End CbcFacts.

Module Utf8Facts.
Import Utf8.

Lemma decode_from_cons st b r :
  decode_from st (b :: r)
  = fst (step st b) ++ decode_from (snd (step st b)) r.
Proof. cbn [decode_from]. destruct (step st b). reflexivity. Qed.

Lemma surrogate_tests u :
  is_high u = false -> is_low u = false -> ~ (0xD800 <= u <= 0xDFFF).
Proof.
  unfold is_high, is_low. rewrite !andb_false_iff, !Z.leb_gt. lia.
Qed.

Lemma is_high_spec u : is_high u = true <-> 0xD800 <= u <= 0xDBFF.
Proof. unfold is_high. rewrite andb_true_iff, !Z.leb_le. reflexivity. Qed.

Lemma is_low_spec u : is_low u = true <-> 0xDC00 <= u <= 0xDFFF.
Proof. unfold is_low. rewrite andb_true_iff, !Z.leb_le. reflexivity. Qed.

Lemma decode_1 u rest : 0 <= u < 0x80 ->
  decode_from Idle (u :: rest) = u :: decode_from Idle rest.
Proof.
  intros H. rewrite decode_from_cons. unfold step, lead. zbool. reflexivity.
Qed.

Lemma decode_2 u rest : 0x80 <= u < 0x800 ->
  decode_from Idle ((0xC0 + u / 64) :: (0x80 + u mod 64) :: rest)
  = u :: decode_from Idle rest.
Proof.
  intros H. rewrite decode_from_cons. unfold step at 1 2, lead. zbool.
  cbn [fst snd app]. rewrite decode_from_cons. unfold step. zbool.
  unfold units_of_cp. zbool. cbn [fst snd app]. f_equal. zsolve.
Qed.

Lemma decode_3 u rest : 0x800 <= u < 0x10000 -> ~ (0xD800 <= u <= 0xDFFF) ->
  decode_from Idle (encode3 u ++ rest) = u :: decode_from Idle rest.
Proof.
  intros H S. unfold encode3. cbn [app].
  rewrite decode_from_cons. unfold step at 1 2, lead. zbool. cbn [fst snd app].
  rewrite decode_from_cons. unfold step at 1 2.
  destruct (Z.eqb_spec (0xE0 + u / 4096) 0xE0);
  destruct (Z.eqb_spec (0xE0 + u / 4096) 0xED); zbool; cbn [fst snd app];
    rewrite decode_from_cons; unfold step; zbool;
    unfold units_of_cp; zbool; cbn [fst snd app]; f_equal; zsolve.
Qed.

Lemma decode_4 cp rest : 0x10000 <= cp < 0x110000 ->
  decode_from Idle (encode4 cp ++ rest) = units_of_cp cp ++ decode_from Idle rest.
Proof.
  intros H. unfold encode4. cbn [app].
  rewrite decode_from_cons. unfold step at 1 2, lead. zbool. cbn [fst snd app].
  rewrite decode_from_cons. unfold step at 1 2.
  destruct (Z.eqb_spec (0xF0 + cp / 262144) 0xF0);
  destruct (Z.eqb_spec (0xF0 + cp / 262144) 0xF4); zbool; cbn [fst snd app];
    rewrite decode_from_cons; unfold step at 1 2; zbool; cbn [fst snd app];
    rewrite decode_from_cons; unfold step; zbool; cbn [fst snd app];
    f_equal; f_equal; zsolve.
Qed.

Lemma units_of_pair u v : 0xD800 <= u <= 0xDBFF -> 0xDC00 <= v <= 0xDFFF ->
  units_of_cp (0x10000 + (u - 0xD800) * 1024 + (v - 0xDC00)) = [u; v].
Proof.
  intros Hu Hv. unfold units_of_cp. zbool. f_equal; [|f_equal]; zsolve.
Qed.

(** Decoding what was encoded gives the string back, when every surrogate
    of the string is paired. *)
Lemma decode_encode_upto n : forall s, (length s <= n)%nat ->
  well_formed s = true -> decode (encode s) = s.
Proof.
  unfold decode.
  induction n as [|n IH]; intros s L W.
  - destruct s; [reflexivity|simpl in L; lia].
  - destruct s as [|u rest]; [reflexivity|].
    cbn [well_formed] in W. rewrite !andb_true_iff in W.
    destruct W as [[U0 U1] W]. apply Z.leb_le in U0. apply Z.ltb_lt in U1.
    cbn [encode].
    destruct (Z.ltb_spec u 0x80).
    { destruct (is_high u) eqn:Hh;
        [apply is_high_spec in Hh; lia|].
      rewrite andb_true_iff in W. destruct W as [_ W].
      rewrite decode_1 by lia. f_equal. apply IH; [simpl in L; lia|exact W]. }
    destruct (Z.ltb_spec u 0x800).
    { destruct (is_high u) eqn:Hh;
        [apply is_high_spec in Hh; lia|].
      rewrite andb_true_iff in W. destruct W as [_ W].
      rewrite decode_2 by lia. f_equal. apply IH; [simpl in L; lia|exact W]. }
    destruct (is_high u) eqn:Hh.
    { destruct rest as [|v rest']; [discriminate|].
      rewrite andb_true_iff in W. destruct W as [Hl W]. rewrite Hl.
      apply is_high_spec in Hh. apply is_low_spec in Hl.
      rewrite decode_4 by lia. rewrite units_of_pair by assumption.
      cbn [app]. do 2 f_equal. apply IH; [simpl in L; lia|exact W]. }
    rewrite andb_true_iff in W. destruct W as [Hl W].
    apply negb_true_iff in Hl. rewrite Hl.
    rewrite decode_3; [|lia|apply surrogate_tests; assumption].
    f_equal. apply IH; [simpl in L; lia|exact W].
Qed.

Theorem utf8_decode_encode s : well_formed s = true -> decode (encode s) = s.
Proof. apply (decode_encode_upto (length s)). lia. Qed.

(** Encoding yields octets. *)
Lemma encode_bytes_upto n : forall s, (length s <= n)%nat ->
  Forall is_unit s -> Forall is_byte (encode s).
Proof.
  induction n as [|n IH]; intros s L U.
  - destruct s; [constructor|simpl in L; lia].
  - destruct s as [|u rest]; [constructor|].
    inversion U as [|? ? Hu Ur]; subst. unfold is_unit in Hu.
    assert (R : Forall is_byte (encode rest)) by (apply IH; [simpl in L; lia|exact Ur]).
    assert (RB : Forall is_byte replacement_bytes).
    { unfold replacement_bytes. repeat apply Forall_cons; try apply Forall_nil;
        unfold is_byte; lia. }
    cbn [encode].
    destruct (Z.ltb_spec u 0x80);
      [apply Forall_cons; [unfold is_byte; lia|exact R]|].
    destruct (Z.ltb_spec u 0x800);
      [repeat apply Forall_cons; try exact R; unfold is_byte; zsolve|].
    destruct (is_high u) eqn:Hh.
    + apply is_high_spec in Hh.
      destruct rest as [|v rest']; [exact RB|].
      destruct (is_low v) eqn:Hl.
      * apply is_low_spec in Hl. apply Forall_app. split.
        -- unfold encode4. repeat apply Forall_cons; try apply Forall_nil;
             unfold is_byte; zsolve.
        -- apply IH; [simpl in L; lia|]. inversion Ur; assumption.
      * apply Forall_app. split; assumption.
    + destruct (is_low u); [apply Forall_app; split; assumption|].
      apply Forall_app. split; [|exact R].
      unfold encode3. repeat apply Forall_cons; try apply Forall_nil;
        unfold is_byte; zsolve.
Qed.

Lemma encode_bytes s : Forall is_unit s -> Forall is_byte (encode s).
Proof. apply (encode_bytes_upto (length s)). lia. Qed.

Lemma well_formed_units_upto n : forall s, (length s <= n)%nat ->
  well_formed s = true -> Forall is_unit s.
Proof.
  induction n as [|n IH]; intros s L W.
  - destruct s; [constructor|simpl in L; lia].
  - destruct s as [|u rest]; [constructor|].
    cbn [well_formed] in W. rewrite !andb_true_iff in W.
    destruct W as [[U0 U1] W]. apply Z.leb_le in U0. apply Z.ltb_lt in U1.
    constructor; [unfold is_unit; lia|].
    destruct (is_high u).
    + destruct rest as [|v rest']; [discriminate|].
      rewrite andb_true_iff in W. destruct W as [Hl W].
      apply is_low_spec in Hl.
      constructor; [unfold is_unit; lia|].
      apply IH; [simpl in L; lia|exact W].
    + rewrite andb_true_iff in W. apply IH; [simpl in L; lia|apply W].
Qed.

Lemma well_formed_units s : well_formed s = true -> Forall is_unit s.
Proof. apply (well_formed_units_upto (length s)). lia. Qed.


(** *** What the decoder emits *)




Lemma emitted_nil b : emitted b [].
Proof. split; [reflexivity|intros u []]. Qed.

Lemma emitted_replacement b : emitted b [replacement].
Proof.
  split; [reflexivity|]. intros u [<-|[]]. right. unfold replacement. lia.
Qed.

Lemma emitted_app b o1 o2 : emitted b o1 -> emitted b o2 -> emitted b (o1 ++ o2).
Proof.
  intros [W1 C1] [W2 C2]. split.
  - intros rest. rewrite <- app_assoc, W1, W2. reflexivity.
  - intros u Hu. apply in_app_or in Hu. destruct Hu; auto.
Qed.

Lemma emitted_cp b cp : 0x80 <= cp <= 0x10FFFF -> ~ (0xD800 <= cp <= 0xDFFF) ->
  emitted b (units_of_cp cp).
Proof.
  intros R S. unfold units_of_cp. destruct (Z.ltb_spec cp 0x10000).
  - split.
    + intros rest. cbn [app well_formed]. unfold is_high, is_low. zbool.
      destruct (Z.leb_spec 0xD800 cp); destruct (Z.leb_spec cp 0xDBFF);
      destruct (Z.leb_spec 0xDC00 cp); destruct (Z.leb_spec cp 0xDFFF);
        cbn [andb negb]; try reflexivity; lia.
    + intros u [<-|[]]. right. lia.
  - split.
    + intros rest. cbn [app well_formed]. unfold is_high, is_low. zbool.
      reflexivity.
    + intros u [<-|[<-|[]]]; right; zsolve.
Qed.

Lemma lead_ok b : 0 <= b ->
  emitted b (fst (lead b)) /\ state_ok (snd (lead b)).
Proof.
  intros Hb. unfold lead.
  destruct (Z.leb_spec b 0x7F).
  { split; [|exact I]. split.
    - intros rest. cbn [fst app well_formed]. unfold is_high, is_low. zbool.
      reflexivity.
    - intros u [<-|[]]. left. reflexivity. }
  destruct (Z.leb_spec 0xC2 b); destruct (Z.leb_spec b 0xDF); cbn [andb];
    try (split; [apply emitted_nil|cbn; unfold ok1; lia]).
  all: destruct (Z.leb_spec 0xE0 b); destruct (Z.leb_spec b 0xEF); cbn [andb];
    try (split; [apply emitted_nil|];
         cbn [snd state_ok];
         destruct (Z.eqb_spec b 0xE0); destruct (Z.eqb_spec b 0xED);
         (split; [lia|]); (split; [lia|]); intros; unfold ok1; lia).
  all: destruct (Z.leb_spec 0xF0 b); destruct (Z.leb_spec b 0xF4); cbn [andb];
    try (split; [apply emitted_nil|];
         cbn [snd state_ok];
         destruct (Z.eqb_spec b 0xF0); destruct (Z.eqb_spec b 0xF4);
         (split; [lia|]); (split; [lia|]); intros; unfold ok1; lia).
  all: split; [apply emitted_replacement|exact I].
Qed.

Lemma step_ok st b : state_ok st -> 0 <= b ->
  emitted b (fst (step st b)) /\ state_ok (snd (step st b)).
Proof.
  intros Hst Hb. destruct st as [|n cp lo hi]; [apply lead_ok, Hb|].
  cbn [step]. destruct Hst as (Hlo & Hhi & Hn).
  destruct (Z.leb_spec lo b); destruct (Z.leb_spec b hi); cbn [andb].
  2-4: destruct (lead b) as [out st'] eqn:E;
       destruct (lead_ok b Hb) as [O S]; rewrite E in O, S;
       (split; [|exact S]);
       apply (emitted_app b [replacement] out);
       [apply emitted_replacement|exact O].
  destruct n as [|[|[|[|n]]]]; try contradiction.
  - split; [|exact I]. cbn [fst]. destruct Hn as [R S].
    apply emitted_cp; lia.
  - split; [apply emitted_nil|]. cbn [snd state_ok].
    split; [lia|]. split; [lia|]. apply Hn. lia.
  - split; [apply emitted_nil|]. cbn [snd state_ok].
    split; [lia|]. split; [lia|]. intros b' Hb'. apply Hn; lia.
Qed.

Theorem decode_from_well_formed bs : forall st,
  state_ok st -> Forall is_byte bs -> well_formed (decode_from st bs) = true.
Proof.
  induction bs as [|b r IH]; intros st Hst B.
  - destruct st; reflexivity.
  - inversion B as [|? ? Hb Br]; subst. rewrite decode_from_cons.
    destruct (step_ok st b Hst ltac:(unfold is_byte in Hb; lia)) as [[W _] S].
    rewrite W. apply IH; assumption.
Qed.

Theorem decode_well_formed bs :
  Forall is_byte bs -> well_formed (decode bs) = true.
Proof. apply decode_from_well_formed. exact I. Qed.

End Utf8Facts.

Import AES AESFacts CbcFacts.

Lemma hex_decode_bytes s : Forall is_byte (Hex.decode s).
Proof.
  assert (V : forall c v, Hex.value c = Some v -> 0 <= v < 16).
  { intros c v. unfold Hex.value. apply HexFacts.unhex_range. }
  assert (G : forall n s, (length s <= n)%nat -> Forall is_byte (Hex.decode s)).
  { induction n as [|n IH]; intros t L.
    - destruct t; [constructor|simpl in L; lia].
    - destruct t as [|c1 [|c2 rest]]; try constructor.
      cbn [Hex.decode].
      destruct (Hex.value c1) as [h|] eqn:E1; [|constructor].
      destruct (Hex.value c2) as [l|] eqn:E2; [|constructor].
      apply V in E1. apply V in E2.
      constructor; [unfold is_byte; lia|]. apply IH. simpl in L. lia. }
  apply (G (length s)). lia.
Qed.

Lemma randomBytes_bytes n g :
  length (fst (randomBytes n g)) = n /\ Forall is_byte (fst (randomBytes n g)).
Proof.
  unfold randomBytes. cbn [fst]. split.
  - rewrite length_map, length_seq. reflexivity.
  - apply Forall_map, Forall_forall. intros i _. unfold is_byte.
    apply Z.mod_pos_bound. lia.
Qed.

Lemma randomBytes_block g : block (fst (randomBytes 16 g)).
Proof. apply randomBytes_bytes. Qed.


Lemma key_ok_valid k : key_ok k -> valid_key (Hex.decode k).
Proof. intros H. split; [exact H|apply hex_decode_bytes]. Qed.


Lemma encryptPrivateKey_ok P K g : key_ok K ->
  encryptPrivateKey P K g
  = Ok (blob_of (fst (randomBytes 16 g))
                (Cbc.seal (Hex.decode K) (fst (randomBytes 16 g)) (Utf8.encode P)),
        snd (randomBytes 16 g)).
Proof.
  intros HK. unfold encryptPrivateKey, bind, draw.
  destruct (randomBytes 16 g) as [iv g'] eqn:E. cbn [fst snd].
  rewrite HK. reflexivity.
Qed.

Lemma split_blob iv ct : Forall is_byte iv ->  Forall is_byte ct ->
  split colon (blob_of iv ct) = [Hex.encode iv; Hex.encode ct].
Proof.
  intros I B. unfold blob_of.
  rewrite split_app by (apply HexFacts.encode_no_colon, I).
  rewrite split_none by (apply HexFacts.encode_no_colon, B). reflexivity.
Qed.

Lemma decryptPrivateKey_blob iv ct K :
  block iv -> Forall is_byte ct -> key_ok K ->
  decryptPrivateKey (blob_of iv ct) K
  = match Cbc.open (Hex.decode K) iv ct with
    | Ok bs => Ok (Utf8.decode bs)
    | Throw e => Throw e
    end.
Proof.
  intros [LI BI] B HK. unfold decryptPrivateKey.
  rewrite split_blob by assumption. cbn [nth nth_error].
  rewrite !HexFacts.hex_decode_encode by assumption.
  rewrite LI, HK, HexFacts.encode_even. reflexivity.
Qed.

Theorem decrypt_encrypt P K g : key_ok K -> Forall is_unit P ->
  forall blob g', encryptPrivateKey P K g = Ok (blob, g') ->
  decryptPrivateKey blob K = Ok (Utf8.decode (Utf8.encode P)).
Proof.
  intros HK U blob g' E. rewrite encryptPrivateKey_ok in E by exact HK.
  injection E as <- _.
  pose proof (randomBytes_block g) as I.
  pose proof (Utf8Facts.encode_bytes P U) as B.
  destruct (seal_shape _ _ _ (key_ok_valid K HK) I B) as (Bs & _ & _).
  rewrite decryptPrivateKey_blob by assumption.
  rewrite open_seal; [reflexivity|apply key_ok_valid, HK|exact I|exact B].
Qed.

(** ** What decryption can return *)

Lemma inv_sbox_byte x : is_byte (AES.inv_sbox x).
Proof.
  unfold AES.inv_sbox.
  assert (T : Forall is_byte AES.inv_sbox_table).
  { apply Forall_forall. intros y Hy. apply byteb_spec.
    revert y Hy. apply forallb_forall. vm_compute. reflexivity. }
  destruct (Nat.lt_ge_cases (Z.to_nat x) (length AES.inv_sbox_table)) as [L|L].
  - rewrite Forall_forall in T. apply T, nth_In, L.
  - rewrite nth_overflow by exact L. unfold is_byte. lia.
Qed.

Lemma inv_rounds_bytes rks st : rks <> [] ->
  Forall is_byte (AES.inv_rounds rks st).
Proof.
  intros H. destruct rks as [|k [|k' more]]; [contradiction| |];
    cbn [AES.inv_rounds]; unfold AES.inv_sub_bytes;
    apply Forall_map, Forall_forall; intros; apply inv_sbox_byte.
Qed.

Lemma group_keys_length n : forall ws, length (AES.group_keys n ws) = n.
Proof. induction n as [|n IH]; intros ws; simpl; [reflexivity|]. f_equal. apply IH. Qed.

Lemma inv_cipher_bytes rks c :
  (2 <= length rks)%nat -> Forall AES.block rks ->
  Forall is_byte (AES.inv_cipher rks c).
Proof.
  intros L F. destruct rks as [|k0 [|k1 more]]; try (simpl in L; lia).
  apply Forall_inv in F. destruct F as [_ B0].
  cbn [AES.inv_cipher]. apply AESFacts.xor_bytes_bytes; [|exact B0].
  apply inv_rounds_bytes. discriminate.
Qed.

Lemma decrypt_block_bytes key c : AES.valid_key key ->
  Forall is_byte (AES.decrypt_block key c).
Proof.
  intros K. apply inv_cipher_bytes.
  - unfold AES.round_keys. rewrite group_keys_length. lia.
  - apply AESFacts.round_keys_blocks, K.
Qed.

Lemma blocks_bytes n : forall bs, Forall is_byte bs ->
  Forall (Forall is_byte) (Cbc.blocks n bs).
Proof.
  induction n as [|n IH]; intros bs B; cbn [Cbc.blocks]; constructor.
  - apply AESFacts.Forall_firstn, B.
  - apply IH, AESFacts.Forall_skipn, B.
Qed.

Lemma cbc_decrypt_bytes D cs : (forall c, Forall is_byte (D c)) ->
  forall prev, Forall is_byte prev -> Forall (Forall is_byte) cs ->
  Forall is_byte (concat (Cbc.decrypt D prev cs)).
Proof.
  intros HD. induction cs as [|c r IH]; intros prev P F; [constructor|].
  inversion F; subst. cbn [Cbc.decrypt concat]. apply Forall_app. split.
  - apply AESFacts.xor_bytes_bytes; [apply HD|exact P].
  - apply IH; assumption.
Qed.

Lemma open_bytes key iv data bs :
  AES.valid_key key -> Forall is_byte iv -> Forall is_byte data ->
  Cbc.open key iv data = Ok bs -> Forall is_byte bs.
Proof.
  intros K I B. unfold Cbc.open.
  destruct (_ || _); [discriminate|].
  set (pt := concat _).
  assert (Forall is_byte pt).
  { apply cbc_decrypt_bytes; [intros; apply decrypt_block_bytes, K|exact I|].
    apply blocks_bytes, B. }
  unfold Cbc.unpad. destruct (_ && _); [|discriminate].
  intros [= <-]. apply AESFacts.Forall_firstn. assumption.
Qed.

(** Whatever [decryptPrivateKey] returns is a well-formed string. *)
Theorem decryptPrivateKey_well_formed blob K s :
  decryptPrivateKey blob K = Ok s -> Utf8.well_formed s = true.
Proof.
  unfold decryptPrivateKey.
  destruct (negb (length (Hex.decode (nth 0 (split colon blob) [])) =? 16)%nat);
    [discriminate|].
  destruct (length (Hex.decode K) =? 32)%nat eqn:EK; [|discriminate].
  cbn [negb]. apply Nat.eqb_eq in EK.
  destruct (nth_error (split colon blob) 1) as [enc|]; [|discriminate].
  destruct (Nat.odd (length enc)); [discriminate|].
  destruct (Cbc.open _ _ _) as [bs|e] eqn:O; [|discriminate].
  intros [= <-]. apply Utf8Facts.decode_well_formed.
  eapply open_bytes; [| | |exact O]; try apply hex_decode_bytes.
  split; [exact EK|apply hex_decode_bytes].
Qed.

(** A well-formed string comes back from its own encryption. *)
Theorem decrypt_encrypt_well_formed P K g blob g' :
  key_ok K -> Utf8.well_formed P = true ->
  encryptPrivateKey P K g = Ok (blob, g') ->
  decryptPrivateKey blob K = Ok P.
Proof.
  intros HK W E.
  rewrite (decrypt_encrypt P K g HK (Utf8Facts.well_formed_units P W) blob g' E).
  rewrite Utf8Facts.utf8_decode_encode by exact W. reflexivity.
Qed.

(** ** Counting commas: the Solana secret key never comes back *)

Module SolanaFacts.

Local Abbreviation cz := (count_occ Z.eq_dec).

Lemma split_length sep s : length (split sep s) = S (cz s sep).
Proof.
  induction s as [|c r IH]; [reflexivity|]. cbn [split count_occ].
  destruct (Z.eqb_spec c sep) as [->|N].
  - destruct (Z.eq_dec sep sep); [|congruence]. cbn [length]. rewrite IH. reflexivity.
  - destruct (Z.eq_dec c sep); [congruence|].
    destruct (split sep r) as [|p ps] eqn:E; [discriminate|]. exact IH.
Qed.

Lemma split_nonempty_parts sep s :
  (length (filter truthy (split sep s)) + cz s sep <= length s)%nat.
Proof.
  induction s as [|c r IH]; [simpl; lia|]. cbn [split count_occ].
  destruct (Z.eqb_spec c sep) as [->|N].
  - destruct (Z.eq_dec sep sep); [|congruence]. cbn [filter truthy length]. lia.
  - destruct (Z.eq_dec c sep); [congruence|].
    destruct (split sep r) as [|p ps] eqn:E.
    + cbn [filter truthy length] in *. lia.
    + cbn [filter truthy length] in *. destruct (truthy p); cbn [length] in *; lia.
Qed.

Lemma empty_parts_give_zeros (f : jsstring -> Z) parts : f [] = 0 ->
  (length (filter (fun p => negb (truthy p)) parts) <= cz (map f parts) 0%Z)%nat.
Proof.
  intros F. induction parts as [|p ps IH]; [simpl; lia|].
  cbn [filter map count_occ]. destruct p as [|u p].
  - cbn [truthy negb length]. rewrite F.
    destruct (Z.eq_dec 0 0); [lia|congruence].
  - cbn [truthy negb]. destruct (Z.eq_dec (f (u :: p)) 0); lia.
Qed.

Lemma filter_split {A} (p : A -> bool) l :
  (length (filter p l) + length (filter (fun x => negb (p x)) l) = length l)%nat.
Proof.
  induction l as [|x l IH]; [reflexivity|]. cbn [filter].
  destruct (p x); cbn [negb length]; lia.
Qed.

Lemma cz_skipn n : forall l x, (cz l x <= n + cz (skipn n l) x)%nat.
Proof.
  induction n as [|n IH]; intros l x; [simpl; lia|].
  destruct l as [|y l]; [simpl; lia|]. cbn [skipn count_occ].
  specialize (IH l x). destruct (Z.eq_dec y x); lia.
Qed.

Lemma cz_disjoint l x y : x <> y -> (cz l x + cz l y <= length l)%nat.
Proof.
  intros N. induction l as [|z l IH]; [simpl; lia|]. cbn [count_occ length].
  destruct (Z.eq_dec z x); destruct (Z.eq_dec z y); first [lia | congruence].
Qed.

(** The decoder keeps every comma and invents none. *)
Lemma step_comma st : Utf8.state_ok st ->
  Utf8.step st comma
  = (match st with
     | Utf8.Idle => [comma]
     | Utf8.Pending _ _ _ _ => [replacement; comma]
     end, Utf8.Idle).
Proof.
  destruct st as [|n cp lo hi]; [reflexivity|].
  intros (Hlo & Hhi & _). cbn [Utf8.step]. unfold comma in *.
  rewrite (proj2 (Z.leb_gt lo 44)) by lia. reflexivity.
Qed.

Lemma no_comma b out : b <> comma -> Utf8.emitted b out -> cz out comma = 0%nat.
Proof.
  intros N [_ H]. apply count_occ_not_In. intros Hin.
  destruct (H _ Hin) as [E|E]; [congruence|unfold comma in E; lia].
Qed.

Lemma decode_commas bs : forall st,
  Utf8.state_ok st -> Forall is_byte bs ->
  cz (Utf8.decode_from st bs) comma = cz bs comma.
Proof.
  induction bs as [|b r IH]; intros st Hst B.
  - destruct st; reflexivity.
  - inversion B as [|? ? Hb Br]; subst. rewrite Utf8Facts.decode_from_cons.
    rewrite count_occ_app. cbn [count_occ].
    destruct (Z.eq_dec b comma) as [->|N].
    + rewrite step_comma by exact Hst. cbn [fst snd].
      rewrite IH by (exact I || exact Br).
      destruct st; reflexivity.
    + destruct (Utf8Facts.step_ok st b Hst
                  ltac:(unfold is_byte in Hb; lia)) as [E S].
      rewrite (no_comma b _ N E), IH by assumption. reflexivity.
Qed.

Lemma lead_length b :
  (length (fst (Utf8.lead b)) + Utf8.pending (snd (Utf8.lead b)) <= 1)%nat.
Proof.
  unfold Utf8.lead.
  repeat match goal with
  | |- context [if ?c then _ else _] => destruct c
  end; simpl; lia.
Qed.

Lemma step_length st b :
  (length (fst (Utf8.step st b)) + Utf8.pending (snd (Utf8.step st b))
   <= 1 + Utf8.pending st)%nat.
Proof.
  destruct st as [|n cp lo hi]; [apply lead_length|].
  cbn [Utf8.step Utf8.pending]. destruct (_ && _).
  - destruct n as [|[|n]]; cbn [fst snd Utf8.pending length]; try lia;
      unfold Utf8.units_of_cp; destruct (_ <? _); simpl; lia.
  - pose proof (lead_length b). destruct (Utf8.lead b). simpl in *. lia.
Qed.

Lemma decode_length bs : forall st,
  (length (Utf8.decode_from st bs) <= length bs + Utf8.pending st)%nat.
Proof.
  induction bs as [|b r IH]; intros st.
  - destruct st; simpl; lia.
  - rewrite Utf8Facts.decode_from_cons, length_app.
    pose proof (step_length st b). specialize (IH (snd (Utf8.step st b))).
    simpl. lia.
Qed.

(** If the parse has 64 elements at all, its second half is not the second
    half of the key. *)
Theorem parsed_key_differs (C : Collaborators) sk :
  number_of_empty_is_zero C -> Forall is_byte sk -> length sk = 64%nat ->
  length (secretKeyOfString C (solanaPlaintext sk)) = 64%nat ->
  skipn 32 (secretKeyOfString C (solanaPlaintext sk)) <> skipn 32 sk.
Proof.
  intros HN B L LP. unfold secretKeyOfString, solanaPlaintext in *.
  set (s := Utf8.decode sk) in *.
  set (parts := split comma s) in *.
  rewrite length_map in LP. unfold parts in LP. rewrite split_length in LP.
  assert (Cs : cz s comma = 63%nat) by lia.
  assert (Ck : cz sk comma = 63%nat).
  { rewrite <- Cs. symmetry. apply decode_commas; [exact I|exact B]. }
  assert (Ls : (length s <= 64)%nat).
  { pose proof (decode_length sk Utf8.Idle). simpl in H. fold (Utf8.decode sk) in H.
    fold s in H. lia. }
  pose proof (split_nonempty_parts comma s) as NE. fold parts in NE.
  pose proof (filter_split truthy parts) as FS.
  assert (LP' : length parts = 64%nat) by (unfold parts; rewrite split_length; lia).
  pose proof (empty_parts_give_zeros (numberToUint8 C) parts HN) as Z0.
  pose proof (cz_skipn 32 (map (numberToUint8 C) parts) 0) as S0.
  pose proof (cz_skipn 32 sk comma) as S1.
  intros E. rewrite E in S0.
  pose proof (cz_disjoint (skipn 32 sk) 0 comma ltac:(unfold comma; lia)) as D.
  rewrite length_skipn in D. lia.
Qed.

End SolanaFacts.

(** ** The cipher of [encryption.js] *)

(** C4 (as the code has it).  For a key of 32 octets and a plaintext whose
    surrogates are all paired, [encryptPrivateKey] draws the next 16 octets
    of the entropy source as IV, hands on the source advanced past them,
    and returns hex(iv), a colon, hex(ciphertext); [decryptPrivateKey] of
    that blob under the same key returns the plaintext. *)
Theorem C4_round_trip P K g :
  key_ok K -> Utf8.well_formed P = true ->
  let iv := fst (randomBytes 16 g) in
  let ciphertext := Cbc.seal (Hex.decode K) iv (Utf8.encode P) in
  let blob := Hex.encode iv ++ colon :: Hex.encode ciphertext in
  iv = map (fun i => g i mod 256) (seq 0 16) /\
  length iv = 16%nat /\
  encryptPrivateKey P K g = Ok (blob, fun i => g (16 + i)%nat) /\
  split colon blob = [Hex.encode iv; Hex.encode ciphertext] /\
  decryptPrivateKey blob K = Ok P.
Proof.
  intros HK W iv ciphertext blob.
  pose proof (randomBytes_block g) as I.
  pose proof (Utf8Facts.encode_bytes P (Utf8Facts.well_formed_units P W)) as B.
  destruct (CbcFacts.seal_shape _ _ _ (key_ok_valid K HK) I B) as (Bs & _ & _).
  pose proof (encryptPrivateKey_ok P K g HK) as E.
  split; [reflexivity|]. split; [apply I|]. split; [exact E|].
  split; [apply split_blob; [apply I|exact Bs]|].
  exact (decrypt_encrypt_well_formed P K g _ _ HK W E).
Qed.

(** C5 (as the code has it).  [decryptPrivateKey] throws on a blob without
    a colon, on a blob whose first segment does not decode to 16 octets, and
    on a blob whose second segment has an odd number of characters or
    decodes to no octet or to a number of octets that is not a multiple of
    16.  Decoding reads each character by its low octet and stops at the
    first pair that is not two hexadecimal digits, so a segment may carry
    anything after the pairs that count.  Under a key other than the
    encrypting one nothing checks the key: the blob is decrypted in CBC mode
    under the key given, the call throws exactly when the padding of the
    result is wrong, and otherwise returns its UTF-8 decoding. *)
Theorem C5_decrypt_failures :
  (forall blob K, ~ In colon blob ->
     exists e, decryptPrivateKey blob K = Throw e) /\
  (forall blob K,
     length (Hex.decode (nth 0 (split colon blob) [])) <> 16%nat ->
     decryptPrivateKey blob K = Throw InvalidIV) /\
  (forall blob K first second rest,
     split colon blob = first :: second :: rest ->
     Nat.odd (length second) = true \/
     length (Hex.decode second) = 0%nat \/
     (length (Hex.decode second) mod 16 <> 0)%nat ->
     exists e, decryptPrivateKey blob K = Throw e) /\
  (forall P K1 K2 g, key_ok K1 -> key_ok K2 -> Forall is_unit P ->
     let iv := fst (randomBytes 16 g) in
     let ciphertext := Cbc.seal (Hex.decode K1) iv (Utf8.encode P) in
     forall blob g', encryptPrivateKey P K1 g = Ok (blob, g') ->
     decryptPrivateKey blob K2
     = match Cbc.unpad (concat (Cbc.decrypt (AES.decrypt_block (Hex.decode K2))
                                  iv (Cbc.chunks ciphertext))) with
       | Some bs => Ok (Utf8.decode bs)
       | None => Throw BadDecrypt
       end).
Proof.
  split; [|split; [|split]].
  - intros blob K N. unfold decryptPrivateKey.
    rewrite (split_none colon blob N). cbn [nth nth_error].
    destruct (negb _); [eexists; reflexivity|].
    destruct (negb _); eexists; reflexivity.
  - intros blob K N. unfold decryptPrivateKey.
    apply Nat.eqb_neq in N. rewrite N. reflexivity.
  - intros blob K first second rest S L. unfold decryptPrivateKey.
    rewrite S. cbn [nth nth_error].
    destruct (negb _); [eexists; reflexivity|].
    destruct (negb _); [eexists; reflexivity|].
    destruct (Nat.odd (length second)) eqn:O; [eexists; reflexivity|].
    destruct L as [L|L]; [discriminate|].
    unfold Cbc.open.
    replace ((length (Hex.decode second) =? 0)%nat
             || negb (length (Hex.decode second) mod 16 =? 0)%nat) with true;
      [eexists; reflexivity|].
    symmetry. apply orb_true_iff. destruct L as [L|L].
    + left. apply Nat.eqb_eq, L.
    + right. apply negb_true_iff, Nat.eqb_neq, L.
  - intros P K1 K2 g H1 H2 U iv ciphertext blob g' E.
    rewrite encryptPrivateKey_ok in E by exact H1.
    assert (Eb := f_equal (fun r => match r with
                                    | Ok (x, _) => x
                                    | Throw _ => blob
                                    end) E).
    cbv beta iota in Eb. rewrite <- Eb. clear E Eb.
    pose proof (randomBytes_block g) as I.
    pose proof (Utf8Facts.encode_bytes P U) as B.
    destruct (CbcFacts.seal_shape _ _ _ (key_ok_valid K1 H1) I B) as (Bs & M & G).
    rewrite decryptPrivateKey_blob by assumption.
    subst iv ciphertext. unfold Cbc.open.
    match goal with
    | |- context [(length ?c =? 0)%nat] =>
        replace (length c =? 0)%nat with false
          by (symmetry; apply Nat.eqb_neq; lia)
    end.
    rewrite M. cbn [Nat.eqb negb orb].
    destruct (Cbc.unpad _); reflexivity.
Qed.

(** ** Encrypting under a derived key *)

Lemma derivedKey_ok C password salt : kdf_yields_key C ->
  key_ok (derivedKey C password salt) /\
  Hex.decode (derivedKey C password salt) = pbkdf2 C password salt.
Proof.
  intros H. destruct (H password salt) as [L B]. unfold derivedKey, key_ok.
  rewrite HexFacts.hex_decode_encode by exact B. split; [exact L|reflexivity].
Qed.

Lemma encrypt_derived C P password salt g : kdf_yields_key C ->
  encryptPrivateKey P (derivedKey C password salt) g
  = Ok (blob_of (fst (randomBytes 16 g))
          (Cbc.seal (pbkdf2 C password salt) (fst (randomBytes 16 g))
             (Utf8.encode P)),
        snd (randomBytes 16 g)).
Proof.
  intros H. destruct (derivedKey_ok C password salt H) as [K D].
  rewrite encryptPrivateKey_ok by exact K. rewrite D. reflexivity.
Qed.

Lemma decrypt_derived C P password salt g : kdf_yields_key C ->
  Utf8.well_formed P = true ->
  decryptPrivateKey
    (blob_of (fst (randomBytes 16 g))
       (Cbc.seal (pbkdf2 C password salt) (fst (randomBytes 16 g)) (Utf8.encode P)))
    (derivedKey C password salt) = Ok P.
Proof.
  intros H W. destruct (derivedKey_ok C password salt H) as [K D].
  apply (decrypt_encrypt_well_formed P _ g _ (snd (randomBytes 16 g)) K W).
  apply encrypt_derived, H.
Qed.

Lemma decrypt_other C P password password' salt g : kdf_yields_key C ->
  Forall is_unit P ->
  decryptPrivateKey
    (blob_of (fst (randomBytes 16 g))
       (Cbc.seal (pbkdf2 C password salt) (fst (randomBytes 16 g)) (Utf8.encode P)))
    (derivedKey C password' salt)
  = match Cbc.open (pbkdf2 C password' salt) (fst (randomBytes 16 g))
            (Cbc.seal (pbkdf2 C password salt) (fst (randomBytes 16 g))
               (Utf8.encode P)) with
    | Ok bs => Ok (Utf8.decode bs)
    | Throw e => Throw e
    end.
Proof.
  intros H U. destruct (derivedKey_ok C password' salt H) as [K D].
  destruct (H password salt) as [L B].
  rewrite decryptPrivateKey_blob; [rewrite D; reflexivity| | |exact K].
  - apply randomBytes_block.
  - apply CbcFacts.seal_shape; [split; assumption|apply randomBytes_block|].
    apply Utf8Facts.encode_bytes, U.
Qed.

Lemma solanaPlaintext_well_formed C seed : public_key_is_32 C ->
  Forall is_byte seed ->
  Utf8.well_formed (solanaPlaintext (seed ++ ed25519_public C seed)) = true.
Proof.
  intros H B. apply Utf8Facts.decode_well_formed, Forall_app.
  split; [exact B|apply H].
Qed.

(** ** The collection *)

Lemma commit_nothing d o : saves o = [] -> commit d o = d.
Proof. intros H. unfold commit. rewrite H. reflexivity. Qed.

Lemma commit_one d o u : saves o = [u] -> commit d o = store u d.
Proof. intros H. unfold commit. rewrite H. reflexivity. Qed.

Lemma in_store u d v : In v (store u d) -> v = u \/ In v d.
Proof.
  unfold store. destruct (existsb _ d).
  - rewrite in_map_iff. intros (w & E & Hw).
    destruct (User._id w =? User._id u); subst; auto.
  - intros H. apply in_app_or in H. destruct H as [H|[H|[]]]; auto.
Qed.

Lemma Forall_store (P : User.t -> Prop) u d :
  P u -> Forall P d -> Forall P (store u d).
Proof.
  intros Hu Hd. apply Forall_forall. intros v Hv.
  destruct (in_store _ _ _ Hv) as [->|H]; [exact Hu|].
  rewrite Forall_forall in Hd. apply Hd, H.
Qed.

Lemma find_some_in {A} (p : A -> bool) l x :
  find p l = Some x -> In x l /\ p x = true.
Proof. apply find_some. Qed.

Lemma findById_id userId d user :
  findById userId d = Some user -> User._id user = userId.
Proof.
  intros F. apply find_some_in in F. destruct F as [_ E].
  apply Z.eqb_eq in E. exact E.
Qed.

Lemma findById_in userId d user : findById userId d = Some user -> In user d.
Proof. intros F. apply find_some_in in F. apply F. Qed.

Lemma findById_store_other u d other : other <> User._id u ->
  findById other (store u d) = findById other d.
Proof.
  intros N. unfold store, findById.
  destruct (existsb (fun v => User._id v =? User._id u) d).
  - induction d as [|v d IH]; [reflexivity|]. cbn [map find].
    destruct (Z.eqb_spec (User._id v) (User._id u)) as [E|_].
    + destruct (Z.eqb_spec (User._id u) other) as [X|_]; [congruence|].
      destruct (Z.eqb_spec (User._id v) other) as [X|_]; [congruence|].
      exact IH.
    + destruct (User._id v =? other); [reflexivity|exact IH].
  - induction d as [|v d IH]; cbn [app find].
    + destruct (Z.eqb_spec (User._id u) other) as [X|_]; [congruence|reflexivity].
    + destruct (User._id v =? other); [reflexivity|exact IH].
Qed.

Lemma fresh_id_above d : forall v, In v d -> User._id v < fresh_id d.
Proof.
  unfold fresh_id. induction d as [|u d IH]; intros v [].
  - subst. cbn [fold_right]. lia.
  - specialize (IH v H). cbn [fold_right]. lia.
Qed.

Lemma findById_fresh d u : User._id u = fresh_id d ->
  findById (User._id u) (store u d) = Some u.
Proof.
  intros E.
  assert (N : forall v, In v d -> (User._id v =? User._id u) = false).
  { intros v Hv. apply Z.eqb_neq. pose proof (fresh_id_above d v Hv). lia. }
  unfold store.
  replace (existsb (fun v => User._id v =? User._id u) d) with false.
  - unfold findById. clear E. induction d as [|v d IH].
    + cbn. rewrite Z.eqb_refl. reflexivity.
    + cbn [app find]. rewrite (N v (or_introl eq_refl)).
      apply IH. intros w Hw. apply N. right. exact Hw.
  - symmetry. apply not_true_is_false. intros X.
    apply existsb_exists in X. destruct X as (v & Hv & X).
    rewrite (N v Hv) in X. discriminate.
Qed.

(** ** What the schema does to the handlers of [userController.js]

    Every handler that has found its user goes on to read [user.salt] or to
    call a method of [user.wallets]; the first gives [undefined], which
    [crypto.pbkdf2] refuses, the second throws. *)

Lemma loginUser_found C d username password user hash :
  findOne username d = Some user -> User.password user = Some hash ->
  bcrypt_compare C password hash = true ->
  loginUser C d username password
  = respond 500 (lit "Server error") (ErrorData NotAFunction).
Proof.
  intros F P B. unfold loginUser. rewrite F, P. cbn [compareStored bindR].
  rewrite B. reflexivity.
Qed.

Lemma createAdditionalWallet_found C d userId blockchain label password now g user :
  findById userId d = Some user ->
  createAdditionalWallet C d userId blockchain label password now g
  = respond 500 (lit "Server error") (ErrorData InvalidArgType).
Proof. intros F. unfold createAdditionalWallet, handle. rewrite F. reflexivity. Qed.

Lemma createAdditionalWallet_missing C d userId blockchain label password now g :
  findById userId d = None ->
  createAdditionalWallet C d userId blockchain label password now g
  = respond 404 (lit "User not found") NoData.
Proof. intros F. unfold createAdditionalWallet, handle. rewrite F. reflexivity. Qed.

Lemma setDefaultWallet_found d userId walletAddress blockchain user :
  findById userId d = Some user ->
  setDefaultWallet d userId walletAddress blockchain
  = respond 500 (lit "Server error") (ErrorData NotAFunction).
Proof. intros F. unfold setDefaultWallet. rewrite F. reflexivity. Qed.

Lemma setDefaultWallet_missing d userId walletAddress blockchain :
  findById userId d = None ->
  setDefaultWallet d userId walletAddress blockchain
  = respond 404 (lit "User not found") NoData.
Proof. intros F. unfold setDefaultWallet. rewrite F. reflexivity. Qed.

Lemma createAdditionalWallet_saves_nothing C d userId blockchain label password
    now g :
  saves (createAdditionalWallet C d userId blockchain label password now g) = [].
Proof.
  destruct (findById userId d) as [user|] eqn:F.
  - rewrite (createAdditionalWallet_found _ _ _ _ _ _ _ _ user F). reflexivity.
  - rewrite (createAdditionalWallet_missing _ _ _ _ _ _ _ _ F). reflexivity.
Qed.

Lemma setDefaultWallet_saves_nothing d userId walletAddress blockchain :
  saves (setDefaultWallet d userId walletAddress blockchain) = [].
Proof.
  destruct (findById userId d) as [user|] eqn:F.
  - rewrite (setDefaultWallet_found _ _ _ _ user F). reflexivity.
  - rewrite (setDefaultWallet_missing _ _ _ _ F). reflexivity.
Qed.

Lemma recover_found C d username password newPassword g user hash :
  findOne username d = Some user -> User.password user = Some hash ->
  bcrypt_compare C password hash = true ->
  recoverWalletFromPhrase C d username password newPassword g
  = respond 500 (lit "Recovery failed") (ErrorData InvalidArgType).
Proof.
  intros F P B. unfold recoverWalletFromPhrase, handle. rewrite F, P.
  cbv [bind lift compareStored]. rewrite B. reflexivity.
Qed.

Lemma recover_saves_nothing C d username password newPassword g :
  saves (recoverWalletFromPhrase C d username password newPassword g) = [] /\
  (status (reply (recoverWalletFromPhrase C d username password newPassword g))
   = 404 \/
   status (reply (recoverWalletFromPhrase C d username password newPassword g))
   = 401 \/
   status (reply (recoverWalletFromPhrase C d username password newPassword g))
   = 500).
Proof.
  unfold recoverWalletFromPhrase, handle.
  destruct (findOne username d) as [user|]; [|split; [reflexivity|auto]].
  cbv [bind lift compareStored].
  destruct (User.password user) as [hash|]; [|split; [reflexivity|auto]].
  destruct (bcrypt_compare C password hash); split; try reflexivity; auto.
Qed.

Lemma signMessage_never_signs C d userId walletAddress blockchain text password :
  signMessage C d userId walletAddress blockchain text password
  = match findById userId d with
    | None => respond 404 (lit "User not found") NoData
    | Some _ => respond 500 (lit "Signing failed") (ErrorData NotAFunction)
    end.
Proof. unfold signMessage. destruct (findById userId d); reflexivity. Qed.

Lemma transferSOL_never_broadcasts C d userId walletAddress password :
  transferSOL C d userId walletAddress password
  = Replied match findById userId d with
            | None => respond 404 (lit "User not found") NoData
            | Some _ => respond 500 (lit "SOL transfer failed")
                          (ErrorData NotAFunction)
            end.
Proof. unfold transferSOL. destruct (findById userId d); reflexivity. Qed.

Lemma transferSPLToken_never_broadcasts C d userId walletAddress password :
  transferSPLToken C d userId walletAddress password
  = Replied match findById userId d with
            | None => respond 404 (lit "User not found") NoData
            | Some _ => respond 500 (lit "SPL token transfer failed")
                          (ErrorData NotAFunction)
            end.
Proof. unfold transferSPLToken. destruct (findById userId d); reflexivity. Qed.

Lemma transferERC20Token_never_signs C d userId walletAddress password :
  transferERC20Token C d userId walletAddress password
  = TokenReplied match findById userId d with
                 | None => respond 404 (lit "User not found") NoData
                 | Some _ => respond 500 (lit "Token transfer failed")
                               (ErrorData NotAFunction)
                 end.
Proof. unfold transferERC20Token. destruct (findById userId d); reflexivity. Qed.

(** ** Validation *)

Lemma castEntry_invalid oid o : entryValid (castEntry oid o) = false.
Proof. reflexivity. Qed.

Lemma valid_book u : valid u = true -> forallb entryValid (User.addressBook u) = true.
Proof.
  unfold valid. intros H.
  repeat (apply andb_prop in H; destruct H as [H ?]). assumption.
Qed.

Lemma invalid_book u book :
  forallb entryValid book = false -> valid (User.with_addressBook book u) = false.
Proof.
  intros H. unfold valid. cbn [User.with_addressBook User.addressBook
    User.email User.password User.username User.wallets User.preferences].
  rewrite H. rewrite andb_false_r. reflexivity.
Qed.

Lemma pushed_invalid oid objects : objects <> [] ->
  forallb entryValid (pushed oid objects) = false.
Proof.
  destruct objects as [|o r]; [congruence|]. intros _. reflexivity.
Qed.

Lemma save_found_pushed u book extra :
  forallb entryValid extra = false ->
  save_found (User.with_addressBook (book ++ extra) u) = Throw ValidationFailed.
Proof.
  intros H. unfold save_found, validate. rewrite invalid_book; [reflexivity|].
  rewrite forallb_app, H. apply andb_false_r.
Qed.

(** No stored entry answers to a chain: [entry.blockchain] is [undefined]. *)
Lemma sameEntry_never address blockchain book :
  existsb (sameEntry address blockchain) book = false.
Proof.
  induction book as [|e r IH]; [reflexivity|]. cbn [existsb].
  unfold sameEntry at 1. cbn [Entry.blockchain equals].
  rewrite andb_false_r. exact IH.
Qed.

(** ** Registration through [userController.js] *)

Lemma User_new_invalid o id now : valid (User_new o id now) = false.
Proof. reflexivity. Qed.

Lemma save_new_object C d o id now g :
  save_new C d (User_new o id now) g = Throw ValidationFailed.
Proof. reflexivity. Qed.

(** [registerUser] ends in one of three ways, none of which writes. *)
Lemma registerUser_value C d username password now g :
  registerUser C d username password now g
  = match findOne username d with
    | Some _ => respond 400 (lit "Username already exists") NoData
    | None =>
        match registration C username password g with
        | Ok _ => respond 500 (lit "Server error") (ErrorData ValidationFailed)
        | Throw e => respond 500 (lit "Server error") (ErrorData e)
        end
    end.
Proof.
  unfold registerUser, handle.
  destruct (findOne username d); [reflexivity|].
  unfold bind at 1.
  destruct (registration C username password g) as [[r g']|e]; reflexivity.
Qed.

Lemma registerUser_never_stores C d username password now g :
  saves (registerUser C d username password now g) = [] /\
  (status (reply (registerUser C d username password now g)) = 400 \/
   status (reply (registerUser C d username password now g)) = 500).
Proof.
  rewrite registerUser_value.
  destruct (findOne username d); [split; [reflexivity|left; reflexivity]|].
  destruct (registration C username password g);
    (split; [reflexivity|right; reflexivity]).
Qed.

(** The value of the object [registerUser] builds. *)
Lemma registration_value (C : Collaborators) username password g :
  kdf_yields_key C ->
  let g1 := snd (randomBytes 16 g) in
  let g2 := snd (randomBytes 16 g1) in
  let g3 := snd (randomBytes 16 g2) in
  let g4 := snd (randomBytes 16 g3) in
  let g5 := snd (randomBytes 32 g4) in
  let g6 := snd (randomBytes 16 g5) in
  let salt := Hex.encode (fst (randomBytes 16 g)) in
  let key := pbkdf2 C password salt in
  let mnemonic := mnemonic_of C (fst (randomBytes 16 g2)) in
  let seed := fst (randomBytes 32 g4) in
  let sk := seed ++ ed25519_public C seed in
  let enc iv P := blob_of iv (Cbc.seal key iv (Utf8.encode P)) in
  registration C username password g
  = Ok ({| UserObject.username := username;
           UserObject.password := bcrypt_hash C password (fst (randomBytes 16 g1));
           UserObject.salt := salt;
           UserObject.recoveryPhrase := enc (fst (randomBytes 16 g6)) mnemonic;
           UserObject.wallets :=
             [ {| WalletObject.blockchain := ethereum;
                  WalletObject.address := eth_address C mnemonic;
                  WalletObject.privateKey :=
                    enc (fst (randomBytes 16 g3)) (eth_privateKey C mnemonic);
                  WalletObject.isDefault := true;
                  WalletObject.label := lit "Default ETH Wallet";
                  WalletObject.createdAt := None |};
               {| WalletObject.blockchain := solana;
                  WalletObject.address := base58 C (ed25519_public C seed);
                  WalletObject.privateKey :=
                    enc (fst (randomBytes 16 g5)) (solanaPlaintext sk);
                  WalletObject.isDefault := true;
                  WalletObject.label := lit "Default SOL Wallet";
                  WalletObject.createdAt := None |} ] |},
        (mnemonic, eth_address C mnemonic, base58 C (ed25519_public C seed)),
        snd (randomBytes 16 g6)).
Proof.
  intros HK. cbv zeta.
  unfold registration.
  cbv [bind lift generateEncryptionKey createRandom Keypair_generate draw ret].
  destruct (randomBytes 16 g) as [s g1]. cbn [fst snd].
  destruct (randomBytes 16 g1) as [b g2]. cbn [fst snd].
  destruct (randomBytes 16 g2) as [e g3]. cbn [fst snd].
  rewrite encrypt_derived by exact HK.
  destruct (randomBytes 16 g3) as [iv1 g4]. cbn [fst snd].
  destruct (randomBytes 32 g4) as [seed g5]. cbn [fst snd secretKey publicKey].
  rewrite encrypt_derived by exact HK.
  destruct (randomBytes 16 g5) as [iv2 g6]. cbn [fst snd].
  rewrite encrypt_derived by exact HK. reflexivity.
Qed.

Lemma rebuilt_public_key (C : Collaborators) s kp :
  public_key_is_32 C ->
  rebuildKeypair C s = Ok kp ->
  length (secretKeyOfString C s) = 64%nat /\
  publicKey kp = skipn 32 (secretKeyOfString C s) /\
  Forall is_byte (publicKey kp).
Proof.
  intros HP. unfold rebuildKeypair, Keypair_fromSecretKey.
  destruct (length (secretKeyOfString C s) =? 64)%nat eqn:L; [|discriminate].
  cbn [negb].
  destruct (str_eqb _ _) eqn:V; [|discriminate]. cbn [negb].
  intros E. apply Nat.eqb_eq in L. apply str_eqb_eq in V.
  assert (Ek : publicKey kp = skipn 32 (secretKeyOfString C s)).
  { assert (X := f_equal (fun r => match r with
                                   | Ok k => publicKey k
                                   | Throw _ => publicKey kp
                                   end) E).
    cbv beta iota in X. rewrite <- X. reflexivity. }
  split; [exact L|]. split; [exact Ek|].
  rewrite Ek, <- V. apply HP.
Qed.

(** ** Accounts: the users the collection can hold *)

Lemma long_is_truthy (s : jsstring) : (8 <= length s)%nat -> truthy s = true.
Proof. destruct s; [cbn; lia|reflexivity]. Qed.

(** The value of an account made through [exports.register]. *)
Lemma register_value C d username email password now g :
  findOneByEmail C email d = None ->
  truthy (lowercase C (trim email)) = true ->
  (8 <= length password)%nat ->
  truthy (trim username) = true ->
  let u :=
    {| User._id := fresh_id d;
       User.email := Some (lowercase C (trim email));
       User.password := Some (bcrypt_hash C password (fst (randomBytes 16 g)));
       User.username := Some (trim username);
       User.wallets := {| Wallets.ethereum := []; Wallets.solana := [] |};
       User.addressBook := [];
       User.preferences := Preferences.defaults;
       User.createdAt := now;
       User.lastLogin := None |} in
  index_accepts C d u = true ->
  register C d username email password now g
  = respond_saving u 201 (lit "User registered successfully")
      (AccountData (jwt_sign_userId C (fresh_id d) now) (fresh_id d)
         (Some (trim username)) (Some (lowercase C (trim email)))).
Proof.
  intros F E P U u A. unfold register, handle. rewrite F.
  unfold bind at 1. unfold save_new. unfold bind at 1.
  unfold lift, validate, valid.
  cbn [User_account User.email User.password User.username User.wallets
       User.addressBook User.preferences Wallets.ethereum Wallets.solana
       required forallb].
  rewrite E, U, (long_is_truthy password P).
  apply Nat.leb_le in P. rewrite P. cbn [andb].
  replace (preferencesValid Preferences.defaults) with true by reflexivity.
  cbv [bind draw ret].
  destruct (randomBytes 16 g) as [a g'] eqn:R.
  assert (Eu : User.with_password
                 (option_map (fun p => bcrypt_hash C p a)
                    (User.password
                       (User_account C username email password (fresh_id d) now)))
                 (User_account C username email password (fresh_id d) now) = u).
  { subst u. reflexivity. }
  rewrite Eu, A. reflexivity.
Qed.

(** ** The claims on the handlers *)

(** C1.  [recoverWalletFromPhrase] never gets as far as re-keying.
    Whatever the collection and the request, it saves nothing, the
    collection is as before, and the answer is 404, 401 or 500.  For a
    stored user and a password that [bcrypt.compare] accepts, with or
    without a new password, the answer is 500 "Recovery failed": the handler
    derives the key from [user.salt], which is no path of the schema of
    [src/models/User.js], and [crypto.pbkdf2] does not take [undefined] for
    a salt. *)
Theorem C1_recovery_never_rekeys (C : Collaborators)
    d username password newPassword g :
  let o := recoverWalletFromPhrase C d username password newPassword g in
  saves o = [] /\ commit d o = d /\
  (status (reply o) = 404 \/ status (reply o) = 401 \/ status (reply o) = 500) /\
  (forall user hash,
     findOne username d = Some user -> User.password user = Some hash ->
     bcrypt_compare C password hash = true ->
     status (reply o) = 500 /\ message (reply o) = lit "Recovery failed").
Proof.
  intros o. subst o.
  destruct (recover_saves_nothing C d username password newPassword g) as [S T].
  split; [exact S|]. split; [apply commit_nothing, S|]. split; [exact T|].
  intros user hash F P B.
  rewrite (recover_found C d username password newPassword g user hash F P B).
  split; reflexivity.
Qed.

(** C2.  [setDefaultWallet] never moves a default.  It saves nothing and the
    collection is as before; when the user is not found the answer is 404
    "User not found"; when the user is found the answer is 500 "Server
    error", whether or not the address is one of the user's: [user.wallets] is the
    nested path of the schema, and it has no [findIndex]. *)
Theorem C2_default_never_moves d userId walletAddress blockchain :
  let o := setDefaultWallet d userId walletAddress blockchain in
  saves o = [] /\ commit d o = d /\
  (findById userId d = None -> o = respond 404 (lit "User not found") NoData) /\
  (forall user, findById userId d = Some user ->
     status (reply o) = 500 /\ message (reply o) = lit "Server error").
Proof.
  intros o. subst o.
  pose proof (setDefaultWallet_saves_nothing d userId walletAddress blockchain)
    as S.
  split; [exact S|]. split; [apply commit_nothing, S|]. split.
  - apply setDefaultWallet_missing.
  - intros user F. rewrite (setDefaultWallet_found _ _ _ _ user F).
    split; reflexivity.
Qed.

(** C3.  The object [registerUser] builds holds, for the Solana wallet, the
    encryption of the UTF-8 decoding of the 64 octets of the secret key (a
    key [Keypair.fromSecretKey] takes, and whose public half gives the
    address of the wallet), and that string is what decryption under the key
    of the registration returns.  Split at the commas and passed through [Number], as
    [transferSOL] and [signMessage] read a decrypted key, it never gives the
    secret key back, and a key pair rebuilt from it never has the address of
    the wallet as its public key.  On no collection does [transferSOL] go on
    to the network, and on none does [signMessage] sign for a Solana
    wallet. *)
Theorem C3_solana_key_never_rebuilt (C : Collaborators) username password g :
  kdf_yields_key C -> public_key_is_32 C ->
  number_of_empty_is_zero C -> base58_injective C ->
  exists object answer g' w sk,
    registration C username password g = Ok (object, answer, g') /\
    nth_error (UserObject.wallets object) 1 = Some w /\
    WalletObject.blockchain w = solana /\
    length sk = 64%nat /\ Forall is_byte sk /\
    Keypair_fromSecretKey C sk
    = Ok {| publicKey := skipn 32 sk; secretKey := sk |} /\
    WalletObject.address w = base58 C (skipn 32 sk) /\
    decryptPrivateKey (WalletObject.privateKey w)
      (derivedKey C password (UserObject.salt object)) = Ok (Utf8.decode sk) /\
    secretKeyOfString C (Utf8.decode sk) <> sk /\
    (forall kp, rebuildKeypair C (Utf8.decode sk) = Ok kp ->
                base58 C (publicKey kp) <> WalletObject.address w) /\
    (forall d userId walletAddress pw from,
       transferSOL C d userId walletAddress pw <> Broadcasts from) /\
    (forall d userId walletAddress text pw,
       status (reply (signMessage C d userId walletAddress solana text pw))
       <> 200).
Proof.
  intros HK HP HN HB.
  pose proof (registration_value C username password g HK) as V.
  cbv zeta in V.
  set (g4 := snd (randomBytes 16 (snd (randomBytes 16 (snd (randomBytes 16
                (snd (randomBytes 16 g)))))))) in *.
  set (seed := fst (randomBytes 32 g4)) in *.
  set (pub := ed25519_public C seed) in *.
  set (salt := Hex.encode (fst (randomBytes 16 g))) in *.
  set (iv := fst (randomBytes 16 (snd (randomBytes 32 g4)))) in *.
  destruct (randomBytes_bytes 32 g4) as [Ls Bs]. fold seed in Ls, Bs.
  destruct (HP seed) as [Lp Bp]. fold pub in Lp, Bp.
  assert (Lsk : length (seed ++ pub) = 64%nat) by (rewrite length_app; lia).
  assert (Bsk : Forall is_byte (seed ++ pub)) by (apply Forall_app; split; assumption).
  assert (Esk : skipn 32 (seed ++ pub) = pub).
  { rewrite skipn_app, Ls, Nat.sub_diag, skipn_all2 by lia. reflexivity. }
  assert (Fsk : firstn 32 (seed ++ pub) = seed).
  { rewrite firstn_app, Ls, Nat.sub_diag, firstn_all2 by lia.
    apply app_nil_r. }
  assert (KP : Keypair_fromSecretKey C (seed ++ pub)
               = Ok {| publicKey := skipn 32 (seed ++ pub);
                       secretKey := seed ++ pub |}).
  { unfold Keypair_fromSecretKey. rewrite Lsk, Fsk, Esk. fold pub.
    rewrite str_eqb_refl. reflexivity. }
  assert (D : decryptPrivateKey
                (blob_of iv (Cbc.seal (pbkdf2 C password salt) iv
                               (Utf8.encode (solanaPlaintext (seed ++ pub)))))
                (derivedKey C password salt)
              = Ok (Utf8.decode (seed ++ pub))).
  { apply decrypt_derived; [exact HK|].
    apply solanaPlaintext_well_formed; assumption. }
  assert (NP : forall kp, rebuildKeypair C (Utf8.decode (seed ++ pub)) = Ok kp ->
                 base58 C (publicKey kp) <> base58 C pub).
  { intros kp R X. destruct (rebuilt_public_key C _ kp HP R) as (L & E & Bk).
    apply HB in X; [|exact Bk|exact Bp].
    apply (SolanaFacts.parsed_key_differs C (seed ++ pub) HN Bsk Lsk L).
    unfold solanaPlaintext. rewrite Esk, <- E. exact X. }
  eexists _, _, _, _, (seed ++ pub).
  split; [exact V|]. cbn [UserObject.wallets UserObject.salt nth_error].
  split; [reflexivity|].
  cbn [WalletObject.blockchain WalletObject.address WalletObject.privateKey].
  split; [reflexivity|]. split; [exact Lsk|]. split; [exact Bsk|].
  split; [exact KP|].
  split; [rewrite Esk; reflexivity|]. split; [exact D|].
  split.
  { intros X.
    apply (SolanaFacts.parsed_key_differs C (seed ++ pub) HN Bsk Lsk).
    - unfold solanaPlaintext. rewrite X. exact Lsk.
    - unfold solanaPlaintext. rewrite X. reflexivity. }
  split; [exact NP|]. split.
  - intros d userId walletAddress pw from.
    rewrite transferSOL_never_broadcasts. discriminate.
  - intros d userId walletAddress text pw.
    rewrite signMessage_never_signs.
    destruct (findById userId d); cbn; discriminate.
Qed.

(** C6.  [createAdditionalWallet] appends nothing.  It saves nothing and the
    collection is as before; when the user is not found the answer is 404
    "User not found", and when the user is found the answer is 500 "Server
    error", for either chain, any label and any password: the key is
    derived from [user.salt] before anything else, and the schema of
    [src/models/User.js] has no such path. *)
Theorem C6_additional_wallet_never_appended (C : Collaborators)
    d userId blockchain label password now g :
  let o := createAdditionalWallet C d userId blockchain label password now g in
  saves o = [] /\ commit d o = d /\
  (findById userId d = None -> o = respond 404 (lit "User not found") NoData) /\
  (forall user, findById userId d = Some user ->
     status (reply o) = 500 /\ message (reply o) = lit "Server error").
Proof.
  intros o. subst o.
  pose proof (createAdditionalWallet_saves_nothing C d userId blockchain label
                password now g) as S.
  split; [exact S|]. split; [apply commit_nothing, S|]. split.
  - apply createAdditionalWallet_missing.
  - intros user F.
    rewrite (createAdditionalWallet_found _ _ _ _ _ _ _ _ user F).
    split; reflexivity.
Qed.

(** C8.  [loginUser] answers an unknown name with status 404 and the message
    "User not found", and a known name with a wrong password with status 400
    and the message "Invalid credentials": the two replies differ, so a
    caller learns whether the name exists. *)
Theorem C8_login_failures_differ (C : Collaborators) d username password :
  (findOne username d = None ->
   loginUser C d username password = respond 404 (lit "User not found") NoData) /\
  (forall user hash, findOne username d = Some user ->
   User.password user = Some hash ->
   bcrypt_compare C password hash = false ->
   loginUser C d username password
   = respond 400 (lit "Invalid credentials") NoData) /\
  reply (respond 404 (lit "User not found") NoData)
  <> reply (respond 400 (lit "Invalid credentials") NoData).
Proof.
  split; [|split].
  - intros E. unfold loginUser. rewrite E. reflexivity.
  - intros user hash E P B. unfold loginUser. rewrite E, P.
    cbn [compareStored bindR]. rewrite B. reflexivity.
  - discriminate.
Qed.

(** ** The address book *)

Lemma validAddress_unknown C address chain :
  chain <> ethereum -> chain <> solana -> validAddress C address chain = false.
Proof.
  intros H1 H2. unfold validAddress.
  apply str_eqb_neq in H1. apply str_eqb_neq in H2. rewrite H1, H2. reflexivity.
Qed.

Lemma addAddressBookEntry_value C d userId label address chain notes now oid user :
  findById userId d = Some user ->
  addAddressBookEntry C d userId label address chain notes now oid
  = if validAddress C address chain
    then respond 500 (lit "Server error") (ErrorData ValidationFailed)
    else respond 400 (invalidFormat chain) NoData.
Proof.
  intros F. unfold addAddressBookEntry. rewrite F.
  destruct (validAddress C address chain); [|reflexivity]. cbn [negb].
  rewrite sameEntry_never.
  rewrite save_found_pushed by reflexivity. reflexivity.
Qed.

Lemma addBatch_value C d userId entries now oid user :
  findById userId d = Some user -> entries <> [] ->
  addBatchAddressBookEntries C d userId entries now oid
  = match fst (batchLoop C (User.addressBook user) now entries) with
    | [] =>
        respond 200 (lit "Batch processing completed")
          (BatchData 0
             (length (snd (batchLoop C (User.addressBook user) now entries)))
             (snd (batchLoop C (User.addressBook user) now entries)))
    | _ => respond 500 (lit "Server error") (ErrorData ValidationFailed)
    end.
Proof.
  intros F N. unfold addBatchAddressBookEntries.
  destruct entries as [|e r]; [congruence|]. rewrite F.
  destruct (batchLoop C (User.addressBook user) now (e :: r))
    as [validEntries invalidEntries].
  cbn [fst snd]. destruct validEntries as [|o os]; [reflexivity|].
  rewrite save_found_pushed by (apply pushed_invalid; discriminate).
  reflexivity.
Qed.

(** Two copies of one acceptable entry: the loop keeps the first and sets
    the second aside. *)
Lemma batch_two_copies C book now e :
  truthy (be_label e) = true -> truthy (be_address e) = true ->
  be_blockchain e = ethereum \/ be_blockchain e = solana ->
  validAddress C (be_address e) (be_blockchain e) = true ->
  batchLoop C book now [e; e]
  = ([ {| EntryObject.label := be_label e;
          EntryObject.address := be_address e;
          EntryObject.blockchain := be_blockchain e;
          EntryObject.notes := or_else (be_notes e) [];
          EntryObject.createdAt := now |} ],
     [(e, lit "Duplicate address in batch")]).
Proof.
  intros L A B V.
  assert (Lc : toLowerCase (be_blockchain e) = be_blockchain e)
    by (destruct B as [-> | ->]; reflexivity).
  assert (Tc : truthy (be_blockchain e) = true)
    by (destruct B as [-> | ->]; reflexivity).
  assert (Hc : str_eqb (be_blockchain e) ethereum
               || str_eqb (be_blockchain e) solana = true)
    by (destruct B as [-> | ->]; reflexivity).
  unfold batchLoop. cbn [fold_left].
  unfold batchStep at 2. rewrite L, A, Tc, Lc, Hc, V, sameEntry_never.
  cbn [negb orb existsb app].
  unfold batchStep. rewrite L, A, Tc, Lc, Hc, V, sameEntry_never.
  cbn [negb orb existsb]. unfold sameObject.
  cbn [EntryObject.address EntryObject.blockchain].
  rewrite !str_eqb_refl. reflexivity.
Qed.

(** C9.  Validation fails closed, and nothing is ever added to a book.  A
    chain other than "ethereum" and "solana" makes no address valid, and
    [addAddressBookEntry] answers an address that is not valid with 400
    "Invalid <chain> address format".  An address that is valid is answered
    500 "Server error", be it new or already in the book: the entry is
    written with a [label] and a [blockchain], the schema of
    [src/models/User.js] asks for a [name] and a [network], and [save]
    refuses the document.  [addBatchAddressBookEntries] answers 200 only
    when it has accepted no entry, and 500 otherwise; its loop does set the
    second copy of an accepted entry aside as "Duplicate address in batch".
    No request saves anything. *)
Theorem C9_address_book_never_grows (C : Collaborators) :
  (forall address chain, chain <> ethereum -> chain <> solana ->
     validAddress C address chain = false) /\
  (forall d userId label address chain notes now oid user,
     findById userId d = Some user ->
     let o := addAddressBookEntry C d userId label address chain notes now oid in
     saves o = [] /\
     (validAddress C address chain = false ->
      o = respond 400 (invalidFormat chain) NoData) /\
     (validAddress C address chain = true ->
      status (reply o) = 500 /\ message (reply o) = lit "Server error")) /\
  (forall d userId entries now oid user,
     findById userId d = Some user -> entries <> [] ->
     let o := addBatchAddressBookEntries C d userId entries now oid in
     let accepted := fst (batchLoop C (User.addressBook user) now entries) in
     let refused := snd (batchLoop C (User.addressBook user) now entries) in
     saves o = [] /\
     (accepted = [] ->
      o = respond 200 (lit "Batch processing completed")
            (BatchData 0 (length refused) refused)) /\
     (accepted <> [] ->
      status (reply o) = 500 /\ message (reply o) = lit "Server error")) /\
  (forall book now e,
     truthy (be_label e) = true -> truthy (be_address e) = true ->
     be_blockchain e = ethereum \/ be_blockchain e = solana ->
     validAddress C (be_address e) (be_blockchain e) = true ->
     snd (batchLoop C book now [e; e]) = [(e, lit "Duplicate address in batch")] /\
     length (fst (batchLoop C book now [e; e])) = 1%nat).
Proof.
  split; [apply validAddress_unknown|]. split; [|split].
  - intros d userId label address chain notes now oid user F o. subst o.
    rewrite (addAddressBookEntry_value C d userId label address chain notes
               now oid user F).
    destruct (validAddress C address chain).
    + split; [reflexivity|]. split; [discriminate|]. intros _.
      split; reflexivity.
    + split; [reflexivity|]. split; [reflexivity|discriminate].
  - intros d userId entries now oid user F N o accepted refused.
    subst o accepted refused.
    rewrite (addBatch_value C d userId entries now oid user F N).
    destruct (fst (batchLoop C (User.addressBook user) now entries)) as [|x r].
    + split; [reflexivity|]. split; [reflexivity|congruence].
    + split; [reflexivity|]. split; [discriminate|]. intros _.
      split; reflexivity.
  - intros book now e L A B V.
    rewrite (batch_two_copies C book now e L A B V). split; reflexivity.
Qed.

(** ** The password of an additional wallet *)

Lemma findById_with_password h userId d :
  findById userId (map (User.with_password h) d)
  = option_map (User.with_password h) (findById userId d).
Proof.
  unfold findById. induction d as [|u d IH]; [reflexivity|].
  cbn [map find User.with_password User._id].
  destruct (User._id u =? userId); [reflexivity|exact IH].
Qed.

(** C10.  [createAdditionalWallet] never looks at the stored login hash, and
    it never encrypts anything under the password it is given.  For a user
    that is found the answer is 500 "Server error" and nothing is saved,
    whatever the password; the outcome is the same for any two passwords,
    and the same whatever hash the documents of the collection hold. *)
Theorem C10_supplied_password_never_used (C : Collaborators)
    d userId blockchain label now g :
  (forall password user, findById userId d = Some user ->
     let o := createAdditionalWallet C d userId blockchain label password now g in
     status (reply o) = 500 /\ message (reply o) = lit "Server error" /\
     saves o = []) /\
  (forall password password',
     createAdditionalWallet C d userId blockchain label password now g
     = createAdditionalWallet C d userId blockchain label password' now g) /\
  (forall password hash,
     createAdditionalWallet C (map (User.with_password hash) d) userId
       blockchain label password now g
     = createAdditionalWallet C d userId blockchain label password now g).
Proof.
  split; [|split].
  - intros password user F o. subst o.
    rewrite (createAdditionalWallet_found _ _ _ _ _ _ _ _ user F).
    split; [reflexivity|]. split; reflexivity.
  - intros password password'.
    destruct (findById userId d) as [user|] eqn:F.
    + rewrite !(createAdditionalWallet_found _ _ _ _ _ _ _ _ user F).
      reflexivity.
    + rewrite !(createAdditionalWallet_missing _ _ _ _ _ _ _ _ F). reflexivity.
  - intros password hash.
    pose proof (findById_with_password hash userId d) as M.
    destruct (findById userId d) as [user|] eqn:F; cbn [option_map] in M.
    + rewrite (createAdditionalWallet_found _ _ _ _ _ _ _ _ _ M),
              (createAdditionalWallet_found _ _ _ _ _ _ _ _ user F).
      reflexivity.
    + rewrite (createAdditionalWallet_missing _ _ _ _ _ _ _ _ M),
              (createAdditionalWallet_missing _ _ _ _ _ _ _ _ F).
      reflexivity.
Qed.

(** ** The sample collaborators have the assumed shapes *)

Lemma Sample_kdf : kdf_yields_key Sample.C.
Proof.
  intros password salt. cbn [pbkdf2 Sample.C]. unfold Sample.kdf. split.
  - rewrite length_map, length_seq. reflexivity.
  - apply Forall_map, Forall_forall. intros i _. unfold is_byte.
    apply Z.mod_pos_bound. lia.
Qed.

Lemma Sample_public : public_key_is_32 Sample.C.
Proof.
  intros seed. cbn [ed25519_public Sample.C]. unfold Sample.public. split.
  - rewrite length_map, length_seq. reflexivity.
  - apply Forall_map, Forall_forall. intros i _. unfold is_byte.
    apply Z.mod_pos_bound. lia.
Qed.

Lemma Sample_number : number_of_empty_is_zero Sample.C.
Proof. reflexivity. Qed.

Lemma Sample_base58 : base58_injective Sample.C.
Proof.
  intros a b Ha Hb E. cbn [base58 Sample.C] in E.
  rewrite <- (HexFacts.hex_decode_encode a Ha), <- (HexFacts.hex_decode_encode b Hb), E.
  reflexivity.
Qed.

(** ** Closed instances *)

(** C4, on a string of paired units: "secret" under the first sample key. *)
Lemma C4_round_trip_witness :
  key_ok Sample.K1 /\ Utf8.well_formed (lit "secret") = true /\
  decryptPrivateKey
    (Sample.blob (encryptPrivateKey (lit "secret") Sample.K1) Sample.g0)
    Sample.K1 = Ok (lit "secret").
Proof.
  assert (H1 : key_ok Sample.K1) by reflexivity.
  assert (H2 : Utf8.well_formed (lit "secret") = true) by reflexivity.
  split; [exact H1|]. split; [exact H2|].
  destruct (C4_round_trip (lit "secret") Sample.K1 Sample.g0 H1 H2)
    as (_ & _ & E & _ & D).
  unfold Sample.blob. rewrite E. exact D.
Defined.

(** C4 fails as stated on a string that holds a surrogate without its
    partner: the unit U+D800 is encrypted as U+FFFD and comes back as
    U+FFFD. *)
Lemma C4_unpaired_surrogate :
  key_ok Sample.K1 /\
  is_ok (encryptPrivateKey [0xD800] Sample.K1 Sample.g0) = true /\
  decryptPrivateKey
    (Sample.blob (encryptPrivateKey [0xD800] Sample.K1) Sample.g0)
    Sample.K1 = Ok [0xFFFD] /\
  Ok [0xFFFD] <> Ok [0xD800].
Proof.
  split; [reflexivity|]. split; [vm_compute; reflexivity|].
  split; [vm_compute; reflexivity|discriminate].
Qed.

(** C5, on four malformed blobs under the first sample key: no colon, a
    first segment that is no hexadecimal, a second segment that is none, and
    a second segment of odd length. *)
Lemma C5_decrypt_failures_witness :
  (exists e, decryptPrivateKey (lit "000102030405060708090a0b0c0d0e0f")
               Sample.K1 = Throw e) /\
  decryptPrivateKey (lit "zz:00") Sample.K1 = Throw InvalidIV /\
  (exists e, decryptPrivateKey (lit "000102030405060708090a0b0c0d0e0f:zz")
               Sample.K1 = Throw e) /\
  (exists e,
     decryptPrivateKey
       (lit "000102030405060708090a0b0c0d0e0f:e87e46f89e7d4d940c7659091f5f1e93z")
       Sample.K1 = Throw e).
Proof.
  destruct C5_decrypt_failures as (A & B & C & _).
  split; [|split; [|split]].
  - apply A. vm_compute. intuition discriminate.
  - apply B. vm_compute. discriminate.
  - apply (C _ _ (lit "000102030405060708090a0b0c0d0e0f") (lit "zz") []);
      [reflexivity|right; left; reflexivity].
  - apply (C _ _ (lit "000102030405060708090a0b0c0d0e0f")
             (lit "e87e46f89e7d4d940c7659091f5f1e93z") []);
      [reflexivity|left; reflexivity].
Defined.

(** C5 fails as stated, in both of its parts.  "secret" encrypted under the
    first sample key is decrypted under the second, which differs from it in
    its last two octets, without any exception, and what comes back is not
    "secret".  And a blob whose segments are no hexadecimal is decrypted all
    the same: with "zz" after the digits of the IV, with "zz" after the
    digits of the ciphertext, and with the last two digits of the ciphertext
    replaced by U+0139 and U+0133, the call returns "secret". *)
Lemma C5_wrong_key_and_bad_hex_return :
  key_ok Sample.K1 /\ key_ok Sample.K2 /\
  Hex.decode Sample.K1 <> Hex.decode Sample.K2 /\
  Sample.blob (encryptPrivateKey (lit "secret") Sample.K1) Sample.g0
  = lit "000102030405060708090a0b0c0d0e0f:e87e46f89e7d4d940c7659091f5f1e93" /\
  decryptPrivateKey
    (lit "000102030405060708090a0b0c0d0e0f:e87e46f89e7d4d940c7659091f5f1e93")
    Sample.K2
  = Ok [711; 65533; 65533; 55; 65533; 57; 113; 65533; 65533; 79; 65; 111;
        117; 65533] /\
  Ok [711; 65533; 65533; 55; 65533; 57; 113; 65533; 65533; 79; 65; 111;
      117; 65533] <> Ok (lit "secret") /\
  decryptPrivateKey
    (lit "000102030405060708090a0b0c0d0e0fzz:e87e46f89e7d4d940c7659091f5f1e93")
    Sample.K1 = Ok (lit "secret") /\
  decryptPrivateKey
    (lit "000102030405060708090a0b0c0d0e0f:e87e46f89e7d4d940c7659091f5f1e93zz")
    Sample.K1 = Ok (lit "secret") /\
  decryptPrivateKey
    (lit "000102030405060708090a0b0c0d0e0f:e87e46f89e7d4d940c7659091f5f1e"
       ++ [0x139; 0x133])
    Sample.K1 = Ok (lit "secret").
Proof.
  split; [reflexivity|]. split; [reflexivity|].
  split; [vm_compute; discriminate|]. split; [vm_compute; reflexivity|].
  split; [vm_compute; reflexivity|]. split; [vm_compute; discriminate|].
  split; [vm_compute; reflexivity|]. split; vm_compute; reflexivity.
Qed.

(** ** The sample account *)

(** [exports.register] on the empty collection: 201, and the collection
    holds the one document. *)
Lemma Sample_account :
  status (reply Sample.account) = 201 /\ Sample.d1 = [Sample.u1] /\
  attainable Sample.C Sample.d1 /\
  findOne Sample.alice Sample.d1 = Some Sample.u1 /\
  findById 1 Sample.d1 = Some Sample.u1 /\
  User.password Sample.u1
  = Some (bcrypt_hash Sample.C Sample.old (fst (randomBytes 16 Sample.g0))) /\
  bcrypt_compare Sample.C Sample.old
    (bcrypt_hash Sample.C Sample.old (fst (randomBytes 16 Sample.g0))) = true.
Proof.
  split; [vm_compute; reflexivity|]. split; [vm_compute; reflexivity|].
  split; [exact (attain_account Sample.C [] Sample.alice Sample.mail Sample.old
                   0 Sample.g0 (attain_empty Sample.C))|].
  split; [vm_compute; reflexivity|]. split; [vm_compute; reflexivity|].
  split; vm_compute; reflexivity.
Qed.

(** C1, on the sample account: the user asks for a new password under the
    password the account was made with. *)
Lemma C1_recovery_never_rekeys_witness :
  findOne Sample.alice Sample.d1 = Some Sample.u1 /\
  bcrypt_compare Sample.C Sample.old
    (bcrypt_hash Sample.C Sample.old (fst (randomBytes 16 Sample.g0))) = true /\
  status (reply (recoverWalletFromPhrase Sample.C Sample.d1 Sample.alice
                   Sample.old Sample.new Sample.g1)) = 500 /\
  message (reply (recoverWalletFromPhrase Sample.C Sample.d1 Sample.alice
                    Sample.old Sample.new Sample.g1)) = lit "Recovery failed".
Proof.
  destruct Sample_account as (_ & _ & _ & F & _ & P & B).
  split; [exact F|]. split; [exact B|].
  exact (proj2 (proj2 (proj2
           (C1_recovery_never_rekeys Sample.C Sample.d1 Sample.alice Sample.old
              Sample.new Sample.g1))) Sample.u1 _ F P B).
Defined.

(** C2, on the sample account: the user asks for a default wallet. *)
Lemma C2_default_never_moves_witness :
  findById 1 Sample.d1 = Some Sample.u1 /\
  status (reply (setDefaultWallet Sample.d1 1 Sample.lower ethereum)) = 500 /\
  message (reply (setDefaultWallet Sample.d1 1 Sample.lower ethereum))
  = lit "Server error".
Proof.
  destruct Sample_account as (_ & _ & _ & _ & F & _).
  split; [exact F|].
  exact (proj2 (proj2 (proj2
           (C2_default_never_moves Sample.d1 1 Sample.lower ethereum)))
           Sample.u1 F).
Defined.

(** C3, with the sample collaborators. *)
Lemma C3_solana_key_never_rebuilt_witness :
  kdf_yields_key Sample.C /\ public_key_is_32 Sample.C /\
  number_of_empty_is_zero Sample.C /\ base58_injective Sample.C /\
  exists object answer g' w sk,
    registration Sample.C Sample.alice Sample.old Sample.g0
    = Ok (object, answer, g') /\
    nth_error (UserObject.wallets object) 1 = Some w /\
    decryptPrivateKey (WalletObject.privateKey w)
      (derivedKey Sample.C Sample.old (UserObject.salt object))
    = Ok (Utf8.decode sk) /\
    secretKeyOfString Sample.C (Utf8.decode sk) <> sk.
Proof.
  split; [exact Sample_kdf|]. split; [exact Sample_public|].
  split; [exact Sample_number|]. split; [exact Sample_base58|].
  destruct (C3_solana_key_never_rebuilt Sample.C Sample.alice Sample.old
              Sample.g0 Sample_kdf Sample_public Sample_number Sample_base58)
    as (object & answer & g' & w & sk & R & W & _ & _ & _ & _ & _ & D & N & _).
  exists object, answer, g', w, sk.
  split; [exact R|]. split; [exact W|]. split; [exact D|exact N].
Defined.

(** C6, on the sample account: the user asks for an Ethereum wallet. *)
Lemma C6_additional_wallet_never_appended_witness :
  findById 1 Sample.d1 = Some Sample.u1 /\
  status (reply (createAdditionalWallet Sample.C Sample.d1 1 ethereum []
                   Sample.old 0 Sample.g2)) = 500 /\
  message (reply (createAdditionalWallet Sample.C Sample.d1 1 ethereum []
                    Sample.old 0 Sample.g2)) = lit "Server error".
Proof.
  destruct Sample_account as (_ & _ & _ & _ & F & _).
  split; [exact F|].
  exact (proj2 (proj2 (proj2
           (C6_additional_wallet_never_appended Sample.C Sample.d1 1 ethereum []
              Sample.old 0 Sample.g2))) Sample.u1 F).
Defined.

(** C8, on the sample account: a name that is not there, and the name that
    is with a wrong password. *)
Lemma C8_login_failures_differ_witness :
  loginUser Sample.C Sample.d1 (lit "nobody") (lit "x")
  = respond 404 (lit "User not found") NoData /\
  loginUser Sample.C Sample.d1 Sample.alice (lit "wrong")
  = respond 400 (lit "Invalid credentials") NoData.
Proof.
  destruct Sample_account as (_ & _ & _ & F & _ & P & _).
  split.
  - apply (C8_login_failures_differ Sample.C Sample.d1 (lit "nobody") (lit "x")).
    vm_compute. reflexivity.
  - apply (proj1 (proj2 (C8_login_failures_differ Sample.C Sample.d1
                           Sample.alice (lit "wrong"))) Sample.u1 _ F P).
    vm_compute. reflexivity.
Defined.

(** C9, on the sample account: one valid address, and a batch that holds it
    twice. *)
Lemma C9_address_book_never_grows_witness :
  findById 1 Sample.d1 = Some Sample.u1 /\
  validAddress Sample.C Sample.lower ethereum = true /\
  status (reply (addAddressBookEntry Sample.C Sample.d1 1 (lit "Bob")
                   Sample.lower ethereum [] 0 (Sample.oid 0))) = 500 /\
  snd (batchLoop Sample.C [] 0
         [ {| be_label := lit "Bob"; be_address := Sample.lower;
              be_blockchain := ethereum; be_notes := [] |};
           {| be_label := lit "Bob"; be_address := Sample.lower;
              be_blockchain := ethereum; be_notes := [] |} ])
  = [ ({| be_label := lit "Bob"; be_address := Sample.lower;
          be_blockchain := ethereum; be_notes := [] |},
       lit "Duplicate address in batch") ] /\
  status (reply (addBatchAddressBookEntries Sample.C Sample.d1 1
                   [ {| be_label := lit "Bob"; be_address := Sample.lower;
                        be_blockchain := ethereum; be_notes := [] |};
                     {| be_label := lit "Bob"; be_address := Sample.lower;
                        be_blockchain := ethereum; be_notes := [] |} ]
                   0 Sample.oid)) = 500.
Proof.
  destruct Sample_account as (_ & _ & _ & _ & F & _).
  destruct (C9_address_book_never_grows Sample.C) as (_ & A & B & L).
  assert (V : validAddress Sample.C Sample.lower ethereum = true)
    by (vm_compute; reflexivity).
  split; [exact F|]. split; [exact V|]. split; [|split].
  - exact (proj1 (proj2 (proj2 (A Sample.d1 1 (lit "Bob") Sample.lower ethereum
                                  [] 0 (Sample.oid 0) Sample.u1 F)) V)).
  - exact (proj1 (L [] 0
                    {| be_label := lit "Bob"; be_address := Sample.lower;
                       be_blockchain := ethereum; be_notes := [] |}
                    eq_refl eq_refl (or_introl eq_refl) V)).
  - apply (proj2 (proj2 (B Sample.d1 1
                           [ {| be_label := lit "Bob"; be_address := Sample.lower;
                                be_blockchain := ethereum; be_notes := [] |};
                             {| be_label := lit "Bob"; be_address := Sample.lower;
                                be_blockchain := ethereum; be_notes := [] |} ]
                           0 Sample.oid Sample.u1 F ltac:(discriminate)))).
    vm_compute. discriminate.
Defined.

(** C10, on the sample account: an additional wallet asked for under a
    password that is not the user's. *)
Lemma C10_supplied_password_never_used_witness :
  findById 1 Sample.d1 = Some Sample.u1 /\
  bcrypt_compare Sample.C Sample.guess
    (bcrypt_hash Sample.C Sample.old (fst (randomBytes 16 Sample.g0))) = false /\
  status (reply (createAdditionalWallet Sample.C Sample.d1 1 ethereum []
                   Sample.guess 0 Sample.g2)) = 500 /\
  saves (createAdditionalWallet Sample.C Sample.d1 1 ethereum []
           Sample.guess 0 Sample.g2) = [].
Proof.
  destruct Sample_account as (_ & _ & _ & _ & F & _).
  split; [exact F|]. split; [vm_compute; reflexivity|].
  destruct (proj1 (C10_supplied_password_never_used Sample.C Sample.d1 1
                     ethereum [] 0 Sample.g2) Sample.guess Sample.u1 F)
    as (S & _ & E).
  split; [exact S|exact E].
Defined.

(* ====================================================================== *)
(** * Part III: the rest of the code                                        *)
(* ====================================================================== *)

(** ** Keys, blobs and hashes of [src/utils/encryption.js] *)

Lemma digit_hex n : 0 <= n < 16 -> hex_digit (Hex.digit n) = true.
Proof.
  intros H. unfold hex_digit, Hex.digit.
  destruct (Z.ltb_spec n 10);
    repeat match goal with
           | |- context [?a <=? ?b] => destruct (Z.leb_spec a b)
           end; try reflexivity; lia.
Qed.

Lemma encode_hex_digits bs : Forall is_byte bs ->
  forallb hex_digit (Hex.encode bs) = true.
Proof.
  induction 1 as [|b bs Hb _ IH]; [reflexivity|].
  unfold Hex.encode in *. cbn [flat_map Hex.ofByte app forallb].
  unfold is_byte in Hb.
  rewrite !digit_hex, IH; [reflexivity| |]; zsolve.
Qed.

Lemma decode_short s : (length (Hex.decode s) <= length s / 2)%nat.
Proof.
  remember (length s) as n eqn:E. revert s E.
  induction n as [n IH] using lt_wf_ind. intros s ->.
  destruct s as [|c1 [|c2 r]]; cbn [Hex.decode length]; try lia.
  destruct (Hex.value c1), (Hex.value c2); cbn [length]; try lia.
  specialize (IH (length r) ltac:(cbn; lia) r eq_refl).
  replace (S (S (length r))) with (length r + 1 * 2)%nat by lia.
  rewrite Nat.div_add by lia. lia.
Qed.

(** X1.  [generateRandomKey] returns twice as many lower-case hexadecimal
    digits as the octets it was asked for, and they decode to the octets
    drawn.  With the default length the result is a key under which
    [encryptPrivateKey] and [decryptPrivateKey] are inverse of each other;
    with any other length [encryptPrivateKey] throws for an invalid key
    length and [decryptPrivateKey] throws on every blob. *)
Theorem generateRandomKey_usable (len : option nat) (g : entropy) :
  let n := match len with Some n => n | None => 32%nat end in
  exists K,
    generateRandomKey len g = Ok (K, snd (randomBytes n g)) /\
    length K = (2 * n)%nat /\
    forallb hex_digit K = true /\
    Hex.decode K = fst (randomBytes n g) /\
    (n = 32%nat ->
     forall P g', Utf8.well_formed P = true ->
       exists blob g'', encryptPrivateKey P K g' = Ok (blob, g'') /\
                        decryptPrivateKey blob K = Ok P) /\
    (n <> 32%nat ->
     forall P g',
       encryptPrivateKey P K g' = Throw InvalidKeyLength /\
       forall blob, exists e, decryptPrivateKey blob K = Throw e).
Proof.
  intros n. destruct (randomBytes_bytes n g) as [L B].
  exists (Hex.encode (fst (randomBytes n g))).
  assert (D : Hex.decode (Hex.encode (fst (randomBytes n g)))
              = fst (randomBytes n g))
    by (apply HexFacts.hex_decode_encode, B).
  split.
  { unfold generateRandomKey, bind, draw, ret. fold n.
    destruct (randomBytes n g); reflexivity. }
  split; [rewrite HexFacts.encode_length, L; reflexivity|].
  split; [apply encode_hex_digits, B|].
  split; [exact D|]. split.
  - intros E P g' W.
    assert (K : key_ok (Hex.encode (fst (randomBytes n g))))
      by (unfold key_ok; rewrite D, L; exact E).
    eexists. eexists. split; [apply encryptPrivateKey_ok, K|].
    eapply decrypt_encrypt_well_formed;
      [exact K|exact W|apply encryptPrivateKey_ok, K].
  - intros N P g'. split.
    + unfold encryptPrivateKey, bind, draw. cbn zeta. rewrite D, L.
      destruct (Nat.eqb_spec n 32); [contradiction|reflexivity].
    + intros blob. unfold decryptPrivateKey. cbv zeta. rewrite D, L.
      destruct (negb _); [eexists; reflexivity|].
      destruct (Nat.eqb_spec n 32); [contradiction|].
      cbn [negb]. eexists; reflexivity.
Qed.

Lemma seal_length key iv data :
  AES.valid_key key -> AES.block iv -> Forall is_byte data ->
  length (Cbc.seal key iv data) = (16 * (length data / 16 + 1))%nat.
Proof.
  intros K I B. unfold Cbc.seal.
  destruct (CbcFacts.pad_length data) as [M G].
  destruct (CbcFacts.chunks_spec (Cbc.pad data) M (CbcFacts.pad_bytes _ B))
    as [F C].
  pose proof (CbcFacts.encrypt_blocks (AES.encrypt_block key)
                (fun b => AESFacts.encrypt_block_block key b K) _ iv F I) as F'.
  destruct (CbcFacts.blocks_concat _ F') as (_ & L & _).
  rewrite CbcFacts.encrypt_length in L. rewrite L.
  assert (Lc : length (Cbc.pad data) = (16 * length (Cbc.chunks (Cbc.pad data)))%nat).
  { rewrite <- C at 1. apply (CbcFacts.blocks_concat _ F). }
  rewrite <- Lc. unfold Cbc.pad. rewrite length_app, repeat_length.
  pose proof (Nat.mod_upper_bound (length data) 16 ltac:(lia)).
  pose proof (Nat.div_mod_eq (length data) 16). lia.
Qed.

Lemma count_colon_hex s : forallb hex_digit s = true ->
  count_occ Z.eq_dec s colon = 0%nat.
Proof.
  induction s as [|c r IH]; [reflexivity|]. cbn [forallb].
  intros H. apply andb_true_iff in H. destruct H as [Hc Hr].
  cbn [count_occ]. destruct (Z.eq_dec c colon) as [->|_]; [discriminate|].
  apply IH, Hr.
Qed.

(** X2.  The blob [encryptPrivateKey] returns is 32 digits of IV, one colon
    and 32 digits for every 16 octets of the UTF-8 plaintext, begun or
    completed: 65 + 32 * (octets / 16) characters, all of them lower-case
    hexadecimal digits but the one colon.  The size of the blob depends on
    the plaintext only through the number of its UTF-8 octets. *)
Theorem encrypted_blob_size P K g blob g' :
  key_ok K -> Forall is_unit P ->
  encryptPrivateKey P K g = Ok (blob, g') ->
  length blob = (65 + 32 * (length (Utf8.encode P) / 16))%nat /\
  count_occ Z.eq_dec blob colon = 1%nat /\
  forallb (fun u => hex_digit u || (u =? colon)) blob = true.
Proof.
  intros HK U E. rewrite (encryptPrivateKey_ok P K g HK) in E.
  pose proof (f_equal (fun r => match r with
                                | Ok (x, _) => x
                                | Throw _ => blob
                                end) E) as Eb.
  cbv beta iota in Eb. rewrite <- Eb. clear E Eb.
  set (iv := fst (randomBytes 16 g)).
  pose proof (randomBytes_block g) as I. fold iv in I.
  pose proof (Utf8Facts.encode_bytes P U) as B.
  pose proof (seal_length _ iv _ (key_ok_valid K HK) I B) as L.
  destruct (CbcFacts.seal_shape _ iv _ (key_ok_valid K HK) I B) as (Bs & _ & _).
  set (ct := Cbc.seal (Hex.decode K) iv (Utf8.encode P)) in *.
  unfold blob_of. split; [|split].
  - rewrite length_app. cbn [length]. rewrite !HexFacts.encode_length, L.
    destruct I as [Li _]. rewrite Li. lia.
  - rewrite count_occ_app. cbn [count_occ].
    destruct (Z.eq_dec colon colon) as [_|N]; [|contradiction].
    rewrite !count_colon_hex; [reflexivity| |];
      apply encode_hex_digits; [exact Bs|apply I].
  - rewrite forallb_app. cbn [forallb].
    assert (X : forall bs, Forall is_byte bs ->
                forallb (fun u => hex_digit u || (u =? colon)) (Hex.encode bs) = true).
    { intros bs Hb. pose proof (encode_hex_digits bs Hb) as H.
      rewrite forallb_forall in *. intros u Hu. rewrite (H u Hu). reflexivity. }
    rewrite !X; [reflexivity|exact Bs|apply I].
Qed.

Lemma encrypted_blob_size_witness :
  key_ok Sample.K1 /\ Forall is_unit (lit "secret") /\
  length (Sample.blob (encryptPrivateKey (lit "secret") Sample.K1) Sample.g0)
  = 65%nat.
Proof.
  assert (K : key_ok Sample.K1) by reflexivity.
  assert (U : Forall is_unit (lit "secret"))
    by (apply Utf8Facts.well_formed_units; reflexivity).
  split; [exact K|]. split; [exact U|].
  apply (encrypted_blob_size (lit "secret") Sample.K1 Sample.g0 _
           (snd (randomBytes 16 Sample.g0)) K U).
  vm_compute. reflexivity.
Defined.

Lemma split_append sep a : forall b,
  split sep (a ++ sep :: b) = split sep a ++ split sep b.
Proof.
  induction a as [|c r IH]; intros b.
  - cbn [app split]. rewrite Z.eqb_refl. reflexivity.
  - cbn [app split]. destruct (Z.eqb_spec c sep) as [->|N].
    + rewrite IH. reflexivity.
    + rewrite IH. destruct (split sep r) as [|p ps] eqn:E.
      * exfalso. eapply split_nonempty, E.
      * reflexivity.
Qed.

Lemma split_two sep s : In sep s ->
  exists p q rest, split sep s = p :: q :: rest.
Proof.
  induction s as [|c r IH]; [contradiction|]. intros H. cbn [split].
  destruct (Z.eqb_spec c sep) as [->|N].
  - destruct (split sep r) as [|q rest] eqn:E.
    + exfalso. eapply split_nonempty, E.
    + eexists. eexists. eexists. reflexivity.
  - destruct H as [->|H]; [contradiction|].
    destruct (IH H) as (p & q & rest & E). rewrite E.
    eexists. eexists. eexists. reflexivity.
Qed.

Lemma decode_stops bs c junk : Forall is_byte bs -> Hex.value c = None ->
  Hex.decode (Hex.encode bs ++ c :: junk) = bs.
Proof.
  intros B V. induction B as [|b bs Hb _ IH].
  - cbn [Hex.encode flat_map app Hex.decode]. rewrite V.
    destruct junk; reflexivity.
  - unfold Hex.encode in *. cbn [flat_map Hex.ofByte app Hex.decode].
    unfold is_byte in Hb.
    rewrite !HexFacts.value_digit by zsolve. rewrite IH. f_equal. zsolve.
Qed.

(** X3.  [decryptPrivateKey] reads the first two segments of the blob and
    nothing else: whatever follows a second colon is ignored.  In the
    ciphertext segment, whatever follows the first pair that does not start
    with a hexadecimal digit is ignored too, as long as the segment has an
    even number of characters: a blob with such a tail decrypts exactly as
    the blob without it.  With an odd number of characters in the segment
    the call throws, whatever the characters are. *)
Theorem decrypt_ignores_tail K :
  (forall blob junk, In colon blob ->
     decryptPrivateKey (blob ++ colon :: junk) K = decryptPrivateKey blob K) /\
  (forall iv ct c junk,
     Forall is_byte iv -> Forall is_byte ct ->
     Hex.value c = None -> c <> colon -> ~ In colon junk ->
     Nat.odd (length junk) = true ->
     decryptPrivateKey (blob_of iv ct ++ c :: junk) K
     = decryptPrivateKey (blob_of iv ct) K) /\
  (forall iv ct c junk,
     AES.block iv -> Forall is_byte ct -> key_ok K ->
     c <> colon -> ~ In colon junk ->
     Nat.odd (length junk) = false ->
     decryptPrivateKey (blob_of iv ct ++ c :: junk) K = Throw InvalidArgValue).
Proof.
  assert (E : forall iv ct c junk,
            Forall is_byte iv -> Forall is_byte ct ->
            c <> colon -> ~ In colon junk ->
            split colon (blob_of iv ct ++ c :: junk)
            = [Hex.encode iv; Hex.encode ct ++ c :: junk]).
  { intros iv ct c junk Bi Bc Nc Nj.
    unfold blob_of. rewrite <- app_assoc. cbn [app].
    rewrite split_app by (apply HexFacts.encode_no_colon, Bi).
    rewrite split_none; [reflexivity|].
    intros H. apply in_app_or in H. destruct H as [H|[H|H]].
    - revert H. apply HexFacts.encode_no_colon, Bc.
    - congruence.
    - contradiction. }
  assert (L : forall ct c junk,
            Nat.odd (length (Hex.encode ct ++ c :: junk))
            = negb (Nat.odd (length junk))).
  { intros ct c junk. rewrite length_app, HexFacts.encode_length.
    cbn [length]. rewrite Nat.odd_add, Nat.odd_succ, <- Nat.negb_odd.
    rewrite <- Nat.negb_even, Nat.even_mul. reflexivity. }
  split; [|split].
  - intros blob junk H. unfold decryptPrivateKey.
    rewrite split_append. destruct (split_two colon blob H) as (p & q & rest & X).
    rewrite X. reflexivity.
  - intros iv ct c junk Bi Bc V Nc Nj O. unfold decryptPrivateKey.
    rewrite (split_blob iv ct Bi Bc), (E iv ct c junk Bi Bc Nc Nj).
    cbn [nth nth_error]. rewrite (decode_stops ct c junk Bc V).
    rewrite (HexFacts.hex_decode_encode ct Bc).
    rewrite L, O, HexFacts.encode_even. reflexivity.
  - intros iv ct c junk [Li Bi] Bc HK Nc Nj O. unfold decryptPrivateKey.
    rewrite (E iv ct c junk Bi Bc Nc Nj). cbn [nth nth_error].
    rewrite (HexFacts.hex_decode_encode iv Bi), Li, HK, L, O. reflexivity.
Qed.

Lemma decrypt_ignores_tail_witness :
  Hex.value 122 = None /\
  decryptPrivateKey
    (blob_of (fst (randomBytes 16 Sample.g0))
       (Cbc.seal (Hex.decode Sample.K1) (fst (randomBytes 16 Sample.g0))
          (Utf8.encode (lit "secret")))
     ++ 122 :: [122])
    Sample.K1
  = decryptPrivateKey
      (blob_of (fst (randomBytes 16 Sample.g0))
         (Cbc.seal (Hex.decode Sample.K1) (fst (randomBytes 16 Sample.g0))
            (Utf8.encode (lit "secret"))))
      Sample.K1 /\
  decryptPrivateKey
    (blob_of (fst (randomBytes 16 Sample.g0))
       (Cbc.seal (Hex.decode Sample.K1) (fst (randomBytes 16 Sample.g0))
          (Utf8.encode (lit "secret")))
     ++ 122 :: [])
    Sample.K1
  = Throw InvalidArgValue.
Proof.
  assert (Bi : AES.block (fst (randomBytes 16 Sample.g0)))
    by apply randomBytes_block.
  assert (Bc : Forall is_byte
                 (Cbc.seal (Hex.decode Sample.K1) (fst (randomBytes 16 Sample.g0))
                    (Utf8.encode (lit "secret")))).
  { apply CbcFacts.seal_shape.
    - apply key_ok_valid. reflexivity.
    - exact Bi.
    - apply Utf8Facts.encode_bytes, Utf8Facts.well_formed_units. reflexivity. }
  split; [reflexivity|]. split.
  - apply (proj1 (proj2 (decrypt_ignores_tail Sample.K1))); try assumption.
    + apply Bi.
    + reflexivity.
    + discriminate.
    + cbn. intuition discriminate.
    + reflexivity.
  - apply (proj2 (proj2 (decrypt_ignores_tail Sample.K1))); try assumption.
    + reflexivity.
    + discriminate.
    + intros [].
    + reflexivity.
Defined.

(** *** SHA-256 *)

Lemma round_length s kw : length s = 8%nat -> length (SHA256.round s kw) = 8%nat.
Proof.
  intros L. do 9 (destruct s as [|? s]; try discriminate). reflexivity.
Qed.

Lemma rounds_length kws : forall s, length s = 8%nat ->
  length (fold_left SHA256.round kws s) = 8%nat.
Proof.
  induction kws as [|kw r IH]; intros s L; cbn [fold_left]; [exact L|].
  apply IH, round_length, L.
Qed.

Lemma add_all_length h : forall s, length s = length h ->
  length (SHA256.add_all h s) = length h.
Proof.
  induction h as [|x h IH]; intros [|y s] L; try discriminate; [reflexivity|].
  cbn [SHA256.add_all length]. f_equal. apply IH. injection L as L. exact L.
Qed.

Lemma compress_length h block : length h = 8%nat ->
  length (SHA256.compress h block) = 8%nat.
Proof.
  intros L. unfold SHA256.compress. rewrite add_all_length; [exact L|].
  rewrite L. apply rounds_length, L.
Qed.

Lemma compress_all_length bl : forall h, length h = 8%nat ->
  length (fold_left SHA256.compress bl h) = 8%nat.
Proof.
  induction bl as [|b r IH]; intros h L; cbn [fold_left]; [exact L|].
  apply IH, compress_length, L.
Qed.

Lemma be32_bytes x : Forall is_byte (SHA256.be32 x).
Proof.
  unfold SHA256.be32, is_byte.
  repeat (apply Forall_cons; [apply Z.mod_pos_bound; lia|]). apply Forall_nil.
Qed.

Lemma digest_shape m :
  length (SHA256.digest m) = 32%nat /\ Forall is_byte (SHA256.digest m).
Proof.
  unfold SHA256.digest.
  set (h := fold_left SHA256.compress _ SHA256.H0).
  assert (L : length h = 8%nat) by (apply compress_all_length; reflexivity).
  clearbody h. split.
  - do 9 (destruct h as [|? h]; try discriminate). reflexivity.
  - clear L. induction h as [|x h IH]; [apply Forall_nil|].
    cbn [flat_map]. apply Forall_app. split; [apply be32_bytes|exact IH].
Qed.

(** X4.  [hashData] returns 64 lower-case hexadecimal digits whatever it is
    given, and it sees the data and the salt only joined: moving characters
    from the end of the data to the start of the salt leaves the hash as it
    was. *)
Theorem hashData_joins a b c :
  length (hashData a b) = 64%nat /\
  forallb hex_digit (hashData a b) = true /\
  hashData (a ++ b) c = hashData a (b ++ c).
Proof.
  unfold hashData. destruct (digest_shape (Utf8.encode (a ++ b))) as [L B].
  split; [rewrite HexFacts.encode_length, L; reflexivity|].
  split; [apply encode_hex_digits, B|].
  rewrite <- app_assoc. reflexivity.
Qed.

(** Known answers of SHA-256: FIPS 180-4 "abc", the empty message, and a
    message of 56 octets, which needs a second block. *)
Example hashData_known_answers :
  hashData (lit "ab") (lit "c")
  = lit "ba7816bf8f01cfea414140de5dae2223b00361a396177a9cb410ff61f20015ad" /\
  hashData [] []
  = lit "e3b0c44298fc1c149afbf4c8996fb92427ae41e4649b934ca495991b7852b855" /\
  hashData (repeat 97 50) (repeat 97 6)
  = lit "b35439a4ac6f0948b6d6f9e3c6af0f5f590ce20f1bde7090ef7970686ec6738a".
Proof. repeat split; vm_compute; reflexivity. Qed.

(** ** The token checks *)

Lemma startsWith_app p s : startsWith (p ++ s) p = true.
Proof.
  induction p as [|c p IH]; [destruct s; reflexivity|].
  cbn [app startsWith]. rewrite Z.eqb_refl. exact IH.
Qed.

Lemma second_part (w token rest : jsstring) :
  ~ In space w -> ~ In space token ->
  nth_error (split space (w ++ space :: token ++ rest)) 1
  = match rest with
    | [] => @Some jsstring token
    | c :: _ => if c =? space then @Some jsstring token
                else nth_error (split space (token ++ rest)) 0
    end.
Proof.
  intros Hw Ht. rewrite split_app by exact Hw. cbn [nth_error].
  destruct rest as [|c r].
  - rewrite app_nil_r, split_none by exact Ht. reflexivity.
  - destruct (Z.eqb_spec c space) as [->|N]; [|reflexivity].
    rewrite split_app by exact Ht. reflexivity.
Qed.

Lemma missing_verify jwt_verify token decoded :
  verify_refuses_missing jwt_verify ->
  jwt_verify token = inl decoded -> missing token = false.
Proof.
  intros R E. destruct (missing token) eqn:M; [|reflexivity].
  destruct (R token M) as (m & X). congruence.
Qed.

(** X5.  [protect] lets a request through in one case only: the header
    starts with "Bearer", [jwt.verify] accepts what stands between the first
    and the second space, and the collection holds a user with the [id] of
    the payload.  Then it answers nothing and hands the payload on.  In every
    other case it does not call [next()], its first answer has status 401,
    and it answers at most once more, again with 401. *)
Theorem protect_decides jwt_verify d authorization :
  verify_refuses_missing jwt_verify ->
  (forall decoded,
     next (protect jwt_verify d authorization) = Some decoded <->
     exists h token user,
       authorization = Some h /\
       startsWith h (lit "Bearer") = true /\
       nth_error (split space h) 1 = Some token /\
       jwt_verify (Some token) = inl decoded /\
       findById (Decoded.id decoded) d = Some user) /\
  match next (protect jwt_verify d authorization) with
  | Some _ => refusals (protect jwt_verify d authorization) = []
  | None =>
      exists r rest,
        refusals (protect jwt_verify d authorization) = r :: rest /\
        code r = 401 /\ (length rest <= 1)%nat /\
        Forall (fun r' => code r' = 401) rest
  end.
Proof.
  intros R. unfold protect.
  destruct authorization as [h|].
  2:{ split.
      - intros decoded. split; [discriminate|].
        intros (h & _ & _ & X & _). discriminate.
      - cbn. eexists. eexists. split; [reflexivity|].
        split; [reflexivity|]. split; [cbn; lia|apply Forall_nil]. }
  destruct (startsWith h (lit "Bearer")) eqn:B.
  2:{ split.
      - intros decoded. split; [discriminate|].
        intros (h' & _ & _ & [= <-] & X & _). congruence.
      - cbn. eexists. eexists. split; [reflexivity|].
        split; [reflexivity|]. split; [cbn; lia|apply Forall_nil]. }
  destruct (jwt_verify (nth_error (split space h) 1)) as [decoded|m] eqn:V.
  - pose proof (missing_verify _ _ _ R V) as M.
    destruct (nth_error (split space h) 1) as [token|] eqn:T; [|discriminate].
    destruct (findById (Decoded.id decoded) d) as [user|] eqn:F.
    + rewrite M. cbn [next refusals]. split; [|reflexivity].
      intros decoded'. split.
      * intros [= <-]. exists h, token, user. auto.
      * intros (h' & token' & user' & [= <-] & _ & T' & V' & _).
        rewrite T in T'. injection T' as <-. congruence.
    + cbn [next refusals]. split.
      * intros decoded'. split; [discriminate|].
        intros (h' & token' & user' & [= <-] & _ & T' & V' & F').
        rewrite T in T'. injection T' as <-.
        rewrite V in V'. injection V' as <-. congruence.
      * eexists. eexists. split; [reflexivity|].
        split; [reflexivity|]. split; [cbn; lia|apply Forall_nil].
  - cbn [next refusals]. split.
    + intros decoded'. split; [discriminate|].
      intros (h' & token' & user' & [= <-] & _ & T' & V' & _).
      rewrite T' in V. congruence.
    + eexists. eexists. split; [reflexivity|]. split; [reflexivity|].
      destruct (missing _); cbn [length]; split; try lia;
        repeat (apply Forall_cons; [reflexivity|]); apply Forall_nil.
Qed.

Lemma protect_decides_witness :
  verify_refuses_missing Scenario.verify /\
  next (protect Scenario.verify Sample.d1 (Some Scenario.header))
  = Some {| Decoded.id := 1; Decoded.username := lit "alice" |}.
Proof.
  assert (R : verify_refuses_missing Scenario.verify).
  { intros [t|] M; [|eexists; reflexivity].
    destruct t; [eexists; reflexivity|discriminate]. }
  split; [exact R|].
  apply (proj1 (protect_decides Scenario.verify Sample.d1
                  (Some Scenario.header) R)).
  exists Scenario.header, Scenario.token, Sample.u1.
  repeat split; vm_compute; reflexivity.
Defined.

(** X6.  The scheme [protect] asks for is a prefix, in this very spelling:
    a header that does not start with "Bearer" (no header, "bearer ...",
    "Token ...") is answered 401 "Not authorized, no token provided" without
    a look at the token, while any word that starts with "Bearer" will do,
    and whatever follows a second space is never read. *)
Theorem protect_scheme jwt_verify d :
  (forall authorization,
     match authorization with
     | Some h => startsWith h (lit "Bearer") = false
     | None => True
     end ->
     protect jwt_verify d authorization
     = {| refusals :=
            [ {| code := 401; reason := lit "Not authorized, no token provided";
                 detail := None |} ];
          next := None |}) /\
  (forall w token rest : jsstring,
     ~ In space w -> ~ In space token ->
     protect jwt_verify d
       (Some (lit "Bearer" ++ w ++ space :: token ++ space :: rest))
     = protect jwt_verify d (Some (lit "Bearer " ++ token))).
Proof.
  split.
  - intros [h|] H; unfold protect; [rewrite H|]; reflexivity.
  - intros w token rest Hw Ht. unfold protect.
    replace (lit "Bearer" ++ w ++ space :: token ++ space :: rest)
      with (lit "Bearer" ++ (w ++ space :: token ++ space :: rest))
      by reflexivity.
    change (lit "Bearer " ++ token) with (lit "Bearer" ++ (space :: token)).
    rewrite !startsWith_app.
    assert (Hb : ~ In space (lit "Bearer" ++ w)).
    { intros H. apply in_app_or in H. destruct H as [H|H]; [|contradiction].
      cbn in H. unfold space in H. intuition discriminate. }
    assert (Hb0 : ~ In space (lit "Bearer")).
    { cbn. unfold space. intuition discriminate. }
    rewrite (app_assoc (lit "Bearer") w).
    rewrite (second_part (lit "Bearer" ++ w) token (space :: rest) Hb Ht).
    rewrite Z.eqb_refl.
    pose proof (second_part (lit "Bearer") token [] Hb0 Ht) as E.
    rewrite app_nil_r in E. rewrite E. reflexivity.
Qed.

Lemma startsWith_longer p : ~ In space p -> forall s t,
  startsWith s p = false -> startsWith (s ++ space :: t) p = false.
Proof.
  induction p as [|x p IH]; intros Hp s t H.
  - destruct s; discriminate.
  - destruct s as [|c s]; cbn [app startsWith] in *.
    + destruct (Z.eqb_spec space x) as [E|_]; [|reflexivity].
      exfalso. apply Hp. left. symmetry. exact E.
    + destruct (c =? x); [|reflexivity]. cbn [andb] in *.
      apply IH; [|exact H]. intros X. apply Hp. right. exact X.
Qed.

(** X7.  The token check [verifyToken] of [userController.js] is the weaker
    of the two: whatever [protect] lets through it lets through, with the
    same payload; and it lets through every token [jwt.verify] accepts,
    after any first word and whatever the collection holds, where [protect]
    refuses the request if the word does not start with "Bearer" or the
    user of the payload is gone. *)
Theorem verifyToken_weaker jwt_verify :
  verify_refuses_missing jwt_verify ->
  (forall d authorization decoded,
     next (protect jwt_verify d authorization) = Some decoded ->
     verifyToken jwt_verify authorization
     = {| refusals := []; next := Some decoded |}) /\
  (forall (scheme token : jsstring) decoded,
     ~ In space scheme -> ~ In space token ->
     jwt_verify (Some token) = inl decoded ->
     verifyToken jwt_verify (Some (scheme ++ space :: token))
     = {| refusals := []; next := Some decoded |} /\
     forall d,
       startsWith scheme (lit "Bearer") = false \/
       findById (Decoded.id decoded) d = None ->
       next (protect jwt_verify d (Some (scheme ++ space :: token))) = None).
Proof.
  intros R. split.
  - intros d authorization decoded H. unfold protect in H. unfold verifyToken.
    cbv zeta in *.
    destruct authorization as [h|]; [|discriminate].
    destruct (startsWith h (lit "Bearer")); [|discriminate].
    destruct (jwt_verify (nth_error (split space h) 1)) as [dec|m] eqn:V;
      [|discriminate].
    rewrite (missing_verify _ _ _ R V).
    destruct (findById (Decoded.id dec) d); [|discriminate].
    cbn [next] in H. injection H as <-. reflexivity.
  - intros scheme token decoded Hs Ht V.
    pose proof (second_part scheme token [] Hs Ht) as E.
    rewrite app_nil_r in E. split.
    + unfold verifyToken. cbv zeta.
      rewrite E, (missing_verify _ _ _ R V), V. reflexivity.
    + intros d [B|F]; unfold protect; cbv zeta.
      * rewrite startsWith_longer; [reflexivity| |exact B].
        cbn. unfold space. intuition discriminate.
      * destruct (startsWith _ _); [|reflexivity].
        rewrite E, V, F. reflexivity.
Qed.

Lemma verifyToken_weaker_witness :
  verify_refuses_missing Scenario.verify /\
  verifyToken Scenario.verify (Some (lit "Basic " ++ Scenario.token))
  = {| refusals := [];
       next := Some {| Decoded.id := 1; Decoded.username := lit "alice" |} |} /\
  next (protect Scenario.verify []
          (Some (lit "Bearer " ++ Scenario.token))) = None.
Proof.
  assert (R : verify_refuses_missing Scenario.verify).
  { intros [t|] M; [|eexists; reflexivity].
    destruct t; [eexists; reflexivity|discriminate]. }
  split; [exact R|].
  assert (Nt : ~ In space Scenario.token)
    by (vm_compute; intuition discriminate).
  split.
  - apply (proj2 (verifyToken_weaker Scenario.verify R) (lit "Basic")
             Scenario.token _); [vm_compute; intuition discriminate|exact Nt|].
    vm_compute. reflexivity.
  - apply (proj2 (verifyToken_weaker Scenario.verify R) (lit "Bearer")
             Scenario.token
             {| Decoded.id := 1; Decoded.username := lit "alice" |});
      [vm_compute; intuition discriminate|exact Nt| |].
    + vm_compute. reflexivity.
    + right. reflexivity.
Defined.

(** ** What a request writes *)

(** A request for a user saves nothing, or one document that passes the
    schema: the document of that user with another address book. *)
Lemma serve_saves C d userId r :
  saves (serve C d userId r) = [] \/
  exists user book,
    findById userId d = Some user /\
    saves (serve C d userId r) = [User.with_addressBook book user] /\
    valid (User.with_addressBook book user) = true.
Proof.
  destruct r as [blockchain label password now g | walletAddress blockchain
                | label address blockchain notes now oid | entries now oid
                | entryId label notes | entryId]; cbn [serve].
  - left. apply createAdditionalWallet_saves_nothing.
  - left. apply setDefaultWallet_saves_nothing.
  - left. destruct (findById userId d) as [user|] eqn:F.
    + rewrite (addAddressBookEntry_value C _ _ _ _ _ _ _ _ user F).
      destruct (validAddress C address blockchain); reflexivity.
    + unfold addAddressBookEntry. rewrite F. reflexivity.
  - left. destruct entries as [|e r]; [reflexivity|].
    destruct (findById userId d) as [user|] eqn:F.
    + rewrite (addBatch_value C _ _ _ _ _ user F) by discriminate.
      destruct (fst _); reflexivity.
    + unfold addBatchAddressBookEntries. rewrite F. reflexivity.
  - unfold updateAddressBookEntry.
    destruct (findById userId d) as [user|] eqn:F; [|left; reflexivity].
    destruct (findIndex _ _) as [i|]; [|left; reflexivity].
    unfold save_found, validate.
    destruct (valid _) eqn:V; [|left; reflexivity].
    right. eexists. eexists. split; [reflexivity|].
    split; [reflexivity|exact V].
  - unfold deleteAddressBookEntry.
    destruct (findById userId d) as [user|] eqn:F; [|left; reflexivity].
    destruct (findIndex _ _) as [i|]; [|left; reflexivity].
    unfold save_found, validate.
    destruct (valid _) eqn:V; [|left; reflexivity].
    right. eexists. eexists. split; [reflexivity|].
    split; [reflexivity|exact V].
Qed.

(** X12.  A request changes no document but the one of the user it was made
    for: after requests for one user, registrations and recoveries, every
    other [_id] is looked up to exactly what it was looked up to before. *)
Theorem requests_are_isolated C d :
  (forall userId r other, other <> userId ->
     findById other (commit d (serve C d userId r)) = findById other d) /\
  (forall username password now g other, other <> fresh_id d ->
     findById other (commit d (registerUser C d username password now g))
     = findById other d) /\
  (forall username password newPassword g user other,
     findOne username d = Some user -> other <> User._id user ->
     findById other
       (commit d (recoverWalletFromPhrase C d username password newPassword g))
     = findById other d).
Proof.
  split; [|split].
  - intros userId r other N.
    destruct (serve_saves C d userId r) as [E|(user & book & F & E & _)].
    + rewrite commit_nothing by exact E. reflexivity.
    + rewrite (commit_one _ _ _ E). apply findById_store_other.
      cbn [User.with_addressBook User._id].
      rewrite (findById_id _ _ _ F). exact N.
  - intros username password now g other _.
    rewrite commit_nothing; [reflexivity|].
    apply registerUser_never_stores.
  - intros username password newPassword g user other _ _.
    rewrite commit_nothing; [reflexivity|].
    apply recover_saves_nothing.
Qed.

(** ** Accounts: [exports.register] and [exports.login] *)

Lemma store_fresh u d : User._id u = fresh_id d -> store u d = d ++ [u].
Proof.
  intros E. unfold store.
  replace (existsb (fun v => User._id v =? User._id u) d) with false;
    [reflexivity|].
  symmetry. apply not_true_is_false. intros X.
  apply existsb_exists in X. destruct X as (v & Hv & X).
  apply Z.eqb_eq in X. pose proof (fresh_id_above d v Hv). lia.
Qed.

Lemma find_last {A} (p : A -> bool) l x :
  find p l = None -> p x = true -> find p (l ++ [x]) = Some x.
Proof.
  intros N P. induction l as [|y l IH]; cbn [app find] in *.
  - rewrite P. reflexivity.
  - destruct (p y); [discriminate|]. apply IH, N.
Qed.

(** X29.  An account made through [exports.register] can be logged into
    through [exports.login].  When no stored account has the e-mail address,
    the three strings pass the schema, MongoDB takes the document and
    bcrypt accepts the password against the hash made of it, registration
    answers 201 and stores the account with the hash in place of the
    password; [login] with the same address and password then answers 200
    with a token for the [_id] of that account and with the name and the
    address registration had answered, and a password that bcrypt rejects
    is answered 400. *)
Theorem account_logs_in (C : Collaborators)
    d username email password now g later :
  findOneByEmail C email d = None ->
  truthy (lowercase C (trim email)) = true ->
  (8 <= length password)%nat ->
  truthy (trim username) = true ->
  (forall u, User._id u = fresh_id d -> index_accepts C d u = true) ->
  let hash := bcrypt_hash C password (fst (randomBytes 16 g)) in
  bcrypt_compare C password hash = true ->
  let o := register C d username email password now g in
  status (reply o) = 201 /\
  (exists u, saves o = [u] /\ User._id u = fresh_id d /\
             User.password u = Some hash /\
             findById (fresh_id d) (commit d o) = Some u) /\
  data (reply o)
  = AccountData (jwt_sign_userId C (fresh_id d) now) (fresh_id d)
      (Some (trim username)) (Some (lowercase C (trim email))) /\
  login C (commit d o) email password later
  = respond 200 (lit "Login successful")
      (AccountData (jwt_sign_userId C (fresh_id d) later) (fresh_id d)
         (Some (trim username)) (Some (lowercase C (trim email)))) /\
  (forall wrong, bcrypt_compare C wrong hash = false ->
     login C (commit d o) email wrong later
     = respond 400 (lit "Invalid credentials") NoData).
Proof.
  intros F E P U A hash B o. subst o.
  set (u := {| User._id := fresh_id d;
               User.email := Some (lowercase C (trim email));
               User.password := Some hash;
               User.username := Some (trim username);
               User.wallets := {| Wallets.ethereum := []; Wallets.solana := [] |};
               User.addressBook := [];
               User.preferences := Preferences.defaults;
               User.createdAt := now;
               User.lastLogin := None |}).
  rewrite (register_value C d username email password now g F E P U
             (A u eq_refl)).
  fold hash. fold u.
  assert (Ec : commit d (respond_saving u 201 (lit "User registered successfully")
                           (AccountData (jwt_sign_userId C (fresh_id d) now)
                              (fresh_id d) (Some (trim username))
                              (Some (lowercase C (trim email)))))
               = d ++ [u]).
  { unfold commit. cbn [saves respond_saving fold_left].
    apply store_fresh. reflexivity. }
  rewrite Ec.
  assert (Fe : findOneByEmail C email (d ++ [u]) = Some u).
  { unfold findOneByEmail in *. apply find_last; [exact F|].
    cbn [u User.email equals]. apply str_eqb_refl. }
  split; [reflexivity|]. split; [|split; [reflexivity|split]].
  - exists u. split; [reflexivity|]. split; [reflexivity|].
    split; [reflexivity|].
    rewrite <- (store_fresh u d eq_refl).
    exact (findById_fresh d u eq_refl).
  - unfold login. rewrite Fe. cbn [u User.password compareStored bindR].
    rewrite B. reflexivity.
  - intros wrong W. unfold login. rewrite Fe.
    cbn [u User.password compareStored bindR]. rewrite W. reflexivity.
Qed.

(** X30.  [exports.login] gives nothing away about which e-mail addresses
    have an account: an address that is not stored and a stored address
    with a password that bcrypt rejects are answered with the same status
    and the same body, 400 "Invalid credentials"; and neither writes. *)
Theorem login_failures_alike (C : Collaborators) d email password now :
  (findOneByEmail C email d = None ->
   login C d email password now
   = respond 400 (lit "Invalid credentials") NoData) /\
  (forall user hash, findOneByEmail C email d = Some user ->
   User.password user = Some hash ->
   bcrypt_compare C password hash = false ->
   login C d email password now
   = respond 400 (lit "Invalid credentials") NoData) /\
  saves (login C d email password now) = [].
Proof.
  split; [|split].
  - intros F. unfold login. rewrite F. reflexivity.
  - intros user hash F P B. unfold login. rewrite F, P.
    cbn [compareStored bindR]. rewrite B. reflexivity.
  - unfold login. destruct (findOneByEmail C email d) as [user|]; [|reflexivity].
    destruct (User.password user) as [hash|]; [|reflexivity].
    cbn [compareStored bindR]. destruct (bcrypt_compare C password hash);
      reflexivity.
Qed.

(** How [exports.register] ends. *)
Lemma register_cases C d username email password now g :
  register C d username email password now g
  = match findOneByEmail C email d with
    | Some _ => respond 400 (lit "User already exists") NoData
    | None =>
        match save_new C d
                (User_account C username email password (fresh_id d) now) g with
        | Ok (saved, _) =>
            respond_saving saved 201 (lit "User registered successfully")
              (AccountData (jwt_sign_userId C (User._id saved) now)
                 (User._id saved)
                 (User.username saved) (User.email saved))
        | Throw e => respond 500 (lit "Server error") (ErrorData e)
        end
    end.
Proof.
  unfold register, handle. destruct (findOneByEmail C email d); [reflexivity|].
  unfold bind at 1. destruct (save_new C d _ g) as [[saved g1]|e]; reflexivity.
Qed.

(** What [save] writes for a new document: the document that was checked,
    with the hash in place of the password. *)
Lemma save_new_shape C d u g saved g' :
  save_new C d u g = Ok (saved, g') ->
  valid u = true /\
  saved = User.with_password
            (option_map (fun p => bcrypt_hash C p (fst (randomBytes 16 g)))
               (User.password u)) u.
Proof.
  unfold save_new. unfold bind at 1. unfold lift, validate.
  destruct (valid u); [|discriminate].
  cbv [bind draw ret]. destruct (randomBytes 16 g) as [a g2]. cbn [fst].
  destruct (index_accepts C d _); [|discriminate].
  intros X. split; [reflexivity|].
  assert (Y := f_equal (fun r => match r with
                                 | Ok (x, _) => x
                                 | Throw _ => saved
                                 end) X).
  cbv beta iota in Y. symmetry. exact Y.
Qed.

(** X31.  An e-mail address has one account.  Once [exports.register] has
    answered 201 for an address, every further registration under that
    address, with whatever name and password, is answered 400 "User already
    exists", saves nothing and leaves the collection as it is. *)
Theorem address_is_taken (C : Collaborators)
    d username email password now g username' password' now' g' :
  status (reply (register C d username email password now g)) = 201 ->
  let d' := commit d (register C d username email password now g) in
  register C d' username' email password' now' g'
  = respond 400 (lit "User already exists") NoData /\
  commit d' (register C d' username' email password' now' g') = d'.
Proof.
  intros S d'.
  assert (F : exists u, findOneByEmail C email d' = Some u).
  { subst d'. revert S. rewrite register_cases.
    destruct (findOneByEmail C email d) as [v|] eqn:F; [discriminate|].
    destruct (save_new C d _ g) as [[saved g1]|e] eqn:Sv; [|discriminate].
    intros _. destruct (save_new_shape _ _ _ _ _ _ Sv) as [_ Es].
    unfold commit. cbn [saves respond_saving fold_left].
    assert (Ei : User._id saved = fresh_id d) by (rewrite Es; reflexivity).
    rewrite (store_fresh saved d Ei).
    exists saved. unfold findOneByEmail in *. apply find_last; [exact F|].
    rewrite Es. cbn [User.with_password User_account User.email equals].
    apply str_eqb_refl. }
  destruct F as [u F].
  assert (V : register C d' username' email password' now' g'
              = respond 400 (lit "User already exists") NoData).
  { rewrite register_cases, F. reflexivity. }
  split; [exact V|]. rewrite V. reflexivity.
Qed.

(** ** The collection between requests *)

Lemma store_kept (P : User.t -> Prop) u d :
  P u -> Forall P d -> Forall P (store u d).
Proof. apply Forall_store. Qed.

Lemma valid_hashed C u h :
  hash_is_long C -> valid u = true ->
  (exists password saltBytes, h = bcrypt_hash C password saltBytes) ->
  valid (User.with_password (Some h) u) = true.
Proof.
  intros HL V (password & saltBytes & ->). revert V. unfold valid.
  cbn [User.with_password User.email User.password User.username User.wallets
       User.addressBook User.preferences].
  pose proof (HL password saltBytes) as L.
  rewrite (long_is_truthy _ L). apply Nat.leb_le in L. rewrite L.
  destruct (required (User.email u)); [|discriminate].
  destruct (User.password u) as [p|]; [|discriminate].
  cbn [andb]. destruct (truthy p && (8 <=? length p)%nat); [|discriminate].
  cbn [andb]. intros V. exact V.
Qed.

(** X32.  Between requests the collection holds only documents that pass
    the schema and whose password is a bcrypt hash: whatever sequence of
    registrations, of authenticated requests for wallets and address books
    and of recoveries has been served, no document is stored with a
    password as it was sent, and none that the schema would refuse. *)
Theorem collection_stays_valid (C : Collaborators) d :
  hash_is_long C -> attainable C d -> Forall (kept C) d.
Proof.
  intros HL A. induction A as [ | d username email password now g A IH
                                | d username password now g A IH
                                | d userId r A IH
                                | d username password newPassword g A IH
                                | d userId user now A IH F].
  - constructor.
  - rewrite (register_cases C d username email password now g).
    destruct (findOneByEmail C email d); [exact IH|].
    destruct (save_new C d _ g) as [[saved g1]|e] eqn:Sv; [|exact IH].
    destruct (save_new_shape _ _ _ _ _ _ Sv) as [V Es].
    unfold commit. cbn [saves respond_saving fold_left].
    apply store_kept; [|exact IH].
    rewrite Es. cbn [User_account User.password option_map]. split.
    + apply (valid_hashed C); [exact HL|exact V|]. eexists. eexists. reflexivity.
    + eexists. eexists. reflexivity.
  - rewrite commit_nothing; [exact IH|]. apply registerUser_never_stores.
  - destruct (serve_saves C d userId r) as [E|(user & book & F & E & V)].
    + rewrite commit_nothing by exact E. exact IH.
    + rewrite (commit_one _ _ _ E). apply store_kept; [|exact IH].
      split; [exact V|].
      rewrite Forall_forall in IH.
      destruct (IH user (findById_in _ _ _ F)) as [_ K]. exact K.
  - rewrite commit_nothing; [exact IH|]. apply recover_saves_nothing.
  - apply store_kept; [|exact IH].
    rewrite Forall_forall in IH.
    exact (IH user (findById_in _ _ _ F)).
Qed.

(** A request for a user whose book is empty saves nothing. *)
Lemma serve_empty_book C d userId r :
  (forall user, findById userId d = Some user -> User.addressBook user = []) ->
  saves (serve C d userId r) = [].
Proof.
  intros B.
  destruct (serve_saves C d userId r) as [E|(user & book & F & E & _)];
    [exact E|].
  pose proof (B user F) as Eb. revert E.
  destruct r as [blockchain label password now g | walletAddress blockchain
                | label address blockchain notes now oid | entries now oid
                | entryId label notes | entryId]; cbn [serve].
  - rewrite createAdditionalWallet_saves_nothing. discriminate.
  - rewrite setDefaultWallet_saves_nothing. discriminate.
  - rewrite (addAddressBookEntry_value C _ _ _ _ _ _ _ _ user F).
    destruct (validAddress C address blockchain); discriminate.
  - destruct entries as [|e l]; [discriminate|].
    rewrite (addBatch_value C _ _ _ _ _ user F) by discriminate.
    destruct (fst _); discriminate.
  - unfold updateAddressBookEntry. rewrite F, Eb. discriminate.
  - unfold deleteAddressBookEntry. rewrite F, Eb. discriminate.
Qed.

(** X33.  No wallet and no address-book entry is ever stored.  In every
    collection the handlers can reach, each document has two empty wallet
    arrays and an empty address book, and no request for a wallet or for an
    address book writes anything. *)
Theorem nothing_but_accounts (C : Collaborators) d :
  attainable C d ->
  Forall (fun u => User.wallets u
                   = {| Wallets.ethereum := []; Wallets.solana := [] |} /\
                   User.addressBook u = []) d /\
  (forall userId r, saves (serve C d userId r) = []).
Proof.
  intros A.
  assert (I : Forall (fun u => User.wallets u
                               = {| Wallets.ethereum := []; Wallets.solana := [] |} /\
                               User.addressBook u = []) d).
  { induction A as [ | d username email password now g A IH
                     | d username password now g A IH
                     | d userId r A IH
                     | d username password newPassword g A IH
                     | d userId user now A IH F].
    - constructor.
    - rewrite (register_cases C d username email password now g).
      destruct (findOneByEmail C email d); [exact IH|].
      destruct (save_new C d _ g) as [[saved g1]|e] eqn:Sv; [|exact IH].
      destruct (save_new_shape _ _ _ _ _ _ Sv) as [_ Es].
      unfold commit. cbn [saves respond_saving fold_left].
      apply store_kept; [|exact IH]. rewrite Es. split; reflexivity.
    - rewrite commit_nothing; [exact IH|]. apply registerUser_never_stores.
    - rewrite commit_nothing; [exact IH|]. apply serve_empty_book.
      intros user F. rewrite Forall_forall in IH.
      exact (proj2 (IH user (findById_in _ _ _ F))).
    - rewrite commit_nothing; [exact IH|]. apply recover_saves_nothing.
    - apply store_kept; [|exact IH]. rewrite Forall_forall in IH.
      exact (IH user (findById_in _ _ _ F)). }
  split; [exact I|].
  intros userId r. apply serve_empty_book.
  intros user F. rewrite Forall_forall in I.
  exact (proj2 (I user (findById_in _ _ _ F))).
Qed.

(** X34.  [loginUser] of [userController.js] logs nobody in.  Its answer is
    never 200 and it writes nothing; for a stored user and a password that
    bcrypt accepts the answer is 500 "Server error", because the handler
    goes on to call [user.wallets.find], and [user.wallets] is the nested
    path of the schema, which has no [find]. *)
Theorem loginUser_never_succeeds (C : Collaborators) d username password :
  let o := loginUser C d username password in
  status (reply o) <> 200 /\ saves o = [] /\
  (forall user hash,
     findOne username d = Some user -> User.password user = Some hash ->
     bcrypt_compare C password hash = true ->
     status (reply o) = 500 /\ message (reply o) = lit "Server error").
Proof.
  intros o. subst o. split; [|split].
  - unfold loginUser. destruct (findOne username d) as [user|]; [|discriminate].
    destruct (User.password user) as [hash|]; [|discriminate].
    cbn [compareStored bindR].
    destruct (bcrypt_compare C password hash); discriminate.
  - unfold loginUser. destruct (findOne username d) as [user|]; [|reflexivity].
    destruct (User.password user) as [hash|]; [|reflexivity].
    cbn [compareStored bindR].
    destruct (bcrypt_compare C password hash); reflexivity.
  - intros user hash F P B.
    rewrite (loginUser_found C d username password user hash F P B).
    split; reflexivity.
Qed.

(** *** On the sample account *)

Lemma Sample_hash_is_long : hash_is_long Sample.C.
Proof.
  intros password saltBytes. cbn [bcrypt_hash Sample.C]. unfold Sample.hash.
  rewrite !length_app. cbn [lit length list_ascii_of_string map]. lia.
Qed.

Lemma account_logs_in_witness :
  findOneByEmail Sample.C Sample.mail [] = None /\
  (8 <= length Sample.old)%nat /\
  bcrypt_compare Sample.C Sample.old
    (bcrypt_hash Sample.C Sample.old (fst (randomBytes 16 Sample.g0))) = true /\
  status (reply (register Sample.C [] Sample.alice Sample.mail Sample.old 0
                   Sample.g0)) = 201 /\
  login Sample.C
    (commit [] (register Sample.C [] Sample.alice Sample.mail Sample.old 0
                  Sample.g0))
    Sample.mail Sample.old 60
  = respond 200 (lit "Login successful")
      (AccountData (lit "token.1.60") 1 (Some Sample.alice) (Some Sample.mail)) /\
  login Sample.C
    (commit [] (register Sample.C [] Sample.alice Sample.mail Sample.old 0
                  Sample.g0))
    Sample.mail Sample.guess 60
  = respond 400 (lit "Invalid credentials") NoData.
Proof.
  assert (F : findOneByEmail Sample.C Sample.mail [] = None) by reflexivity.
  assert (P : (8 <= length Sample.old)%nat) by (vm_compute; lia).
  assert (B : bcrypt_compare Sample.C Sample.old
                (bcrypt_hash Sample.C Sample.old
                   (fst (randomBytes 16 Sample.g0))) = true)
    by (vm_compute; reflexivity).
  split; [exact F|]. split; [exact P|]. split; [exact B|].
  destruct (account_logs_in Sample.C [] Sample.alice Sample.mail Sample.old 0
              Sample.g0 60 F ltac:(reflexivity) P ltac:(reflexivity)
              ltac:(intros; reflexivity) B)
    as (S & _ & _ & L & W).
  split; [exact S|]. split; [exact L|].
  apply W. vm_compute. reflexivity.
Defined.

Lemma login_failures_alike_witness :
  login Sample.C Sample.d1 (lit "bob@example.org") Sample.old 60
  = respond 400 (lit "Invalid credentials") NoData /\
  login Sample.C Sample.d1 Sample.mail (lit "wrong") 60
  = respond 400 (lit "Invalid credentials") NoData.
Proof.
  split.
  - apply (proj1 (login_failures_alike Sample.C Sample.d1
                    (lit "bob@example.org") Sample.old 60)).
    vm_compute. reflexivity.
  - apply (proj1 (proj2 (login_failures_alike Sample.C Sample.d1 Sample.mail
                           (lit "wrong") 60)) Sample.u1
             (bcrypt_hash Sample.C Sample.old (fst (randomBytes 16 Sample.g0))));
      vm_compute; reflexivity.
Defined.

Lemma address_is_taken_witness :
  status (reply (register Sample.C [] Sample.alice Sample.mail Sample.old 0
                   Sample.g0)) = 201 /\
  register Sample.C
    (commit [] (register Sample.C [] Sample.alice Sample.mail Sample.old 0
                  Sample.g0))
    (lit "mallory") Sample.mail Sample.guess 1 Sample.g1
  = respond 400 (lit "User already exists") NoData.
Proof.
  assert (S : status (reply (register Sample.C [] Sample.alice Sample.mail
                               Sample.old 0 Sample.g0)) = 201)
    by (vm_compute; reflexivity).
  split; [exact S|].
  exact (proj1 (address_is_taken Sample.C [] Sample.alice Sample.mail Sample.old
                  0 Sample.g0 (lit "mallory") Sample.guess 1 Sample.g1 S)).
Defined.

Lemma collection_stays_valid_witness :
  hash_is_long Sample.C /\ attainable Sample.C Sample.d1 /\
  Sample.d1 <> [] /\ Forall (kept Sample.C) Sample.d1.
Proof.
  assert (A : attainable Sample.C Sample.d1)
    by exact (attain_account Sample.C [] Sample.alice Sample.mail Sample.old
                0 Sample.g0 (attain_empty Sample.C)).
  split; [exact Sample_hash_is_long|]. split; [exact A|].
  split; [vm_compute; discriminate|].
  exact (collection_stays_valid Sample.C Sample.d1 Sample_hash_is_long A).
Defined.

Lemma nothing_but_accounts_witness :
  attainable Sample.C Sample.d1 /\ Sample.d1 <> [] /\
  saves (serve Sample.C Sample.d1 1
           (AddAddressBookEntry (lit "Bob") Sample.lower ethereum [] 0
              (Sample.oid 0))) = [] /\
  saves (serve Sample.C Sample.d1 1
           (CreateAdditionalWallet solana [] Sample.old 0 Sample.g2)) = [].
Proof.
  assert (A : attainable Sample.C Sample.d1)
    by exact (attain_account Sample.C [] Sample.alice Sample.mail Sample.old
                0 Sample.g0 (attain_empty Sample.C)).
  split; [exact A|]. split; [vm_compute; discriminate|].
  destruct (nothing_but_accounts Sample.C Sample.d1 A) as [_ N].
  split; apply N.
Defined.

Lemma loginUser_never_succeeds_witness :
  findOne Sample.alice Sample.d1 = Some Sample.u1 /\
  bcrypt_compare Sample.C Sample.old
    (bcrypt_hash Sample.C Sample.old (fst (randomBytes 16 Sample.g0))) = true /\
  status (reply (loginUser Sample.C Sample.d1 Sample.alice Sample.old)) = 500 /\
  message (reply (loginUser Sample.C Sample.d1 Sample.alice Sample.old))
  = lit "Server error".
Proof.
  destruct Sample_account as (_ & _ & _ & F & _ & P & B).
  split; [exact F|]. split; [exact B|].
  exact (proj2 (proj2 (loginUser_never_succeeds Sample.C Sample.d1 Sample.alice
                         Sample.old)) Sample.u1 _ F P B).
Defined.

(** ** The transaction history *)


